(** * USX splitter: a shallow embedding of [usx_splitter.py] and [cli.py]

    The splitter cuts one USX document (an ElementTree) into per-chunk
    documents.  ElementTree elements are mutable objects that the program
    passes around by reference, so the embedding keeps an explicit object
    store: an element is a location in a heap, [append] stores a reference,
    and the pretty-printer [_indent_xml] rewrites [text] and [tail] in place.

    Conventions of the embedding
    - a Python [str] is the byte string of its UTF-8 encoding;
    - [None]-able values are [option]s;
    - an exception ends the computation with [Raise], keeping the store and
      the files written so far;
    - recursion is bounded by the interpreter's stack: [_indent_xml] and the
      serialiser take the number of calls still allowed and raise
      [RecursionError] when it is used up;
    - a file holds the tree that was serialised into it;
    - paths are those of a POSIX system;
    - the limit that interpreters from 3.11 on put on the number of digits
      of [int] and [str] conversions is taken to be switched off;
    - parsing of the YAML and XML inputs and file-system failures are not
      modelled: a run starts from the parsed TOC and from a store that holds
      the parsed document.

    The file has four parts: the program, lemmas about it, the claims of
    the specification (C1 to C10) with their theorems, and further
    properties of the code (X1 onwards). *)

From Stdlib Require Import ZArith String Ascii List Bool Lia DecimalString.
From Stdlib Require DecimalPos.
From stdpp Require Import base list strings.
Import ListNotations.

Local Open Scope Z_scope.

(** ** Python strings *)

Module PyStr.

Definition code (c : ascii) : N := N_of_ascii c.

Definition in_range (lo hi x : N) : bool := ((lo <=? x) && (x <=? hi))%N.

(** One-byte white space of [str.isspace]: U+0009..U+000D, U+001C..U+0020. *)
Definition space1 (x : N) : bool := in_range 9 13 x || in_range 28 32 x.

(** Two-byte white space: U+0085 and U+00A0. *)
Definition space2 (x y : N) : bool :=
  ((x =? 194) && ((y =? 133) || (y =? 160)))%N.

(** Three-byte white space: U+1680, U+2000..U+200A, U+2028, U+2029, U+202F,
    U+205F, U+3000. *)
Definition space3 (x y z : N) : bool :=
  (((x =? 225) && (y =? 154) && (z =? 128))
   || ((x =? 226) && (y =? 128)
       && (in_range 128 138 z || (z =? 168) || (z =? 169) || (z =? 175)))
   || ((x =? 226) && (y =? 129) && (z =? 159))
   || ((x =? 227) && (y =? 128) && (z =? 128)))%N.

(** [s.lstrip()]: drop the leading white-space code points. *)
Fixpoint lstrip (s : string) : string :=
  match s with
  | EmptyString => EmptyString
  | String a r =>
      if space1 (code a) then lstrip r
      else
        match r with
        | EmptyString => s
        | String b r' =>
            if space2 (code a) (code b) then lstrip r'
            else
              match r' with
              | EmptyString => s
              | String c r'' =>
                  if space3 (code a) (code b) (code c) then lstrip r''
                  else s
              end
        end
  end.

(** Truth value of [s.strip()]: some code point of [s] is not white space.
    What [lstrip] leaves starts with such a code point, which [rstrip]
    cannot remove. *)
Definition strip_truthy (s : string) : bool :=
  match lstrip s with
  | EmptyString => false
  | String _ _ => true
  end.

(** Truth value of a [str]. *)
Definition truthy (s : string) : bool :=
  match s with
  | EmptyString => false
  | String _ _ => true
  end.

(** [x and x.strip()] for an optional string [x] ([None] is falsy). *)
Definition has_content (x : option string) : bool :=
  match x with
  | None => false
  | Some s => truthy s && strip_truthy s
  end.

(** [n * "  "] *)
Fixpoint spaces2 (n : nat) : string :=
  match n with
  | O => ""
  | S k => "  " +:+ spaces2 k
  end.

(** [str(n)] for an [int]. *)
Definition of_Z (n : Z) : string := NilZero.string_of_int (Z.to_int n).

Definition of_nat (n : nat) : string := of_Z (Z.of_nat n).

(** [f"{n:02d}"]: at least two characters, padded with a zero on the
    left (the sign counts as a character). *)
Definition fmt_02d (n : Z) : string :=
  let s := of_Z n in
  if (String.length s <? 2)%nat then "0" +:+ s else s.

(** *** [int(s)]

    [int] first replaces every white-space code point above U+007E by a
    space and every decimal digit above U+007E by its ASCII digit
    ([_PyUnicode_TransformDecimalAndSpaceToASCII]); any other code point
    above U+007E makes the literal invalid.  The result is read by the
    parser of integers ([PyLong_FromString]), whose white space is the ASCII
    one. *)

(** The code points of general category Nd come in runs of ten, zero first;
    these are the zeros of Unicode 14 (the database of CPython 3.11; later
    databases add runs).  The mathematical digits are five runs in a row. *)
Definition decimal_zeros : list N :=
  [ 0x0030; 0x0660; 0x06F0; 0x07C0; 0x0966; 0x09E6; 0x0A66; 0x0AE6; 0x0B66;
    0x0BE6; 0x0C66; 0x0CE6; 0x0D66; 0x0DE6; 0x0E50; 0x0ED0; 0x0F20; 0x1040;
    0x1090; 0x17E0; 0x1810; 0x1946; 0x19D0; 0x1A80; 0x1A90; 0x1B50; 0x1BB0;
    0x1C40; 0x1C50; 0xA620; 0xA8D0; 0xA900; 0xA9D0; 0xA9F0; 0xAA50; 0xABF0;
    0xFF10; 0x104A0; 0x10D30; 0x11066; 0x110F0; 0x11136; 0x111D0; 0x112F0;
    0x11450; 0x114D0; 0x11650; 0x116C0; 0x11730; 0x118E0; 0x11950; 0x11C50;
    0x11D50; 0x11DA0; 0x16A60; 0x16AC0; 0x16B50;
    0x1D7CE; 0x1D7D8; 0x1D7E2; 0x1D7EC; 0x1D7F6;
    0x1E140; 0x1E2F0; 0x1E950; 0x1FBF0 ]%N.

(** [Py_UNICODE_TODECIMAL] *)
Definition decimal_of (cp : N) : option N :=
  match List.find (fun z => in_range z (z + 9) cp) decimal_zeros with
  | Some z => Some (cp - z)%N
  | None => None
  end.

(** [Py_UNICODE_ISSPACE] above U+007E. *)
Definition unicode_space (cp : N) : bool :=
  ((cp =? 0x85) || (cp =? 0xA0) || (cp =? 0x1680) || in_range 0x2000 0x200A cp
   || (cp =? 0x2028) || (cp =? 0x2029) || (cp =? 0x202F) || (cp =? 0x205F)
   || (cp =? 0x3000))%N.

(** What the transformation writes for a code point above U+007E, in front
    of the transformed rest. *)
Definition transformed (cp : N) (rest : option string) : option string :=
  if unicode_space cp then String " " <$> rest
  else
    match decimal_of cp with
    | Some d => String (ascii_of_N (48 + d)) <$> rest
    | None => None
    end.

(** The payload of a continuation byte of UTF-8. *)
Definition continuation (b : ascii) : option N :=
  if in_range 128 191 (code b) then Some (code b - 128)%N else None.

(** The transformation, on the UTF-8 encoding of the string: [None] when
    the literal is invalid for a code point above U+007E (or when the bytes
    are the encoding of no string). *)
Fixpoint to_ascii (s : string) : option string :=
  match s with
  | EmptyString => Some EmptyString
  | String a r =>
      let x := code a in
      if (x <? 127)%N then String a <$> to_ascii r
      else if (x =? 127)%N then None
      else if in_range 194 223 x then
        match r with
        | String b r1 =>
            match continuation b with
            | Some y => transformed ((x - 192) * 64 + y)%N (to_ascii r1)
            | None => None
            end
        | EmptyString => None
        end
      else if in_range 224 239 x then
        match r with
        | String b (String c r2) =>
            match continuation b, continuation c with
            | Some y, Some z =>
                transformed ((x - 224) * 4096 + y * 64 + z)%N (to_ascii r2)
            | _, _ => None
            end
        | _ => None
        end
      else if in_range 240 244 x then
        match r with
        | String b (String c (String d r3)) =>
            match continuation b, continuation c, continuation d with
            | Some y, Some z, Some u =>
                transformed ((x - 240) * 262144 + y * 4096 + z * 64 + u)%N
                  (to_ascii r3)
            | _, _, _ => None
            end
        | _ => None
        end
      else None
  end.

(** White space of the parser ([Py_ISSPACE]): U+0009..U+000D and U+0020.
    The separators U+001C..U+001F, which [str.strip] removes, are none. *)
Definition int_space (x : N) : bool := in_range 9 13 x || (x =? 32)%N.

Fixpoint int_lstrip (s : string) : string :=
  match s with
  | EmptyString => EmptyString
  | String a r => if int_space (code a) then int_lstrip r else s
  end.

Definition digit_val (c : ascii) : option Z :=
  let x := code c in
  if in_range 48 57 x then Some (Z.of_N (x - 48)) else None.

(** The digits of a decimal literal after its first digit: a digit, or one
    underscore followed by a digit.  Returns the value and what is left. *)
Fixpoint int_digits (acc : Z) (s : string) : Z * string :=
  match s with
  | EmptyString => (acc, s)
  | String c r =>
      match digit_val c with
      | Some d => int_digits (acc * 10 + d) r
      | None =>
          if (code c =? 95)%N then
            match r with
            | String c' r' =>
                match digit_val c' with
                | Some d => int_digits (acc * 10 + d) r'
                | None => (acc, s)
                end
            | EmptyString => (acc, s)
            end
          else (acc, s)
      end
  end.

Definition int_unsigned (s : string) : option Z :=
  match s with
  | EmptyString => None
  | String c r =>
      match digit_val c with
      | None => None
      | Some d =>
          let '(v, rest) := int_digits d r in
          match int_lstrip rest with
          | EmptyString => Some v
          | String _ _ => None
          end
      end
  end.

(** [int(s)] for a [str] in base 10: white space around, an optional sign,
    decimal digits with single underscores between them.  [None] stands for
    [ValueError].  The limit that interpreters from 3.11 on put on the number
    of digits ([sys.set_int_max_str_digits], 4300 unless changed) is taken to
    be switched off, for [int] as for [str]. *)
Definition to_Z (s : string) : option Z :=
  match to_ascii s with
  | None => None
  | Some t =>
      match int_lstrip t with
      | EmptyString => None
      | String c r as u =>
          if (code c =? 43)%N then int_unsigned r
          else if (code c =? 45)%N then Z.opp <$> int_unsigned r
          else int_unsigned u
      end
  end.

(** *** [repr(s)]

    The quotes are single unless the string has a single quote and no double
    one; the backslash, the quote, the control characters and U+007F are
    escaped.  Code points above U+007E are taken to be printable: they are
    copied (the interpreter escapes those that are not). *)
Fixpoint has_code (x : N) (s : string) : bool :=
  match s with
  | EmptyString => false
  | String a r => (code a =? x)%N || has_code x r
  end.

Definition hex_char (n : N) : ascii :=
  ascii_of_N (if (n <? 10)%N then 48 + n else 87 + n).

Definition repr_char (quote : N) (a : ascii) : string :=
  let x := code a in
  if ((x =? quote) || (x =? 92))%N then String (ascii_of_N 92) (String a "")
  else if (x =? 9)%N then String (ascii_of_N 92) "t"
  else if (x =? 10)%N then String (ascii_of_N 92) "n"
  else if (x =? 13)%N then String (ascii_of_N 92) "r"
  else if ((x <? 32) || (x =? 127))%N then
    String (ascii_of_N 92)
      (String "x" (String (hex_char (x / 16)) (String (hex_char (x mod 16)) "")))
  else String a "".

Fixpoint repr_chars (quote : N) (s : string) : string :=
  match s with
  | EmptyString => EmptyString
  | String a r => repr_char quote a +:+ repr_chars quote r
  end.

Definition repr (s : string) : string :=
  let quote := if has_code 39 s && negb (has_code 34 s) then 34%N else 39%N in
  String (ascii_of_N quote)
    (repr_chars quote s +:+ String (ascii_of_N quote) "").

(** The first [n] code points of a string, on its UTF-8 encoding: a
    continuation byte goes with the code point before it. *)
Fixpoint take_cp (n : nat) (s : string) : string :=
  match s with
  | EmptyString => EmptyString
  | String a r =>
      if in_range 128 191 (code a) then String a (take_cp n r)
      else
        match n with
        | O => EmptyString
        | S k => String a (take_cp k r)
        end
  end.

End PyStr.

(** ** Exceptions and results *)

Inductive exn : Type :=
| ValueError (literal : string)   (* int() on a string that is no number *)
| RecursionError.                 (* the interpreter's stack limit *)

Inductive result (A : Type) : Type :=
| Ok (a : A)
| Raise (e : exn).
Arguments Ok {A} a.
Arguments Raise {A} e.

(** [str(e)] as printed by the command line.  [int] formats its literal
    with [%.200R]: the [repr] of the string, cut after 200 code points.  The
    message of a [RecursionError] can go on with the name of what was being
    called; that part is left out. *)
Definition exn_str (e : exn) : string :=
  match e with
  | ValueError s =>
      "invalid literal for int() with base 10: "
      +:+ PyStr.take_cp 200 (PyStr.repr s)
  | RecursionError => "maximum recursion depth exceeded"
  end.

(** ** Values read from the TOC *)

(** A YAML scalar of the TOC: a number, or text such as ["front"],
    ["title"] or ["12"]. *)
Inductive scalar : Type :=
| YInt (n : Z)
| YStr (s : string).

(** [str(v)] *)
Definition scalar_str (v : scalar) : string :=
  match v with
  | YInt n => PyStr.of_Z n
  | YStr s => s
  end.

(** [int(v)] *)
Definition scalar_int (v : scalar) : result Z :=
  match v with
  | YInt n => Ok n
  | YStr s =>
      match PyStr.to_Z s with
      | Some n => Ok n
      | None => Raise (ValueError s)
      end
  end.

(** [v == lit] for a string literal [lit]. *)
Definition scalar_is (v : scalar) (lit : string) : bool :=
  match v with
  | YInt _ => false
  | YStr s => String.eqb s lit
  end.

(** [{'chapter': ..., 'chunks': [...]}] *)
Record toc_entry : Type := TocEntry {
  chapter : scalar;
  chunks : list scalar
}.

(** ** Elements and the object store *)

Abbreviation loc := nat (only parsing).

(** An [xml.etree.ElementTree.Element]: children are references. *)
Record Element : Type := mkElement {
  tag : string;
  attrib : list (string * string);
  text : option string;
  tail : option string;
  children : list loc
}.

Abbreviation heap := (list Element) (only parsing).

(** [d.get(key)] on an attribute dictionary. *)
Fixpoint attr_get (key : string) (d : list (string * string)) : option string :=
  match d with
  | [] => None
  | (k, v) :: d' => if String.eqb k key then Some v else attr_get key d'
  end.

(** A reference always points to a live object in Python; a location outside
    the store reads as an element with an empty tag. *)
Definition void_element : Element := mkElement "" [] None None [].

Definition deref (h : heap) (l : loc) : Element :=
  default void_element (h !! l).

Definition get (h : heap) (l : loc) (key : string) : option string :=
  attr_get key (attrib (deref h l)).

Definition with_text (e : Element) (t : option string) : Element :=
  mkElement (tag e) (attrib e) t (tail e) (children e).

Definition with_tail (e : Element) (t : option string) : Element :=
  mkElement (tag e) (attrib e) (text e) t (children e).

Definition with_child (e : Element) (c : loc) : Element :=
  mkElement (tag e) (attrib e) (text e) (tail e) (children e ++ [c]).

(** A document as it is serialised: a tree without sharing. *)
#[local] Unset Elimination Schemes.
Inductive xml : Type :=
| XNode (xtag : string) (xattrib : list (string * string))
        (xtext xtail : option string) (xchildren : list xml).
#[local] Set Elimination Schemes.

Definition xml_tag (x : xml) : string := let 'XNode t _ _ _ _ := x in t.
Definition xml_attrib (x : xml) : list (string * string) :=
  let 'XNode _ a _ _ _ := x in a.
Definition xml_text (x : xml) : option string := let 'XNode _ _ t _ _ := x in t.
Definition xml_tail (x : xml) : option string := let 'XNode _ _ _ t _ := x in t.
Definition xml_children (x : xml) : list xml := let 'XNode _ _ _ _ c := x in c.

(** ** Paths and files *)

(** A [pathlib.Path] on a POSIX system: its parts.  The root of an absolute
    path is a part of its own, ["/"] or ["//"], the first one; the other
    parts hold no slash. *)
Definition path : Type := list string.

(** [p / name], for a name without slash. *)
Definition path_join (p : path) (name : string) : path := p ++ [name].

(** The pieces of a string between its slashes; [cur] is the piece being
    read. *)
Fixpoint pieces (s cur : string) : list string :=
  match s with
  | EmptyString => [cur]
  | String a r =>
      if (PyStr.code a =? 47)%N then cur :: pieces r ""
      else pieces r (cur +:+ String a "")
  end.

Fixpoint leading_slashes (s : string) : nat :=
  match s with
  | String a r => if (PyStr.code a =? 47)%N then S (leading_slashes r) else O
  | EmptyString => O
  end.

(** [Path(s)]: repeated slashes and single dots do not count, two leading
    slashes (and two only) make the root ["//"]. *)
Definition path_of_string (s : string) : path :=
  let root :=
    match leading_slashes s with
    | O => []
    | 2%nat => ["//"]
    | _ => ["/"]
    end in
  root ++ List.filter (fun c => negb (String.eqb c "" || String.eqb c "."))
            (pieces s "").

(** [str(p)] *)
Definition path_str (p : path) : string :=
  match p with
  | [] => "."
  | r :: rest =>
      if String.eqb r "/" || String.eqb r "//" then r +:+ String.concat "/" rest
      else String.concat "/" p
  end.

Record filesys : Type := mkFilesys {
  dirs : list path;
  files : list (path * xml)
}.

Fixpoint file_lookup (p : path) (fl : list (path * xml)) : option xml :=
  match fl with
  | [] => None
  | (q, x) :: fl' => if bool_decide (q = p) then Some x else file_lookup p fl'
  end.

Definition read_file (fs : filesys) (p : path) : option xml :=
  file_lookup p (files fs).

(** ** The world and the monad of commands *)

Record world : Type := mkWorld {
  store : heap;
  disk : filesys;
  stdout : list string
}.

Definition M (A : Type) : Type := world -> result A * world.

Definition ret {A} (a : A) : M A := fun w => (Ok a, w).

Definition bind {A B} (m : M A) (k : A -> M B) : M B :=
  fun w =>
    match m w with
    | (Ok a, w') => k a w'
    | (Raise e, w') => (Raise e, w')
    end.

Definition raise {A} (e : exn) : M A := fun w => (Raise e, w).

Notation "'let*' x ':=' m 'in' k" := (bind m (fun x => k))
  (at level 10, x pattern, m at level 100, k at level 200).
Notation "m ';;' k" := (bind m (fun _ => k))
  (at level 100, k at level 200, right associativity).

Definition lift_result {A} (r : result A) : M A := fun w => (r, w).

Definition get_store : M heap := fun w => (Ok (store w), w).

(** [print(line)] *)
Definition print (line : string) : M unit :=
  fun w => (Ok tt, mkWorld (store w) (disk w) (stdout w ++ [line])).

(** [ET.Element(tag, attrib)]: a new object, with its own attribute
    dictionary, no children, no text and no tail. *)
Definition new_element (t : string) (a : list (string * string)) : M loc :=
  fun w =>
    (Ok (length (store w)),
     mkWorld (store w ++ [mkElement t a None None []]) (disk w) (stdout w)).

Definition update (l : loc) (f : Element -> Element) : M unit :=
  fun w =>
    (Ok tt, mkWorld (<[l := f (deref (store w) l)]> (store w)) (disk w) (stdout w)).

(** [parent.append(child)] *)
Definition append (parent child : loc) : M unit :=
  update parent (fun e => with_child e child).

(** [elem.text = t] and [elem.tail = t] *)
Definition set_text (l : loc) (t : string) : M unit :=
  update l (fun e => with_text e (Some t)).
Definition set_tail (l : loc) (t : string) : M unit :=
  update l (fun e => with_tail e (Some t)).

(** [ET.SubElement(parent, tag, attrib)] *)
Definition sub_element (parent : loc) (t : string) (a : list (string * string))
  : M loc :=
  let* l := new_element t a in
  append parent l ;;
  ret l.

(** [for x in xs: body(x)] *)
Fixpoint for_each {A} (body : A -> M unit) (xs : list A) : M unit :=
  match xs with
  | [] => ret tt
  | x :: xs' => body x ;; for_each body xs'
  end.

(** All prefixes of a path but the empty one, shortest first. *)
Fixpoint ancestors (p : path) : list path :=
  match p with
  | [] => []
  | c :: p' => [c] :: map (cons c) (ancestors p')
  end.

Definition add_dir (ds : list path) (p : path) : list path :=
  if bool_decide (p ∈ ds) then ds else ds ++ [p].

(** [p.mkdir(parents=True, exist_ok=True)] *)
Definition mkdir (p : path) : M unit :=
  fun w =>
    (Ok tt,
     mkWorld (store w)
       (mkFilesys (foldl add_dir (dirs (disk w)) (ancestors p)) (files (disk w)))
       (stdout w)).

(** ** The splitter *)

Definition newline : string := String (ascii_of_nat 10) "".

Definition str_in (x : string) (l : list string) : bool :=
  existsb (String.eqb x) l.

(** [x in l] for an attribute value [x] that may be [None]. *)
Definition opt_in (x : option string) (l : list string) : bool :=
  match x with
  | None => false
  | Some s => str_in s l
  end.

(** [x == s] for an attribute value [x] that may be [None]. *)
Definition opt_is (x : option string) (s : string) : bool :=
  match x with
  | None => false
  | Some t => String.eqb t s
  end.

(** [x is not None] *)
Definition not_None (x : option string) : bool :=
  match x with
  | None => false
  | Some _ => true
  end.

(** Truth value of an attribute value: [None] and the empty string are
    falsy. *)
Definition opt_truthy (x : option string) : bool :=
  match x with
  | None => false
  | Some s => PyStr.truthy s
  end.

(** [self] once the TOC and the document are loaded. *)
Record USXSplitter : Type := mkSplitter {
  output_dir : path;
  toc_data : list toc_entry;
  usx_content : loc
}.

(** The text of the book node ([book_info.text]). *)
Definition book_title : string :=
  "- Biblica® Open Vietnamese Contemporary Bible 2015 (Biblica® Thiên Ban Kinh Thánh Hiện Đại)".

Definition heading_styles : list string := ["s1"; "s2"; "s3"; "mt1"; "mt2"; "mt3"].

Definition front_styles : list string :=
  ["h"; "toc1"; "toc2"; "toc3"; "mt1"; "mt2"; "mt3"].

(** *** [extract_chapter_content] *)

(** The loop of [extract_chapter_content] over the elements still to visit,
    with its three variables; a [break] returns at once. *)
Fixpoint chapter_scan (h : heap) (target : string) (elements : list loc)
    (in_target_chapter found_start : bool) (chapter_content : list loc)
  : list loc * bool :=
  match elements with
  | [] => (chapter_content, found_start)
  | element :: rest =>
      if String.eqb (tag (deref h element)) "chapter" then
        if opt_is (get h element "number") target
           && negb (not_None (get h element "eid"))
        then chapter_scan h target rest true true (chapter_content ++ [element])
        else if negb (opt_is (get h element "number") target) && in_target_chapter
        then (chapter_content, found_start)
        else if not_None (get h element "eid") && in_target_chapter
        then (chapter_content ++ [element], found_start)
        else chapter_scan h target rest in_target_chapter found_start chapter_content
      else if in_target_chapter
      then chapter_scan h target rest in_target_chapter found_start
             (chapter_content ++ [element])
      else chapter_scan h target rest in_target_chapter found_start chapter_content
  end.

Definition extract_chapter_content (self : USXSplitter) (chapter_num : scalar)
  : M (list loc) :=
  let* h := get_store in
  let '(chapter_content, found_start) :=
    chapter_scan h (scalar_str chapter_num)
      (children (deref h (usx_content self))) false false [] in
  (if negb found_start
   then print ("Warning: Chapter " +:+ scalar_str chapter_num
               +:+ " start marker not found")
   else ret tt) ;;
  ret chapter_content.

(** *** [extract_verses_from_para] *)

Definition in_range (start_verse end_verse n : Z) : bool :=
  (start_verse <=? n) && (n <=? end_verse).

(** [int(child.get('number', 0))] *)
Definition verse_num (h : heap) (child : loc) : result Z :=
  match get h child "number" with
  | None => Ok 0
  | Some s =>
      match PyStr.to_Z s with
      | Some n => Ok n
      | None => Raise (ValueError s)
      end
  end.

(** The first loop: is some verse of the paragraph in the range? *)
Fixpoint has_verses_in_range (h : heap) (kids : list loc)
    (start_verse end_verse : Z) : result bool :=
  match kids with
  | [] => Ok false
  | child :: rest =>
      if String.eqb (tag (deref h child)) "verse" then
        match verse_num h child with
        | Raise e => Raise e
        | Ok n =>
            if in_range start_verse end_verse n then Ok true
            else has_verses_in_range h rest start_verse end_verse
        end
      else has_verses_in_range h rest start_verse end_verse
  end.

(** [current_text += child.tail] when the tail is truthy. *)
Definition add_tail (current_text : string) (t : option string) : string :=
  if opt_truthy t then current_text +:+ default "" t else current_text.

(** The second loop: append the kept children to the copy and gather their
    tails. *)
Fixpoint copy_verses (para_copy : loc) (kids : list loc)
    (start_verse end_verse : Z) (current_text : string) : M string :=
  match kids with
  | [] => ret current_text
  | child :: rest =>
      let* h := get_store in
      if String.eqb (tag (deref h child)) "verse" then
        let* n := lift_result (verse_num h child) in
        if in_range start_verse end_verse n then
          append para_copy child ;;
          let* h' := get_store in
          copy_verses para_copy rest start_verse end_verse
            (add_tail current_text (tail (deref h' child)))
        else copy_verses para_copy rest start_verse end_verse current_text
      else
        append para_copy child ;;
        let* h' := get_store in
        copy_verses para_copy rest start_verse end_verse
          (add_tail current_text (tail (deref h' child)))
  end.

Definition extract_verses_from_para (para_element : loc)
    (start_verse end_verse : Z) : M (option loc) :=
  let* h := get_store in
  let para := deref h para_element in
  let* found := lift_result
                  (has_verses_in_range h (children para) start_verse end_verse) in
  if negb found then ret None
  else
    let* para_copy := new_element (tag para) (attrib para) in
    let* gathered := copy_verses para_copy (children para)
                       start_verse end_verse "" in
    let* h1 := get_store in
    let current_text :=
      if opt_truthy (text (deref h1 para_element))
      then default "" (text (deref h1 para_element)) +:+ gathered
      else gathered in
    (if PyStr.strip_truthy current_text
     then set_text para_copy current_text
     else ret tt) ;;
    let* h2 := get_store in
    if (0 <? length (children (deref h2 para_copy)))%nat
       || PyStr.has_content (text (deref h2 para_copy))
    then ret (Some para_copy)
    else ret None.

(** *** [extract_verses_for_chunk] *)

(** Truth value of what [extract_verses_from_para] returns: [None] is falsy,
    and so is an element without children ([Element.__bool__]). *)
Definition element_truthy (h : heap) (r : option loc) : bool :=
  match r with
  | None => false
  | Some l => (0 <? length (children (deref h l)))%nat
  end.

Fixpoint chunk_scan (chapter_content : list loc) (start_verse end_verse : Z)
    (chunk_content : list loc) : M (list loc) :=
  match chapter_content with
  | [] => ret chunk_content
  | element :: rest =>
      let* h := get_store in
      if String.eqb (tag (deref h element)) "para" then
        let* verses_in_para :=
          extract_verses_from_para element start_verse end_verse in
        let* h' := get_store in
        if element_truthy h' verses_in_para
        then chunk_scan rest start_verse end_verse
               (chunk_content ++ option_list verses_in_para)
        else chunk_scan rest start_verse end_verse chunk_content
      else if String.eqb (tag (deref h element)) "chapter"
              && negb (not_None (get h element "eid"))
      then chunk_scan rest start_verse end_verse (chunk_content ++ [element])
      else chunk_scan rest start_verse end_verse chunk_content
  end.

Definition extract_verses_for_chunk (chapter_content : list loc)
    (start_verse : Z) (end_verse : option Z) : M (list loc) :=
  let end_verse := default start_verse end_verse in
  chunk_scan chapter_content start_verse end_verse [].

(** *** [extract_title_content] *)

Fixpoint extract_title_content (h : heap) (chapter_content : list loc)
  : list loc :=
  match chapter_content with
  | [] => []
  | element :: rest =>
      if String.eqb (tag (deref h element)) "para"
         && opt_in (get h element "style") heading_styles
      then element :: extract_title_content h rest
      else if String.eqb (tag (deref h element)) "chapter"
              && negb (not_None (get h element "eid"))
      then element :: extract_title_content h rest
      else extract_title_content h rest
  end.

(** ** Writing documents *)

Section Writer.

(** How many nested calls the interpreter allows ([sys.getrecursionlimit],
    less the frames already in use).  [_indent_xml] and the serialiser
    recurse over the depth of the tree. *)
Variable recursion_limit : nat.

(** [not x or not x.strip()] *)
Definition blank (x : option string) : bool := negb (PyStr.has_content x).

(** [_indent_xml(elem, level)]; [fuel] counts the calls still allowed.
    After the loop, [child] is the last child of [elem]. *)
Fixpoint _indent_xml (fuel : nat) (elem : loc) (level : nat) : M unit :=
  match fuel with
  | O => raise RecursionError
  | S fuel' =>
      let i := newline +:+ PyStr.spaces2 level in
      let* h := get_store in
      let kids := children (deref h elem) in
      if (0 <? length kids)%nat then
        (if blank (text (deref h elem))
         then set_text elem (i +:+ "  ") else ret tt) ;;
        (let* h1 := get_store in
         if blank (tail (deref h1 elem)) then set_tail elem i else ret tt) ;;
        for_each (fun child => _indent_xml fuel' child (S level)) kids ;;
        match last kids with
        | Some child =>
            let* h2 := get_store in
            if blank (tail (deref h2 child)) then set_tail child i else ret tt
        | None => ret tt
        end
      else
        if negb (level =? 0)%nat && blank (tail (deref h elem))
        then set_tail elem i
        else ret tt
  end.

(** The tree below [l], as the serialiser walks it. *)
Fixpoint serialize (fuel : nat) (h : heap) (l : loc) : option xml :=
  match fuel with
  | O => None
  | S fuel' =>
      let e := deref h l in
      match mapM (serialize fuel' h) (children e) with
      | Some kids => Some (XNode (tag e) (attrib e) (text e) (tail e) kids)
      | None => None
      end
  end.

(** [ET.ElementTree(root).write(file_path, ...)]: the file holds the tree
    as it is at this moment. *)
Definition write (root : loc) (file_path : path) : M unit :=
  fun w =>
    match serialize recursion_limit (store w) root with
    | None => (Raise RecursionError, w)
    | Some x =>
        (Ok tt,
         mkWorld (store w)
           (mkFilesys (dirs (disk w)) ((file_path, x) :: files (disk w)))
           (stdout w))
    end.

(** [elem.tag == 'chapter' and elem.get('eid')] *)
Definition is_chapter_end (h : heap) (elem : loc) : bool :=
  String.eqb (tag (deref h elem)) "chapter" && opt_truthy (get h elem "eid").

(** *** [create_chunk_file]

    [content] holds elements only, so the test [element is not None] of the
    source always passes. *)
Definition create_chunk_file (self : USXSplitter) (chapter_num chunk_num : Z)
    (content : list loc) (is_title : bool) : M unit :=
  let chapter_dir := path_join (output_dir self) (PyStr.fmt_02d chapter_num) in
  mkdir chapter_dir ;;
  let filename :=
    if is_title then "title.usx" else PyStr.fmt_02d chunk_num +:+ ".usx" in
  let file_path := path_join chapter_dir filename in
  let* usx_root := new_element "usx" [("version", "3.0")] in
  (if negb is_title then
     let* book_info :=
       sub_element usx_root "book" [("code", "REV"); ("style", "id")] in
     set_text book_info book_title
   else ret tt) ;;
  for_each (fun element => append usx_root element) content ;;
  (if negb is_title then
     let* h := get_store in
     let has_chapter_end := existsb (is_chapter_end h) content in
     if negb has_chapter_end then
       let* chapter_end :=
         sub_element usx_root "chapter"
           [("eid", "REV " +:+ PyStr.of_Z chapter_num)] in
       ret tt
     else ret tt
   else ret tt) ;;
  _indent_xml recursion_limit usx_root 0 ;;
  write usx_root file_path ;;
  print ("Created: " +:+ path_str file_path).

(** *** [process_chapter] *)

(** The body of the loop over the chunks of a chapter. *)
Definition process_chunk (self : USXSplitter) (chapter_num : scalar)
    (chapter_content : list loc) (chunk : scalar) : M unit :=
  if scalar_is chunk "title" then
    let* h := get_store in
    let title_content := extract_title_content h chapter_content in
    let* n := lift_result (scalar_int chapter_num) in
    create_chunk_file self n 0 title_content true
  else
    let* chunk_num := lift_result (scalar_int chunk) in
    let* chunk_content :=
      extract_verses_for_chunk chapter_content chunk_num None in
    let* n := lift_result (scalar_int chapter_num) in
    create_chunk_file self n chunk_num chunk_content false.

Definition process_chapter (self : USXSplitter) (chapter_info : toc_entry)
  : M unit :=
  let chapter_num := chapter chapter_info in
  let chunks := chunks chapter_info in
  print ("Processing chapter " +:+ scalar_str chapter_num +:+ " with "
         +:+ PyStr.of_nat (length chunks) +:+ " chunks") ;;
  let* chapter_content := extract_chapter_content self chapter_num in
  match chapter_content with
  | [] =>
      print ("Warning: No content found for chapter "
             +:+ scalar_str chapter_num)
  | _ :: _ =>
      for_each (process_chunk self chapter_num chapter_content) chunks
  end.

(** *** [process_front_matter] *)

(** The loop collecting the front matter; it stops at the first chapter. *)
Fixpoint front_scan (h : heap) (elements : list loc)
    (front_content : list loc) : list loc :=
  match elements with
  | [] => front_content
  | element :: rest =>
      if str_in (tag (deref h element)) ["book"; "para"]
         && opt_in (get h element "style") front_styles
      then front_scan h rest (front_content ++ [element])
      else if String.eqb (tag (deref h element)) "chapter"
      then front_content
      else front_scan h rest front_content
  end.

Definition process_front_matter (self : USXSplitter) (front_info : toc_entry)
  : M unit :=
  print "Processing front matter..." ;;
  let front_dir := path_join (output_dir self) "front" in
  mkdir front_dir ;;
  let* h := get_store in
  let front_content :=
    front_scan h (children (deref h (usx_content self))) [] in
  match front_content with
  | [] => ret tt
  | _ :: _ =>
      let* usx_root := new_element "usx" [("version", "3.0")] in
      for_each (fun element => append usx_root element) front_content ;;
      _indent_xml recursion_limit usx_root 0 ;;
      write usx_root (path_join front_dir "title.usx") ;;
      print ("Created: " +:+ path_str (path_join front_dir "title.usx"))
  end.

(** *** [run] *)

(** What the two loaders read: the parsed TOC, and the root of the parsed
    document, whose elements are in the store. *)
Record sources : Type := mkSources {
  yaml_doc : list toc_entry;
  usx_doc : loc
}.

Definition load_toc (src : sources) : M (list toc_entry) :=
  print ("Loaded TOC with " +:+ PyStr.of_nat (length (yaml_doc src))
         +:+ " chapters") ;;
  ret (yaml_doc src).

Definition load_usx (src : sources) : M loc :=
  let* h := get_store in
  print ("Loaded USX file: " +:+ tag (deref h (usx_doc src))) ;;
  ret (usx_doc src).

Definition run (out_dir : path) (src : sources) : M unit :=
  print "Starting USX splitting process..." ;;
  let* toc := load_toc src in
  let* root := load_usx src in
  let self := mkSplitter out_dir toc root in
  mkdir out_dir ;;
  for_each
    (fun chapter_info =>
       if scalar_is (chapter chapter_info) "front"
       then process_front_matter self chapter_info
       else process_chapter self chapter_info)
    toc ;;
  print "USX splitting completed!".

(** *** The command line ([cli.py]) *)

Record arguments : Type := mkArguments {
  usx_file : string;
  toc_file : string;
  arg_output_dir : string;
  book_code : string;
  arg_book_title : string;
  verbose : bool
}.

(** [main()] of [cli.py], after [parse_args]; the result is the exit
    status.  [src] is what the input files hold, [None] for a file that
    does not exist. *)
Definition cli_main (args : arguments) (usx : option loc)
    (toc : option (list toc_entry)) : M Z :=
  match usx, toc with
  | None, _ =>
      print ("Error: USX file '" +:+ usx_file args +:+ "' not found") ;;
      ret 1
  | Some _, None =>
      print ("Error: TOC file '" +:+ toc_file args +:+ "' not found") ;;
      ret 1
  | Some root, Some entries =>
      fun w =>
        match run (path_of_string (arg_output_dir args))
                (mkSources entries root) w with
        | (Ok _, w') =>
            (print (newline +:+ "Conversion completed successfully!") ;;
             print ("Output files created in: " +:+ arg_output_dir args) ;;
             ret 0) w'
        | (Raise e, w') =>
            (print ("Error during conversion: " +:+ exn_str e) ;;
             ret 1) w'
        end
  end.

End Writer.

(** ** Vocabulary of the statements *)

(** A chapter-tagged node, a start marker (no end-id), the start marker of
    chapter [target], and an end marker (an end-id, whatever its number). *)
Definition is_chapter (h : heap) (x : loc) : bool :=
  String.eqb (tag (deref h x)) "chapter".

Definition is_start_marker (h : heap) (x : loc) : bool :=
  is_chapter h x && negb (not_None (get h x "eid")).

Definition is_start_of (h : heap) (target : string) (x : loc) : bool :=
  is_chapter h x && opt_is (get h x "number") target
  && negb (not_None (get h x "eid")).

Definition is_end_marker (h : heap) (x : loc) : bool :=
  is_chapter h x && not_None (get h x "eid").

Definition is_para (h : heap) (x : loc) : bool :=
  String.eqb (tag (deref h x)) "para".

Definition is_verse (h : heap) (k : loc) : bool :=
  String.eqb (tag (deref h k)) "verse".

(** A verse marker whose number lies in the range. *)
Definition verse_hit (h : heap) (start_verse end_verse : Z) (k : loc) : bool :=
  is_verse h k
  && match verse_num h k with
     | Ok n => in_range start_verse end_verse n
     | Raise _ => false
     end.

(** The children that the second loop of [extract_verses_from_para] keeps. *)
Definition kept (h : heap) (start_verse end_verse : Z) (k : loc) : bool :=
  negb (is_verse h k) || verse_hit h start_verse end_verse k.

(** Every verse marker of the list has a number that [int] reads (or none). *)
Definition verses_parse (h : heap) (kids : list loc) : Prop :=
  Forall (fun k => is_verse h k = true -> exists n, verse_num h k = Ok n) kids.

(** The paragraph has a verse in the range. *)
Definition para_hit (h : heap) (start_verse end_verse : Z) (p : loc) : bool :=
  existsb (verse_hit h start_verse end_verse) (children (deref h p)).

(** The tails of the listed children, appended to [cur] in order. *)
Definition gather (h : heap) (kids : list loc) (cur : string) : string :=
  fold_left (fun acc k => add_tail acc (tail (deref h k))) kids cur.

Definition add_children (e : Element) (ks : list loc) : Element :=
  mkElement (tag e) (attrib e) (text e) (tail e) (children e ++ ks).

(** Every reference held by the store points into the store. *)
Definition closed (h : heap) : Prop :=
  Forall (fun e => Forall (fun k => (k < length h)%nat) (children e)) h.

Definition live (h : heap) (l : loc) : Prop := (l < length h)%nat.

(** Two stores with the same objects, each with the same tag, attributes and
    children: they differ in [text] and [tail] at most. *)
Definition same_shape (h h' : heap) : Prop :=
  length h' = length h /\
  forall l, tag (deref h' l) = tag (deref h l)
         /\ attrib (deref h' l) = attrib (deref h l)
         /\ children (deref h' l) = children (deref h l).

Definition set_store (w : world) (h : heap) : world :=
  mkWorld h (disk w) (stdout w).

(** Tag and attributes of a node, and of the top-level nodes of a file. *)
Definition shape_of (h : heap) (l : loc) : string * list (string * string) :=
  (tag (deref h l), attrib (deref h l)).

Definition xml_shape (x : xml) : string * list (string * string) :=
  (xml_tag x, xml_attrib x).

Definition top_nodes (x : xml) : list (string * list (string * string)) :=
  map xml_shape (xml_children x).

(** A top-level node that is a chapter end marker. *)
Definition shape_is_end (s : string * list (string * string)) : bool :=
  String.eqb (fst s) "chapter" && not_None (attr_get "eid" (snd s)).

(** A node that is chapter-tagged and carries an end-id: its [eid]
    attribute is there and is not empty.  [count_ends] counts such nodes. *)
Definition shape_ends (s : string * list (string * string)) : bool :=
  String.eqb (fst s) "chapter"
  && match attr_get "eid" (snd s) with
     | Some (String _ _) => true
     | Some EmptyString | None => false
     end.

Definition count_ends (l : list (string * list (string * string))) : nat :=
  length (List.filter shape_ends l).

(** The text given to the copy: the paragraph's own text, then the tails of
    the kept children. *)
Definition copied_text (h : heap) (s e : Z) (para : loc) : string :=
  let p := deref h para in
  let gathered := gather h (List.filter (kept h s e) (children p)) "" in
  if opt_truthy (text p) then default "" (text p) +:+ gathered else gathered.

(** The copy that [extract_verses_from_para] builds. *)
Definition para_copy_of (h : heap) (s e : Z) (para : loc) : Element :=
  let p := deref h para in
  mkElement (tag p) (attrib p)
    (if PyStr.strip_truthy (copied_text h s e para)
     then Some (copied_text h s e para) else None)
    None
    (List.filter (kept h s e) (children p)).

(** An element of the store whose children are in the store too. *)
Definition deep_live (h : heap) (x : loc) : Prop :=
  live h x /\ Forall (live h) (children (deref h x)).

(** The verse numbers of every paragraph of the list are numbers. *)
Definition all_parse (h : heap) (content : list loc) : Prop :=
  Forall (fun x => is_para h x = true ->
                   verses_parse h (children (deref h x))) content.

(** The chunk as a function of the chapter: the entries of the chunk and the
    copies added to the store, the first copy at location [next]. *)
Fixpoint chunk_model (h : heap) (s e : Z) (content : list loc) (next : loc)
  : list loc * list Element :=
  match content with
  | [] => ([], [])
  | x :: rest =>
      if is_para h x then
        if para_hit h s e x then
          let '(c, new) := chunk_model h s e rest (S next) in
          (next :: c, para_copy_of h s e x :: new)
        else chunk_model h s e rest next
      else if is_start_marker h x then
        let '(c, new) := chunk_model h s e rest next in (x :: c, new)
      else chunk_model h s e rest next
  end.

(** The objects that [create_chunk_file] adds to a store [h] before it
    indents: the root (at location [length h]), the book node and, when the
    content has no end marker, the end marker. *)
Definition usx_node (kids : list loc) : Element :=
  mkElement "usx" [("version", "3.0")] None None kids.

Definition book_node : Element :=
  mkElement "book" [("code", "REV"); ("style", "id")] (Some book_title) None [].

Definition end_node (chapter_num : Z) : Element :=
  mkElement "chapter" [("eid", "REV " +:+ PyStr.of_Z chapter_num)] None None [].

Definition chunk_objects (h : heap) (chapter_num : Z) (content : list loc)
    (is_title : bool) : list Element :=
  let r := length h in
  if is_title then [usx_node content]
  else if existsb (is_chapter_end h) content
       then [usx_node (S r :: content); book_node]
       else [usx_node (S r :: content ++ [S (S r)]); book_node;
             end_node chapter_num].

(** The world after [p.mkdir(parents=True, exist_ok=True)]. *)
Definition with_dirs (w : world) (p : path) : world :=
  mkWorld (store w)
    (mkFilesys (foldl add_dir (dirs (disk w)) (ancestors p)) (files (disk w)))
    (stdout w).

(** [w'] comes from [w] by rewriting [text] and [tail] fields only. *)
Definition text_only (w w' : world) : Prop :=
  same_shape (store w) (store w') /\ disk w' = disk w /\ stdout w' = stdout w.

(** Every run of the command [m] relates the world before to the world
    after by [R], whether it ends normally or not. *)
Definition preserves {A} (R : world -> world -> Prop) (m : M A) : Prop :=
  forall (w w' : world) (r : result A), m w = (r, w') -> R w w'.

(** The top-level nodes of the document that [create_chunk_file] writes. *)
Definition book_shape : string * list (string * string) :=
  ("book", [("code", "REV"); ("style", "id")]).

Definition end_shape (chapter_num : Z) : string * list (string * string) :=
  ("chapter", [("eid", "REV " +:+ PyStr.of_Z chapter_num)]).

Definition doc_nodes (h : heap) (chapter_num : Z) (content : list loc)
    (is_title : bool) : list (string * list (string * string)) :=
  if is_title then map (shape_of h) content
  else book_shape :: map (shape_of h) content
       ++ (if existsb (is_chapter_end h) content then []
           else [end_shape chapter_num]).

(** An element that contributes an entry to a chunk: a paragraph with a
    verse in range, or a chapter start marker. *)
Definition contributes (h : heap) (s e : Z) (x : loc) : bool :=
  if is_para h x then para_hit h s e x else is_start_marker h x.


(** Where [create_chunk_file] writes. *)
Definition chunk_dir (self : USXSplitter) (chapter_num : Z) : path :=
  path_join (output_dir self) (PyStr.fmt_02d chapter_num).

Definition chunk_path (self : USXSplitter) (chapter_num chunk_num : Z)
    (is_title : bool) : path :=
  path_join (chunk_dir self chapter_num)
    (if is_title then "title.usx" else PyStr.fmt_02d chunk_num +:+ ".usx").


(** A later world keeps the objects of an earlier one, each with its tag, its
    attributes and its children. *)
Definition shape_kept (w w' : world) : Prop :=
  (length (store w) <= length (store w'))%nat /\
  forall l, live (store w) l ->
    tag (deref (store w') l) = tag (deref (store w) l)
    /\ attrib (deref (store w') l) = attrib (deref (store w) l)
    /\ children (deref (store w') l) = children (deref (store w) l).

(** A later world keeps the objects of an earlier one untouched and adds
    objects at the end; files and output are the same. *)
Definition extends (w w' : world) : Prop :=
  (exists ext, store w' = store w ++ ext)
  /\ disk w' = disk w /\ stdout w' = stdout w.

(** A later world differs from the earlier one at object [c] at most. *)
Definition only_at (c : loc) (w w' : world) : Prop :=
  length (store w') = length (store w)
  /\ (forall l, l <> c -> deref (store w') l = deref (store w) l)
  /\ disk w' = disk w /\ stdout w' = stdout w.

(** ** A sample document

    [<usx>] with a book node, two heading paragraphs, chapter 1 (a section
    heading, a paragraph with leading text and verses 1 to 5, an explicit end
    marker) and the start of chapter 2. *)
Module Sample.

Definition doc : heap :=
  [ mkElement "usx" [("version", "3.0")] None None [1; 2; 3; 4; 5; 6; 7; 8; 9]%nat;
    mkElement "book" [("code", "REV"); ("style", "id")] (Some "Revelation") None [];
    mkElement "para" [("style", "h")] (Some "Revelation") None [];
    mkElement "para" [("style", "mt1")] (Some "The Revelation") None [];
    mkElement "chapter" [("number", "1"); ("style", "c"); ("sid", "REV 1")]
      None None [];
    mkElement "para" [("style", "s1")] (Some "Prologue") None [];
    mkElement "para" [("style", "p")] (Some "Lead ") None [10; 11; 12; 13; 14]%nat;
    mkElement "chapter" [("eid", "REV 1")] None None [];
    mkElement "chapter" [("number", "2"); ("style", "c"); ("sid", "REV 2")]
      None None [];
    mkElement "para" [("style", "p")] None None [15]%nat;
    mkElement "verse" [("number", "1"); ("style", "v")] None (Some "one ") [];
    mkElement "verse" [("number", "2"); ("style", "v")] None (Some "two ") [];
    mkElement "verse" [("number", "3"); ("style", "v")] None (Some "three ") [];
    mkElement "verse" [("number", "4"); ("style", "v")] None (Some "four ") [];
    mkElement "verse" [("number", "5"); ("style", "v")] None (Some "five ") [];
    mkElement "verse" [("style", "v")] None (Some "unnumbered") [] ].

Definition world0 : world := mkWorld doc (mkFilesys [] []) [].

Definition splitter : USXSplitter := mkSplitter ["out"] [] 0%nat.

Definition toc : list toc_entry :=
  [TocEntry (YStr "front") []; TocEntry (YInt 1) [YStr "title"; YInt 1; YInt 9]].

Definition args : arguments :=
  mkArguments "REV.usx" "toc.yml" "out" "GEN" "Genesis" false.

(** The stack depth used in the examples. *)
Definition limit : nat := 50.

End Sample.

(** A chapter whose paragraph has a footnote between verse 1 and verse 2,
    with no text between the footnote and the marker of verse 2:
    [<para style="p"><verse number="1"/>one <note caller="+" style="f">A
    note.</note><verse number="2"/>two </para>]. *)
Definition note_doc : heap :=
  [ mkElement "usx" [("version", "3.0")] None None [1; 2; 3]%nat;
    mkElement "chapter" [("number", "1"); ("style", "c"); ("sid", "REV 1")]
      None None [];
    mkElement "para" [("style", "p")] None None [4; 5; 6]%nat;
    mkElement "chapter" [("eid", "REV 1")] None None [];
    mkElement "verse" [("number", "1"); ("style", "v")] None (Some "one ") [];
    mkElement "note" [("caller", "+"); ("style", "f")] (Some "A note.") None [];
    mkElement "verse" [("number", "2"); ("style", "v")] None (Some "two ") [] ].

(** The texts of the top-level nodes of a file. *)
Definition top_texts (x : xml) : list (option string) :=
  map xml_text (xml_children x).

(** The world after a run on that document, for a TOC with chapter 1 and
    the given chunks. *)
Definition note_run (chunks : list scalar) : world :=
  snd (run Sample.limit ["out"] (mkSources [TocEntry (YInt 1) chunks] 0%nat)
         (mkWorld note_doc (mkFilesys [] []) [])).

(** A verse marker with the given number. *)
Definition verse_numbered (h : heap) (v : loc) (n : Z) : Prop :=
  is_verse h v = true /\ verse_num h v = Ok n.

(** The text that a copy gets: [lead] followed by [trail], unless that is
    blank. *)
Definition joined_text (lead trail : option string) : option string :=
  let t := default "" lead +:+ default "" trail in
  if PyStr.strip_truthy t then Some t else None.

(** The stores of the two worlds have the same shape. *)
Definition shape_only (w w' : world) : Prop :=
  same_shape (store w) (store w').

(** Every file of the earlier world is still there in the later one. *)
Definition files_kept (w w' : world) : Prop :=
  forall p, is_Some (read_file (disk w) p) -> is_Some (read_file (disk w') p).

(** The tree below [l] has at most [n] levels. *)
Fixpoint depth_le (h : heap) (n : nat) (l : loc) : Prop :=
  match n with
  | O => False
  | S m => Forall (depth_le h m) (children (deref h l))
  end.

(** ** Vocabulary of the further properties *)

(** [main()] of [usx_splitter.py], after [parse_args]: no test of the input
    files and no handler, an exception leaves the program. *)
Definition splitter_main (limit : nat) (args : arguments) (root : loc)
    (entries : list toc_entry) : M unit :=
  run limit (path_of_string (arg_output_dir args)) (mkSources entries root).

(** Inside the target chapter the scan goes over the nodes that are not
    chapter-tagged and over further start markers of the chapter. *)
Definition passes (h : heap) (target : string) (y : loc) : bool :=
  negb (is_chapter h y) || is_start_of h target y.

(** How the scan inside the target chapter ends, [body] being what it
    collects after the start marker and [post] what it leaves.  [body] is a
    run of nodes that the scan goes over, and then: the document ends, or
    [post] begins with a chapter-tagged node that has another number or
    none, or [body] ends with one more node, an end marker that carries the
    target's number. *)
Definition scan_end (h : heap) (target : string) (body post : list loc)
  : Prop :=
  exists inner,
    Forall (fun y => passes h target y = true) inner
    /\ ((body = inner /\ post = [])
        \/ (body = inner
            /\ exists y post', post = y :: post' /\ is_chapter h y = true
                               /\ opt_is (get h y "number") target = false)
        \/ (exists y, body = inner ++ [y] /\ is_end_marker h y = true
                      /\ opt_is (get h y "number") target = true)).

(** A node that the front-matter loop collects. *)
Definition front_node (h : heap) (x : loc) : bool :=
  str_in (tag (deref h x)) ["book"; "para"]
  && opt_in (get h x "style") front_styles.

(** The top-level nodes in front of the first chapter-tagged node. *)
Fixpoint until_chapter (h : heap) (elements : list loc) : list loc :=
  match elements with
  | [] => []
  | x :: rest => if is_chapter h x then [] else x :: until_chapter h rest
  end.

(** A node that the title extractor keeps. *)
Definition title_node (h : heap) (x : loc) : bool :=
  (is_para h x && opt_in (get h x "style") heading_styles)
  || is_start_marker h x.

(** The number attribute of the first verse marker of the list that [int]
    does not read. *)
Fixpoint first_bad (h : heap) (kids : list loc) : option string :=
  match kids with
  | [] => None
  | k :: rest =>
      if is_verse h k then
        match verse_num h k with
        | Raise (ValueError s) => Some s
        | _ => first_bad h rest
        end
      else first_bad h rest
  end.

(** From [w] to [w'], the objects of [w] are still there, and a text or a
    tail of theirs that changes was blank and is blank. *)
Definition blank_kept (w w' : world) : Prop :=
  (length (store w) <= length (store w'))%nat
  /\ forall l, live (store w) l ->
       (text (deref (store w') l) = text (deref (store w) l)
        \/ (blank (text (deref (store w) l)) = true
            /\ blank (text (deref (store w') l)) = true))
       /\ (tail (deref (store w') l) = tail (deref (store w) l)
           \/ (blank (tail (deref (store w) l)) = true
               /\ blank (tail (deref (store w') l)) = true)).

(** The number attribute at which the chunk extractor gives up: the first
    unreadable verse number of the first paragraph that has one. *)
Fixpoint first_unreadable (h : heap) (content : list loc) : option string :=
  match content with
  | [] => None
  | x :: rest =>
      if is_para h x then
        match first_bad h (children (deref h x)) with
        | Some s => Some s
        | None => first_unreadable h rest
        end
      else first_unreadable h rest
  end.

(** A chapter whose second paragraph has a verse bridge, [2-3]. *)
Definition bridge_doc : heap :=
  [ mkElement "usx" [("version", "3.0")] None None [1; 2; 3]%nat;
    mkElement "chapter" [("number", "1"); ("sid", "REV 1")] None None [];
    mkElement "para" [("style", "p")] None None [4]%nat;
    mkElement "para" [("style", "p")] None None [5; 6]%nat;
    mkElement "verse" [("number", "1")] None (Some "one ") [];
    mkElement "verse" [("number", "2-3")] None (Some "two and three ") [];
    mkElement "verse" [("number", "4b")] None (Some "four ") [] ].


(** The file [f] is the one written for the chunk [chunk] of chapter [n]:
    [title.usx] for the title, otherwise the chunk's own number on two
    digits; it holds a [usx] document. *)
Definition written_for (self : USXSplitter) (n : Z) (chunk : scalar)
    (f : path * xml) : Prop :=
  xml_tag (snd f) = "usx"
  /\ if scalar_is chunk "title"
     then fst f = chunk_path self n 0 true
     else exists cn, scalar_int chunk = Ok cn
                     /\ fst f = chunk_path self n cn false.

(** [int] reads the scalar. *)
Definition readable (v : scalar) : bool :=
  match scalar_int v with
  | Ok _ => true
  | Raise _ => false
  end.

(** A TOC entry that the splitter can follow: the front matter, or a chapter
    whose number is a number and whose chunks are the title or numbers. *)
Definition entry_readable (e : toc_entry) : bool :=
  scalar_is (chapter e) "front"
  || (readable (chapter e)
      && forallb (fun c => scalar_is c "title" || readable c) (chunks e)).


(** From [w] to [w'] the directories are the same, and the files added, if
    any, are files written at [p]. *)
Definition written_at (p : path) (w w' : world) : Prop :=
  dirs (disk w') = dirs (disk w)
  /\ exists new, files (disk w') = new ++ files (disk w)
                 /\ Forall (fun f => fst f = p) new.

(** From [w] to [w'] directories and files are only added, and every file
    added lies in a directory that exists, right below the directory
    [out]. *)
Definition disk_grows (out : path) (w w' : world) : Prop :=
  (forall d, d ∈ dirs (disk w) -> d ∈ dirs (disk w'))
  /\ exists new,
       files (disk w') = new ++ files (disk w)
       /\ Forall (fun f => exists d name,
                      fst f = path_join (path_join out d) name
                      /\ path_join out d ∈ dirs (disk w')) new.


(** * Supporting lemmas *)

(** ** Numbers and their text *)

Lemma int_digits_uint (d : Decimal.uint) :
  forall p : positive,
    PyStr.int_digits (Z.pos p) (NilEmpty.string_of_uint d)
    = (Z.pos (Pos.of_uint_acc d p), "").
Proof.
  induction d as [|d IH|d IH|d IH|d IH|d IH|d IH|d IH|d IH|d IH|d IH];
    intros p; [reflexivity|..];
    cbn [NilEmpty.string_of_uint PyStr.int_digits Pos.of_uint_acc];
    match goal with
    | |- context [PyStr.digit_val ?c] =>
        let v := eval vm_compute in (PyStr.digit_val c) in
        change (PyStr.digit_val c) with v
    end; cbv iota; rewrite <- IH; f_equal; lia.
Qed.

Lemma int_digits_uint0 (d : Decimal.uint) :
  PyStr.int_digits 0 (NilEmpty.string_of_uint d)
  = (Z.of_N (Pos.of_uint d), "").
Proof.
  induction d as [|d IH|d IH|d IH|d IH|d IH|d IH|d IH|d IH|d IH|d IH];
    [reflexivity|..];
    cbn [NilEmpty.string_of_uint PyStr.int_digits Pos.of_uint];
    match goal with
    | |- context [PyStr.digit_val ?c] =>
        let v := eval vm_compute in (PyStr.digit_val c) in
        change (PyStr.digit_val c) with v
    end; cbv iota; cbn [Z.mul Z.add]; [exact IH | apply int_digits_uint ..].
Qed.

Lemma int_unsigned_uint (d : Decimal.uint) :
  d <> Decimal.Nil ->
  PyStr.int_unsigned (NilEmpty.string_of_uint d)
  = Some (Z.of_N (Pos.of_uint d)).
Proof.
  intros Hd. destruct d; [contradiction|..];
    cbn [NilEmpty.string_of_uint PyStr.int_unsigned Pos.of_uint];
    match goal with
    | |- context [PyStr.digit_val ?c] =>
        let v := eval vm_compute in (PyStr.digit_val c) in
        change (PyStr.digit_val c) with v
    end; cbv iota;
    rewrite ?int_digits_uint0, ?int_digits_uint; reflexivity.
Qed.

(** What [str] prints for a number is ASCII and starts with a digit or the
    sign: the transformation leaves it as it is, no white space is stripped
    from it, and it is none of the key words of the TOC. *)
Lemma to_ascii_uint (d : Decimal.uint) :
  PyStr.to_ascii (NilEmpty.string_of_uint d)
  = Some (NilEmpty.string_of_uint d).
Proof.
  induction d as [|d IH|d IH|d IH|d IH|d IH|d IH|d IH|d IH|d IH|d IH];
    [reflexivity|..];
    cbn [NilEmpty.string_of_uint PyStr.to_ascii];
    match goal with
    | |- context [(PyStr.code ?c <? 127)%N] =>
        change (PyStr.code c <? 127)%N with true
    end; cbv iota; rewrite IH; reflexivity.
Qed.

Lemma int_lstrip_uint (d : Decimal.uint) :
  PyStr.int_lstrip (NilEmpty.string_of_uint d) = NilEmpty.string_of_uint d.
Proof. destruct d; reflexivity. Qed.

Lemma to_Z_uint (d : Decimal.uint) :
  d <> Decimal.Nil ->
  PyStr.to_Z (NilEmpty.string_of_uint d) = Some (Z.of_N (Pos.of_uint d))
  /\ PyStr.to_Z (String "-" (NilEmpty.string_of_uint d))
     = Some (- Z.of_N (Pos.of_uint d)).
Proof.
  intros Hd. pose proof (int_unsigned_uint d Hd) as Hu.
  pose proof (int_lstrip_uint d) as Hl. unfold PyStr.to_Z. split.
  - rewrite to_ascii_uint, Hl, <- Hu.
    destruct d; [contradiction|..]; reflexivity.
  - cbn [PyStr.to_ascii]. change (PyStr.code "-" <? 127)%N with true.
    cbv iota. rewrite to_ascii_uint. cbn [fmap option_fmap option_map].
    cbn [PyStr.int_lstrip]. change (PyStr.int_space (PyStr.code "-")) with false.
    cbv iota. change (PyStr.code "-" =? 43)%N with false.
    change (PyStr.code "-" =? 45)%N with true. cbv iota. now rewrite Hu.
Qed.

Lemma string_of_uint_nonnil (d : Decimal.uint) :
  d <> Decimal.Nil -> NilZero.string_of_uint d = NilEmpty.string_of_uint d.
Proof. destruct d; [contradiction | reflexivity ..]. Qed.

(** [int(str(n)) == n] *)
Lemma to_Z_of_Z (n : Z) : PyStr.to_Z (PyStr.of_Z n) = Some n.
Proof.
  unfold PyStr.of_Z. destruct n as [|p|p]; [reflexivity|..];
    cbn [Z.to_int NilZero.string_of_int];
    pose proof (DecimalPos.Unsigned.to_uint_nonnil p) as Hd;
    rewrite (string_of_uint_nonnil _ Hd);
    destruct (to_Z_uint _ Hd) as [Hp Hn];
    rewrite DecimalPos.Unsigned.of_to in Hp, Hn; assumption.
Qed.

Lemma of_Z_no_keyword (n : Z) (key : string) :
  key = "title" \/ key = "front" -> String.eqb (PyStr.of_Z n) key = false.
Proof.
  intros Hkey. unfold PyStr.of_Z.
  destruct n as [|p|p]; cbn [Z.to_int NilZero.string_of_int].
  - destruct Hkey as [-> | ->]; reflexivity.
  - pose proof (DecimalPos.Unsigned.to_uint_nonnil p) as Hd.
    destruct (Pos.to_uint p); [contradiction|..];
      destruct Hkey as [-> | ->]; reflexivity.
  - destruct Hkey as [-> | ->]; reflexivity.
Qed.











(** ** The store *)

Lemma deref_live (h : heap) (l : loc) (e : Element) :
  h !! l = Some e -> deref h l = e.
Proof. unfold deref. intros ->. reflexivity. Qed.

Lemma deref_app_l (h ext : heap) (l : loc) :
  live h l -> deref (h ++ ext) l = deref h l.
Proof. unfold deref, live. intros Hl. now rewrite lookup_app_l. Qed.

Lemma deref_app_new (h : heap) (e : Element) :
  deref (h ++ [e]) (length h) = e.
Proof. unfold deref. now rewrite list_lookup_middle. Qed.

Lemma deref_insert_ne (h : heap) (l l' : loc) (e : Element) :
  l <> l' -> deref (<[l := e]> h) l' = deref h l'.
Proof. unfold deref. intros Hne. now rewrite list_lookup_insert_ne. Qed.

Lemma deref_insert_eq (h : heap) (l : loc) (e : Element) :
  live h l -> deref (<[l := e]> h) l = e.
Proof. unfold deref, live. intros Hl. now rewrite list_lookup_insert_eq. Qed.

Lemma deref_void (h : heap) (l : loc) :
  ~ live h l -> deref h l = void_element.
Proof.
  unfold deref, live. intros Hl.
  rewrite lookup_ge_None_2; [reflexivity | lia].
Qed.

Lemma tagged_live (h : heap) (l : loc) :
  tag (deref h l) <> "" -> live h l.
Proof.
  intros Ht. destruct (decide (l < length h)%nat) as [|Hn]; [assumption|].
  rewrite (deref_void _ _ Hn) in Ht. now contradiction Ht.
Qed.

Lemma insert_deref_id (h : heap) (l : loc) :
  <[l := deref h l]> h = h.
Proof.
  unfold deref. destruct (h !! l) as [e|] eqn:E; simpl.
  - now apply list_insert_id.
  - apply list_insert_ge. now apply lookup_ge_None_1.
Qed.

Lemma add_children_nil (e : Element) : add_children e [] = e.
Proof. destruct e. unfold add_children. simpl. now rewrite app_nil_r. Qed.

Lemma add_children_cons (e : Element) (k : loc) (ks : list loc) :
  add_children (with_child e k) ks = add_children e (k :: ks).
Proof. unfold add_children, with_child. simpl. now rewrite <- app_assoc. Qed.

(** ** Commands *)

Lemma bind_ok {A B} (m : M A) (k : A -> M B) (w w' : world) (a : A) :
  m w = (Ok a, w') -> bind m k w = k a w'.
Proof. unfold bind. intros ->. reflexivity. Qed.

Lemma bind_inv_ok {A B} (m : M A) (k : A -> M B) (w w' : world) (b : B) :
  bind m k w = (Ok b, w') ->
  exists a w1, m w = (Ok a, w1) /\ k a w1 = (Ok b, w').
Proof.
  unfold bind. destruct (m w) as [[a|e] w1]; intros H.
  - now exists a, w1.
  - discriminate.
Qed.

Lemma bind_ret {A B} (a : A) (k : A -> M B) (w : world) :
  bind (ret a) k w = k a w.
Proof. reflexivity. Qed.

Lemma bind_assoc {A B C} (m : M A) (f : A -> M B) (g : B -> M C) (w : world) :
  bind (bind m f) g w = bind m (fun x => bind (f x) g) w.
Proof. unfold bind. now destruct (m w) as [[a|x] w1]. Qed.

Lemma bind_get_store {B} (k : list Element -> M B) (w : world) :
  bind get_store k w = k (store w) w.
Proof. reflexivity. Qed.

Lemma bind_lift_ok {A B} (a : A) (k : A -> M B) (w : world) :
  bind (lift_result (Ok a)) k w = k a w.
Proof. reflexivity. Qed.

Lemma bind_lift_raise {A B} (x : exn) (k : A -> M B) (w : world) :
  bind (lift_result (Raise x)) k w = (Raise x, w).
Proof. reflexivity. Qed.

Lemma bind_new_element {B} (t : string) (a : list (string * string))
    (k : nat -> M B) (w : world) :
  bind (new_element t a) k w
  = k (length (store w))
      (set_store w (store w ++ [mkElement t a None None []])).
Proof. reflexivity. Qed.

Lemma bind_update {B} (l : loc) (f : Element -> Element) (k : unit -> M B)
    (w : world) :
  bind (update l f) k w
  = k tt (set_store w (<[l := f (deref (store w) l)]> (store w))).
Proof. reflexivity. Qed.

Lemma bind_print {B} (line : string) (k : unit -> M B) (w : world) :
  bind (print line) k w
  = k tt (mkWorld (store w) (disk w) (stdout w ++ [line])).
Proof. reflexivity. Qed.

Lemma store_set_store (w : world) (h : list Element) :
  store (set_store w h) = h.
Proof. reflexivity. Qed.

Lemma set_store_twice (w : world) (h h' : list Element) :
  set_store (set_store w h) h' = set_store w h'.
Proof. reflexivity. Qed.

Lemma set_store_id (w : world) : set_store w (store w) = w.
Proof. now destruct w. Qed.

Lemma Forall_bfilter {A} (P : A -> Prop) (f : A -> bool) (l : list A) :
  Forall P l -> Forall P (List.filter f l).
Proof.
  induction 1 as [|x l Px _ IH]; simpl; [constructor|].
  destruct (f x); [now constructor | exact IH].
Qed.

(** ** The two loops over the children of a paragraph *)

Lemma verse_hit_ext (h h' : heap) (s e : Z) (k : loc) :
  deref h' k = deref h k -> verse_hit h' s e k = verse_hit h s e k.
Proof.
  intros E. unfold verse_hit, is_verse, verse_num, get. now rewrite E.
Qed.

Lemma kept_ext (h h' : heap) (s e : Z) (k : loc) :
  deref h' k = deref h k -> kept h' s e k = kept h s e k.
Proof.
  intros E. unfold kept. rewrite (verse_hit_ext _ _ _ _ _ E).
  unfold is_verse. now rewrite E.
Qed.

Lemma filter_kept_ext (h h' : heap) (s e : Z) (kids : list loc) :
  Forall (fun k => deref h' k = deref h k) kids ->
  List.filter (kept h' s e) kids = List.filter (kept h s e) kids.
Proof.
  induction 1 as [|k kids E _ IH]; simpl; [reflexivity|].
  now rewrite (kept_ext _ _ _ _ _ E), IH.
Qed.

Lemma gather_ext (h h' : heap) (kids : list loc) (cur : string) :
  Forall (fun k => deref h' k = deref h k) kids ->
  gather h' kids cur = gather h kids cur.
Proof.
  intros F. revert cur. unfold gather.
  induction F as [|k kids E _ IH]; intros cur; simpl; [reflexivity|].
  now rewrite E, IH.
Qed.

Lemma verses_parse_ext (h h' : heap) (kids : list loc) :
  Forall (fun k => deref h' k = deref h k) kids ->
  verses_parse h kids -> verses_parse h' kids.
Proof.
  unfold verses_parse. intros F P.
  induction F as [|k kids E _ IH]; [constructor|].
  inversion P as [|? ? Pk Pr]; subst. constructor.
  - unfold is_verse, verse_num, get in *. now rewrite E.
  - now apply IH.
Qed.

(** The first loop answers whether some verse is in range, provided the
    numbers it meets are numbers. *)
Lemma has_verses_in_range_parse (h : heap) (kids : list loc) (s e : Z) :
  verses_parse h kids ->
  has_verses_in_range h kids s e = Ok (existsb (verse_hit h s e) kids).
Proof.
  unfold verses_parse. induction 1 as [|k kids Pk _ IH]; simpl; [reflexivity|].
  unfold verse_hit at 1. unfold is_verse in *.
  destruct (String.eqb (tag (deref h k)) "verse") eqn:T; simpl.
  - destruct (Pk eq_refl) as [n ->].
    destruct (in_range s e n); simpl; [reflexivity | exact IH].
  - exact IH.
Qed.

(** Without that proviso, an answer of the loop is still the right one. *)
Lemma has_verses_in_range_sound (h : heap) (kids : list loc) (s e : Z) (b : bool) :
  has_verses_in_range h kids s e = Ok b ->
  b = existsb (verse_hit h s e) kids.
Proof.
  induction kids as [|k kids IH]; simpl; [congruence|].
  unfold verse_hit at 1. unfold is_verse.
  destruct (String.eqb (tag (deref h k)) "verse") eqn:T; simpl.
  - destruct (verse_num h k) as [n|x]; [|discriminate].
    destruct (in_range s e n); simpl; [congruence | exact IH].
  - exact IH.
Qed.

(** A negative answer of the first loop means that every number was read. *)
Lemma has_verses_in_range_false (h : heap) (kids : list loc) (s e : Z) :
  has_verses_in_range h kids s e = Ok false -> verses_parse h kids.
Proof.
  unfold verses_parse. induction kids as [|k kids IH]; simpl; [constructor|].
  unfold is_verse.
  destruct (String.eqb (tag (deref h k)) "verse") eqn:T; simpl.
  - destruct (verse_num h k) as [n|x] eqn:V; [|discriminate].
    destruct (in_range s e n); [discriminate|].
    intros H. constructor; [eauto | auto].
  - intros H. constructor; [congruence | auto].
Qed.

(** The second loop: it appends the kept children to the copy, touches no
    other object, and returns their tails. *)
Lemma copy_verses_parse (c : loc) (s e : Z) (kids : list loc) :
  forall (w : world) (cur : string),
    live (store w) c ->
    Forall (fun k => k <> c) kids ->
    verses_parse (store w) kids ->
    copy_verses c kids s e cur w
    = (Ok (gather (store w) (List.filter (kept (store w) s e) kids) cur),
       set_store w
         (<[c := add_children (deref (store w) c)
                   (List.filter (kept (store w) s e) kids)]> (store w))).
Proof.
  induction kids as [|k kids IH]; intros w cur Hc Hne Hp.
  - simpl. unfold ret, set_store. rewrite add_children_nil, insert_deref_id.
    now destruct w.
  - inversion Hne as [|? ? Hk Hne']; subst.
    inversion Hp as [|? ? Pk Pr]; subst.
    set (h := store w).
    set (h1 := <[c := with_child (deref h c) k]> h).
    assert (Hsame : Forall (fun x => deref h1 x = deref h x) (k :: kids)).
    { apply Forall_forall. intros x Hx. apply deref_insert_ne.
      rewrite Forall_forall in Hne. intros ->. now apply (Hne _ Hx). }
    assert (Hsame' : Forall (fun x => deref h1 x = deref h x) kids)
      by now inversion Hsame.
    assert (Estep :
      (append c k ;;
       let* h' := get_store in
       copy_verses c kids s e (add_tail cur (tail (deref h' k)))) w
      = (Ok (gather h (List.filter (kept h s e) kids)
               (add_tail cur (tail (deref h k)))),
         set_store w
           (<[c := add_children (deref h c)
                     (k :: List.filter (kept h s e) kids)]> h))).
    { unfold bind, append, update, get_store. cbn [store disk stdout].
      fold h. fold h1.
      rewrite (IH (mkWorld h1 (disk w) (stdout w))); cbn [store].
      - rewrite (filter_kept_ext h h1), (gather_ext h h1); auto.
        + assert (Ek : deref h1 k = deref h k) by now inversion Hsame.
          assert (Ec : deref h1 c = with_child (deref h c) k)
            by (unfold h1; now apply deref_insert_eq).
          rewrite Ek, Ec, add_children_cons.
          unfold set_store. cbn [disk stdout]. f_equal. f_equal.
          unfold h1. now rewrite list_insert_insert_eq.
        + now apply Forall_bfilter.
      - unfold h1, live. rewrite length_insert. exact Hc.
      - exact Hne'.
      - now apply (verses_parse_ext h h1). }
    simpl copy_verses. unfold bind at 1. unfold get_store at 1.
    cbn [store]. fold h. simpl List.filter.
    destruct (String.eqb (tag (deref h k)) "verse") eqn:T.
    + destruct (Pk T) as [n Hn]. fold h in Hn. rewrite Hn.
      unfold bind at 1. unfold lift_result.
      assert (Kk : kept h s e k = in_range s e n).
      { unfold kept, verse_hit, is_verse. now rewrite T, Hn. }
      rewrite Kk. destruct (in_range s e n).
      * exact Estep.
      * now apply IH.
    + assert (Kk : kept h s e k = true).
      { unfold kept, is_verse. now rewrite T. }
      rewrite Kk. exact Estep.
Qed.

(** When the second loop ends normally, every verse number was a number. *)
Lemma copy_verses_ok_parse (c : loc) (s e : Z) (kids : list loc) :
  forall (w w' : world) (cur t : string),
    live (store w) c ->
    Forall (fun k => k <> c) kids ->
    copy_verses c kids s e cur w = (Ok t, w') ->
    verses_parse (store w) kids.
Proof.
  unfold verses_parse.
  induction kids as [|k kids IH]; intros w w' cur t Hc Hne Hrun; [constructor|].
  inversion Hne as [|? ? Hk Hne']; subst.
  set (h := store w) in *.
  set (h1 := <[c := with_child (deref h c) k]> h).
  assert (Hsame : Forall (fun x => deref h1 x = deref h x) kids).
  { apply Forall_impl with (P := fun x => x <> c); [exact Hne'|].
    intros x Hx. apply deref_insert_ne. congruence. }
  assert (Hback : Forall (fun x => deref h x = deref h1 x) kids).
  { apply Forall_impl with (2 := fun x Hx => eq_sym Hx). exact Hsame. }
  assert (Estep : forall t0,
    (append c k ;;
     let* h' := get_store in
     copy_verses c kids s e (add_tail cur (tail (deref h' k)))) w = (Ok t0, w') ->
    Forall (fun x => is_verse h x = true -> exists n, verse_num h x = Ok n) kids).
  { intros t0. unfold bind, append, update, get_store. cbn [store disk stdout].
    fold h. fold h1. intros Hrun'.
    apply (verses_parse_ext h1 h); [exact Hback|].
    apply (IH (mkWorld h1 (disk w) (stdout w)) w' _ t0 ltac:(cbn [store];
             unfold h1, live; rewrite length_insert; exact Hc) Hne' Hrun'). }
  simpl copy_verses in Hrun. unfold bind at 1 in Hrun.
  unfold get_store at 1 in Hrun. cbn [store] in Hrun. fold h in Hrun.
  destruct (String.eqb (tag (deref h k)) "verse") eqn:T.
  - unfold bind at 1 in Hrun. unfold lift_result in Hrun.
    destruct (verse_num h k) as [n|x] eqn:V; [|discriminate].
    constructor; [eauto|].
    destruct (in_range s e n).
    + now apply (Estep t).
    + now apply (IH w w' cur t).
  - constructor; [|now apply (Estep t)].
    intros X. unfold is_verse in X. congruence.
Qed.

(** ** [extract_verses_from_para] *)


Lemma hit_is_kept (h : heap) (s e : Z) (kids : list loc) :
  existsb (verse_hit h s e) kids = true ->
  List.filter (kept h s e) kids <> [].
Proof.
  induction kids as [|k kids IH]; simpl; [discriminate|].
  unfold kept at 1. destruct (verse_hit h s e k); simpl.
  - rewrite orb_true_r. discriminate.
  - intros H. rewrite orb_false_r.
    destruct (negb (is_verse h k)); [discriminate | now apply IH].
Qed.

Lemma length_pos_b {A} (l : list A) :
  l <> [] -> (0 <? length l)%nat = true.
Proof. destruct l; [congruence | reflexivity]. Qed.

Lemma children_live_para (h : heap) (para : loc) :
  children (deref h para) <> [] -> live h para.
Proof.
  intros Hc. destruct (decide (para < length h)%nat) as [|Hn]; [assumption|].
  rewrite (deref_void _ _ Hn) in Hc. now contradiction Hc.
Qed.

(** A paragraph without a verse in range: nothing is built, nothing
    changes. *)
Lemma extract_verses_from_para_miss (w : world) (para : loc) (s e : Z) :
  verses_parse (store w) (children (deref (store w) para)) ->
  para_hit (store w) s e para = false ->
  extract_verses_from_para para s e w = (Ok None, w).
Proof.
  intros Hp Hmiss. unfold extract_verses_from_para, bind, get_store, lift_result.
  rewrite (has_verses_in_range_parse _ _ _ _ Hp).
  unfold para_hit in Hmiss. rewrite Hmiss. reflexivity.
Qed.

(** A paragraph with a verse in range: one new object, the copy, is added at
    the end of the store. *)
Lemma extract_verses_from_para_hit (w : world) (para : loc) (s e : Z) :
  Forall (live (store w)) (children (deref (store w) para)) ->
  verses_parse (store w) (children (deref (store w) para)) ->
  para_hit (store w) s e para = true ->
  extract_verses_from_para para s e w
  = (Ok (Some (length (store w))),
     set_store w (store w ++ [para_copy_of (store w) s e para])).
Proof.
  intros Hlive Hp Hhit.
  set (h := store w) in *. set (p := deref h para) in *.
  set (c := length h).
  set (e0 := mkElement (tag p) (attrib p) None None []).
  set (h1 := h ++ [e0]).
  assert (Hsame : Forall (fun k => deref h1 k = deref h k) (children p)).
  { apply Forall_impl with (1 := Hlive). intros k Hk. now apply deref_app_l. }
  assert (Hkids : List.filter (kept h s e) (children p) <> [])
    by now apply hit_is_kept.
  assert (Hpara : deref (<[c := add_children e0
                      (List.filter (kept h s e) (children p))]> h1) para = p).
  { assert (live h para).
    { apply children_live_para. fold p. intros E. rewrite E in Hkids.
      now apply Hkids. }
    rewrite deref_insert_ne by (unfold c, live in *; lia).
    now apply deref_app_l. }
  assert (Hins : forall x y, <[c := x]> (h ++ [y]) = h ++ [x]).
  { intros x y. unfold c. rewrite insert_app_r_alt by lia.
    now rewrite Nat.sub_diag. }
  unfold extract_verses_from_para. rewrite bind_get_store. fold h. fold p.
  rewrite (has_verses_in_range_parse _ _ _ _ Hp).
  unfold para_hit in Hhit. fold p in Hhit. rewrite Hhit.
  rewrite bind_lift_ok. cbn [negb].
  rewrite bind_new_element. fold h. fold c. fold e0. fold h1.
  assert (Hc1 : live (store (set_store w h1)) c).
  { unfold live, h1, c. rewrite store_set_store, length_app. simpl. lia. }
  assert (Hne1 : Forall (fun k => k <> c) (children p)).
  { apply Forall_impl with (1 := Hlive). unfold live, c. intros k Hk. lia. }
  assert (Hp1 : verses_parse (store (set_store w h1)) (children p))
    by now apply (verses_parse_ext h h1).
  rewrite (bind_ok _ _ _ _ _
             (copy_verses_parse c s e (children p) (set_store w h1) ""
                Hc1 Hne1 Hp1)).
  rewrite ?store_set_store.
  - rewrite (filter_kept_ext h h1), (gather_ext h h1);
      [|now apply Forall_bfilter|exact Hsame].
    assert (E0 : deref h1 c = e0) by apply deref_app_new. rewrite E0.
    rewrite set_store_twice, bind_get_store, store_set_store, Hpara.
    change (if opt_truthy (text p)
            then default "" (text p)
                 +:+ gather h (List.filter (kept h s e) (children p)) ""
            else gather h (List.filter (kept h s e) (children p)) "")
      with (copied_text h s e para).
    unfold para_copy_of. fold h. fold p.
    destruct (PyStr.strip_truthy (copied_text h s e para)).
    + unfold set_text. rewrite bind_update, store_set_store, set_store_twice.
      rewrite bind_get_store, store_set_store.
      unfold h1. rewrite !Hins, !deref_app_new. cbn [children with_text add_children e0 app].
      now rewrite (length_pos_b _ Hkids).
    + rewrite bind_ret, bind_get_store, store_set_store.
      unfold h1. rewrite !Hins, !deref_app_new.
      cbn [children add_children e0 app].
      now rewrite (length_pos_b _ Hkids).
Qed.

(** When [extract_verses_from_para] ends normally, the verse numbers of the
    paragraph were numbers. *)
Lemma extract_verses_from_para_ok_parse (w w' : world) (para : loc) (s e : Z)
    (r : option loc) :
  Forall (live (store w)) (children (deref (store w) para)) ->
  extract_verses_from_para para s e w = (Ok r, w') ->
  verses_parse (store w) (children (deref (store w) para)).
Proof.
  intros Hlive Hrun.
  set (h := store w) in *. set (p := deref h para) in *.
  unfold extract_verses_from_para in Hrun. rewrite bind_get_store in Hrun.
  fold h in Hrun. fold p in Hrun.
  destruct (has_verses_in_range h (children p) s e) as [[|]|x] eqn:Hv.
  - rewrite bind_lift_ok in Hrun. cbn [negb] in Hrun.
    rewrite bind_new_element in Hrun. fold h in Hrun.
    apply bind_inv_ok in Hrun. destruct Hrun as (t & w1 & Hcopy & _).
    apply copy_verses_ok_parse in Hcopy.
    + rewrite store_set_store in Hcopy.
      apply (verses_parse_ext (h ++ [mkElement (tag p) (attrib p) None None []]) h);
        [|exact Hcopy].
      apply Forall_impl with (1 := Hlive). intros k Hk.
      symmetry. now apply deref_app_l.
    + unfold live. rewrite store_set_store, length_app. simpl. lia.
    + apply Forall_impl with (1 := Hlive). unfold live. intros k Hk. lia.
  - now apply has_verses_in_range_false with (s := s) (e := e).
  - rewrite bind_lift_raise in Hrun. discriminate.
Qed.

(** What [extract_verses_from_para] does whenever it ends normally. *)
Lemma extract_verses_from_para_ok (w w' : world) (para : loc) (s e : Z)
    (r : option loc) :
  Forall (live (store w)) (children (deref (store w) para)) ->
  extract_verses_from_para para s e w = (Ok r, w') ->
  (para_hit (store w) s e para = false /\ r = None /\ w' = w)
  \/ (para_hit (store w) s e para = true
      /\ r = Some (length (store w))
      /\ w' = set_store w (store w ++ [para_copy_of (store w) s e para])).
Proof.
  intros Hlive Hrun.
  pose proof (extract_verses_from_para_ok_parse _ _ _ _ _ _ Hlive Hrun) as Hp.
  destruct (para_hit (store w) s e para) eqn:Hhit.
  - right. rewrite (extract_verses_from_para_hit _ _ _ _ Hlive Hp Hhit) in Hrun.
    inversion Hrun; subst. auto.
  - left. rewrite (extract_verses_from_para_miss _ _ _ _ Hp Hhit) in Hrun.
    inversion Hrun; subst. auto.
Qed.

(** ** [extract_verses_for_chunk] *)


Lemma closed_deep_live (h : heap) (x : loc) :
  closed h -> live h x -> deep_live h x.
Proof.
  unfold closed, deep_live, live. intros Hc Hx. split; [exact Hx|].
  destruct (lookup_lt_is_Some_2 h x Hx) as [el Hel].
  rewrite (deref_live _ _ _ Hel).
  rewrite Forall_forall in Hc. apply Hc.
  apply list_elem_of_lookup. eauto.
Qed.

Section Extension.

(** The store [h] and a store [h ++ ext] that continues it. *)
Variables (h ext : list Element).

Lemma para_hit_app (s e : Z) (x : loc) :
  deep_live h x -> para_hit (h ++ ext) s e x = para_hit h s e x.
Proof.
  intros [Hx Hk]. unfold para_hit. rewrite (deref_app_l _ _ _ Hx).
  induction Hk as [|k ks Hl _ IH]; simpl; [reflexivity|].
  rewrite IH. f_equal. apply verse_hit_ext. now apply deref_app_l.
Qed.

Lemma children_agree_app (x : loc) :
  deep_live h x ->
  Forall (fun k => deref (h ++ ext) k = deref h k) (children (deref h x)).
Proof.
  intros [_ Hk]. apply Forall_impl with (1 := Hk).
  intros k Hl. now apply deref_app_l.
Qed.

Lemma para_copy_of_app (s e : Z) (x : loc) :
  deep_live h x -> para_copy_of (h ++ ext) s e x = para_copy_of h s e x.
Proof.
  intros Hx. pose proof (children_agree_app x Hx) as Hag.
  destruct Hx as [Hx Hk].
  unfold para_copy_of, copied_text. rewrite (deref_app_l _ _ _ Hx).
  rewrite (filter_kept_ext h (h ++ ext)) by exact Hag.
  rewrite (gather_ext h (h ++ ext)) by now apply Forall_bfilter.
  reflexivity.
Qed.

Lemma is_para_app (x : loc) :
  live h x -> is_para (h ++ ext) x = is_para h x.
Proof. intros Hx. unfold is_para. now rewrite deref_app_l. Qed.

Lemma is_start_marker_app (x : loc) :
  live h x -> is_start_marker (h ++ ext) x = is_start_marker h x.
Proof.
  intros Hx. unfold is_start_marker, is_chapter, get. now rewrite deref_app_l.
Qed.

Lemma chunk_model_app (s e : Z) (content : list loc) :
  Forall (deep_live h) content ->
  forall next, chunk_model (h ++ ext) s e content next
               = chunk_model h s e content next.
Proof.
  induction 1 as [|x rest Hx _ IH]; intros next; simpl; [reflexivity|].
  rewrite (is_para_app x (proj1 Hx)), (is_start_marker_app x (proj1 Hx)).
  rewrite (para_hit_app s e x Hx), (para_copy_of_app s e x Hx).
  now rewrite !IH.
Qed.

Lemma deep_live_app (x : loc) : deep_live h x -> deep_live (h ++ ext) x.
Proof.
  intros [Hx Hk]. unfold deep_live, live in *.
  rewrite deref_app_l by exact Hx. rewrite length_app. split; [lia|].
  apply Forall_impl with (1 := Hk). intros k Hl. unfold live in *. lia.
Qed.

Lemma all_parse_app (content : list loc) :
  Forall (deep_live h) content ->
  all_parse h content <-> all_parse (h ++ ext) content.
Proof.
  unfold all_parse. induction 1 as [|x rest Hx _ IH]; [split; constructor|].
  pose proof (children_agree_app x Hx) as Hag.
  assert (Hback : Forall (fun k => deref h k = deref (h ++ ext) k)
                    (children (deref h x))).
  { apply Forall_impl with (1 := Hag). intros k Hk. now symmetry. }
  split; intros P; inversion P as [|? ? Px Pr]; subst; constructor.
  - rewrite (is_para_app x (proj1 Hx)), (deref_app_l _ _ _ (proj1 Hx)).
    intros T. apply (verses_parse_ext h (h ++ ext)); auto.
  - now apply IH.
  - rewrite (is_para_app x (proj1 Hx)), (deref_app_l _ _ _ (proj1 Hx)) in Px.
    intros T. apply (verses_parse_ext (h ++ ext) h); auto.
  - now apply IH.
Qed.

End Extension.

Lemma para_copy_children (h : list Element) (s e : Z) (x : loc) :
  para_hit h s e x = true ->
  (0 <? length (children (para_copy_of h s e x)))%nat = true.
Proof.
  intros Hhit. apply length_pos_b. unfold para_copy_of. simpl.
  now apply hit_is_kept.
Qed.

(** The loop of [extract_verses_for_chunk] computes [chunk_model]: it adds the
    copies at the end of the store and changes nothing else. *)
Lemma chunk_scan_parse (s e : Z) (content : list loc) :
  forall (w : world) (acc : list loc),
    Forall (deep_live (store w)) content ->
    all_parse (store w) content ->
    chunk_scan content s e acc w
    = (Ok (acc ++ fst (chunk_model (store w) s e content (length (store w)))),
       set_store w
         (store w ++ snd (chunk_model (store w) s e content (length (store w))))).
Proof.
  induction content as [|x rest IH]; intros w acc Hlive Hparse.
  - simpl. unfold ret. now rewrite !app_nil_r, set_store_id.
  - inversion Hlive as [|? ? Hx Hrest]; subst.
    inversion Hparse as [|? ? Px Pr]; subst.
    set (h := store w) in *.
    cbn [chunk_scan]. rewrite bind_get_store. fold h.
    change (String.eqb (tag (deref h x)) "para") with (is_para h x).
    change (String.eqb (tag (deref h x)) "chapter"
            && negb (not_None (get h x "eid"))) with (is_start_marker h x).
    cbn [chunk_model].
    destruct (is_para h x) eqn:Tp.
    + specialize (Px eq_refl).
      destruct (para_hit h s e x) eqn:Hhit.
      * rewrite (bind_ok _ _ _ _ _
                   (extract_verses_from_para_hit w x s e (proj2 Hx) Px Hhit)).
        fold h. rewrite bind_get_store, store_set_store.
        cbn [element_truthy]. rewrite deref_app_new.
        rewrite (para_copy_children _ _ _ _ Hhit).
        rewrite IH; rewrite ?store_set_store.
        -- rewrite (chunk_model_app h _ s e rest Hrest).
           rewrite length_app, Nat.add_1_r. cbn [length option_list].
           destruct (chunk_model h s e rest (S (length h))) as [c new].
           cbn [fst snd]. rewrite set_store_twice.
           now rewrite <- !app_assoc.
        -- apply Forall_impl with (1 := Hrest). intros k. apply deep_live_app.
        -- now apply all_parse_app.
      * rewrite (bind_ok _ _ _ _ _
                   (extract_verses_from_para_miss w x s e Px Hhit)).
        rewrite bind_get_store. cbn [element_truthy]. now apply IH.
    + destruct (is_start_marker h x).
      * rewrite IH by assumption. fold h.
        destruct (chunk_model h s e rest (length h)) as [c new].
        cbn [fst snd]. now rewrite <- app_assoc.
      * now apply IH.
Qed.

(** When the loop ends normally, the verse numbers it met were numbers. *)
Lemma chunk_scan_ok_parse (s e : Z) (content : list loc) :
  forall (w w' : world) (acc chunk : list loc),
    Forall (deep_live (store w)) content ->
    chunk_scan content s e acc w = (Ok chunk, w') ->
    all_parse (store w) content.
Proof.
  unfold all_parse.
  induction content as [|x rest IH]; intros w w' acc chunk Hlive Hrun;
    [constructor|].
  inversion Hlive as [|? ? Hx Hrest]; subst.
  set (h := store w) in *.
  cbn [chunk_scan] in Hrun. rewrite bind_get_store in Hrun. fold h in Hrun.
  change (String.eqb (tag (deref h x)) "para") with (is_para h x) in Hrun.
  destruct (is_para h x) eqn:Tp.
  - apply bind_inv_ok in Hrun. destruct Hrun as (r & w1 & Hpara & Hrun).
    pose proof (extract_verses_from_para_ok_parse _ _ _ _ _ _ (proj2 Hx) Hpara)
      as Px.
    constructor; [auto|].
    apply extract_verses_from_para_ok in Hpara; [|exact (proj2 Hx)].
    rewrite bind_get_store in Hrun.
    destruct Hpara as [(_ & -> & ->) | (_ & -> & ->)].
    + cbn [element_truthy] in Hrun. now apply (IH w w' acc chunk).
    + fold h in Hrun.
      assert (Hrest' : Forall (deep_live
                (store (set_store w (h ++ [para_copy_of h s e x])))) rest).
      { rewrite store_set_store. apply Forall_impl with (1 := Hrest).
        intros k. apply deep_live_app. }
      apply (all_parse_app h [para_copy_of h s e x] rest Hrest).
      destruct (element_truthy
                  (store (set_store w (h ++ [para_copy_of h s e x])))
                  (Some (length h)));
        exact (IH _ _ _ _ Hrest' Hrun).
  - constructor; [congruence|].
    destruct (String.eqb (tag (deref h x)) "chapter"
              && negb (not_None (get h x "eid"))); eapply IH; eauto.
Qed.

(** What [extract_verses_for_chunk] returns whenever it ends normally. *)
Lemma extract_verses_for_chunk_ok (w w' : world) (content chunk : list loc)
    (s : Z) (e : option Z) :
  Forall (deep_live (store w)) content ->
  extract_verses_for_chunk content s e w = (Ok chunk, w') ->
  chunk = fst (chunk_model (store w) s (default s e) content (length (store w)))
  /\ w' = set_store w
            (store w
             ++ snd (chunk_model (store w) s (default s e) content
                       (length (store w)))).
Proof.
  intros Hlive Hrun. unfold extract_verses_for_chunk in Hrun.
  pose proof (chunk_scan_ok_parse _ _ _ _ _ _ _ Hlive Hrun) as Hp.
  rewrite (chunk_scan_parse _ _ _ _ _ Hlive Hp) in Hrun.
  inversion Hrun; subst. auto.
Qed.

(** ** Building a document *)

Lemma insert_app_new (h : list Element) (x y : Element) (t : list Element) :
  <[length h := x]> (h ++ y :: t) = h ++ x :: t.
Proof. rewrite insert_app_r_alt by lia. now rewrite Nat.sub_diag. Qed.

Lemma insert_app_new1 (h : list Element) (x y0 y : Element) (t : list Element) :
  <[S (length h) := x]> (h ++ y0 :: y :: t) = h ++ y0 :: x :: t.
Proof.
  rewrite insert_app_r_alt by lia.
  now replace (S (length h) - length h)%nat with 1%nat by lia.
Qed.

Lemma deref_app_new0 (h : list Element) (y : Element) (t : list Element) :
  deref (h ++ y :: t) (length h) = y.
Proof. unfold deref. now rewrite list_lookup_middle. Qed.

Lemma deref_app_new1 (h : list Element) (y0 y : Element) (t : list Element) :
  deref (h ++ y0 :: y :: t) (S (length h)) = y.
Proof.
  unfold deref. rewrite lookup_app_r by lia.
  now replace (S (length h) - length h)%nat with 1%nat by lia.
Qed.

Lemma deref_app_new2 (h : list Element) (y0 y1 y : Element) (t : list Element) :
  deref (h ++ y0 :: y1 :: y :: t) (S (S (length h))) = y.
Proof.
  unfold deref. rewrite lookup_app_r by lia.
  now replace (S (S (length h)) - length h)%nat with 2%nat by lia.
Qed.

(** [for element in content: root.append(element)] *)
Lemma for_each_append (r : loc) (content : list loc) :
  forall w : world,
    live (store w) r ->
    for_each (fun element => append r element) content w
    = (Ok tt,
       set_store w (<[r := add_children (deref (store w) r) content]> (store w))).
Proof.
  induction content as [|x rest IH]; intros w Hr.
  - simpl. unfold ret. now rewrite add_children_nil, insert_deref_id, set_store_id.
  - cbn [for_each]. unfold append at 1. rewrite bind_update.
    rewrite IH; rewrite ?store_set_store.
    + rewrite deref_insert_eq by exact Hr.
      now rewrite set_store_twice, list_insert_insert_eq, add_children_cons.
    + unfold live. now rewrite length_insert.
Qed.

Lemma is_chapter_end_ext (h h' : list Element) (x : loc) :
  deref h' x = deref h x -> is_chapter_end h' x = is_chapter_end h x.
Proof. intros E. unfold is_chapter_end, get. now rewrite E. Qed.

Lemma existsb_ext_Forall {A} (f g : A -> bool) (l : list A) :
  Forall (fun x => f x = g x) l -> existsb f l = existsb g l.
Proof. induction 1 as [|x l E _ IH]; simpl; [reflexivity|]. now rewrite E, IH. Qed.

Lemma live_app_new (w : world) (h : list Element) (y : Element)
    (t : list Element) :
  live (store (set_store w (h ++ y :: t))) (length h).
Proof. unfold live. rewrite store_set_store, length_app. simpl. lia. Qed.

Lemma bind_mkdir {B} (p : path) (k : unit -> M B) (w : world) :
  bind (mkdir p) k w = k tt (with_dirs w p).
Proof. reflexivity. Qed.

(** [create_chunk_file] up to the call of [_indent_xml]: the new objects are
    added at the end of the store, nothing else changes. *)
Lemma create_chunk_file_run (limit : nat) (self : USXSplitter)
    (chapter_num chunk_num : Z) (content : list loc) (is_title : bool)
    (w : world) :
  Forall (live (store w)) content ->
  create_chunk_file limit self chapter_num chunk_num content is_title w
  = (_indent_xml limit (length (store w)) 0 ;;
     write limit (length (store w))
       (chunk_path self chapter_num chunk_num is_title) ;;
     print ("Created: "
            +:+ path_str (chunk_path self chapter_num chunk_num is_title)))
      (set_store (with_dirs w (chunk_dir self chapter_num))
         (store w ++ chunk_objects (store w) chapter_num content is_title)).
Proof.
  intros Hlive. set (h := store w).
  unfold create_chunk_file. rewrite bind_mkdir, bind_new_element.
  change (store (with_dirs w (path_join (output_dir self)
                                (PyStr.fmt_02d chapter_num)))) with h.
  fold (chunk_dir self chapter_num).
  fold (chunk_path self chapter_num chunk_num is_title).
  set (w1 := with_dirs w (chunk_dir self chapter_num)).
  fold (usx_node []).
  destruct is_title; cbn [negb].
  - rewrite bind_ret.
    erewrite bind_ok by (apply for_each_append; now apply live_app_new).
    rewrite bind_ret. rewrite !store_set_store, set_store_twice.
    rewrite deref_app_new0, insert_app_new.
    reflexivity.
  - rewrite bind_assoc. unfold sub_element at 1. rewrite !bind_assoc.
    rewrite bind_new_element, store_set_store, set_store_twice.
    rewrite bind_assoc.
    unfold append at 1. rewrite bind_update, store_set_store, set_store_twice.
    rewrite bind_ret. unfold set_text at 1.
    rewrite bind_update, store_set_store, set_store_twice.
    rewrite length_app. cbn [length]. rewrite Nat.add_1_r.
    rewrite <- app_assoc. cbn [app].
    rewrite deref_app_new0, insert_app_new.
    rewrite deref_app_new1, insert_app_new1.
    erewrite bind_ok by (apply for_each_append; now apply live_app_new).
    rewrite !store_set_store, set_store_twice.
    rewrite deref_app_new0, insert_app_new.
    rewrite bind_assoc, bind_get_store, store_set_store.
    erewrite (existsb_ext_Forall (is_chapter_end (h ++ _)) (is_chapter_end h)).
    + unfold chunk_objects. fold h. cbv zeta.
      destruct (existsb (is_chapter_end h) content); cbn [negb].
      * rewrite !bind_ret. reflexivity.
      * unfold sub_element. rewrite !bind_assoc.
        rewrite bind_new_element, store_set_store, set_store_twice.
        rewrite bind_assoc.
        unfold append at 1. rewrite bind_update, store_set_store, set_store_twice.
        rewrite !bind_ret.
        rewrite length_app. cbn [length].
        replace (length h + 2)%nat with (S (S (length h))) by lia.
        rewrite <- app_assoc. cbn [app].
        rewrite deref_app_new0, insert_app_new.
        unfold add_children, with_child, with_text, usx_node, end_node, book_node.
        cbn. reflexivity.
    + apply Forall_impl with (1 := Hlive).
      intros x Hx. apply is_chapter_end_ext. now apply deref_app_l.
Qed.

(** ** Relations kept by commands *)

Section Preserves.

Variable R : world -> world -> Prop.
Hypothesis R_refl : forall w, R w w.
Hypothesis R_trans : forall w1 w2 w3, R w1 w2 -> R w2 w3 -> R w1 w3.

Lemma preserves_ret {A} (a : A) : preserves R (ret a).
Proof. intros w w' r H. inversion H; subst. apply R_refl. Qed.

Lemma preserves_raise {A} (x : exn) : preserves R (@raise A x).
Proof. intros w w' r H. inversion H; subst. apply R_refl. Qed.

Lemma preserves_lift {A} (x : result A) : preserves R (lift_result x).
Proof. intros w w' r H. inversion H; subst. apply R_refl. Qed.

Lemma preserves_get_store : preserves R get_store.
Proof. intros w w' r H. inversion H; subst. apply R_refl. Qed.

Lemma preserves_bind {A B} (m : M A) (k : A -> M B) :
  preserves R m -> (forall a, preserves R (k a)) -> preserves R (bind m k).
Proof.
  intros Hm Hk w w' r. unfold bind.
  destruct (m w) as [[a|x] w1] eqn:E; intros H.
  - apply R_trans with w1; [now apply (Hm _ _ _ E) | now apply (Hk a _ _ _ H)].
  - inversion H; subst. now apply (Hm _ _ _ E).
Qed.

Lemma preserves_for_each {A} (body : A -> M unit) (xs : list A) :
  (forall x, preserves R (body x)) -> preserves R (for_each body xs).
Proof.
  intros Hb. induction xs as [|x xs IH]; simpl.
  - apply preserves_ret.
  - apply preserves_bind; [apply Hb | intros _; exact IH].
Qed.

End Preserves.

(** From a run [H : m w = (r, w')], conclude [R w w'] by showing that [m]
    keeps [R]. *)
Ltac use_preserves R H :=
  match type of H with
  | ?m ?w = (?r, ?w') =>
      let Hp := fresh "Hp" in
      assert (Hp : preserves R m); [| exact (Hp w w' r H)]
  end.

(** *** Rewriting of text and tail *)

Lemma same_shape_refl (h : list Element) : same_shape h h.
Proof. split; [reflexivity | intros l; auto]. Qed.

Lemma same_shape_trans (h1 h2 h3 : list Element) :
  same_shape h1 h2 -> same_shape h2 h3 -> same_shape h1 h3.
Proof.
  intros [L12 S12] [L23 S23]. split; [congruence|].
  intros l. destruct (S12 l) as (? & ? & ?), (S23 l) as (? & ? & ?).
  repeat split; congruence.
Qed.

Lemma text_only_refl (w : world) : text_only w w.
Proof. split; [apply same_shape_refl | auto]. Qed.

Lemma text_only_trans (w1 w2 w3 : world) :
  text_only w1 w2 -> text_only w2 w3 -> text_only w1 w3.
Proof.
  intros (S12 & D12 & O12) (S23 & D23 & O23).
  split; [now apply same_shape_trans with (store w2) | split; congruence].
Qed.

Lemma same_shape_update (h : list Element) (l : loc) (f : Element -> Element) :
  (forall e, tag (f e) = tag e /\ attrib (f e) = attrib e
             /\ children (f e) = children e) ->
  same_shape h (<[l := f (deref h l)]> h).
Proof.
  intros Hf. split; [apply length_insert|].
  intros l'. destruct (decide (l = l')) as [<-|Hne].
  - destruct (decide (l < length h)%nat) as [Hl|Hl].
    + rewrite deref_insert_eq by exact Hl. apply Hf.
    + rewrite list_insert_ge by lia. auto.
  - rewrite deref_insert_ne by exact Hne. auto.
Qed.

Lemma preserves_set_text (l : loc) (t : string) :
  preserves text_only (set_text l t).
Proof.
  intros w w' r H. inversion H; subst. split; [|auto].
  cbn [store]. apply (same_shape_update _ l (fun e => with_text e (Some t))).
  intros e. now destruct e.
Qed.

Lemma preserves_set_tail (l : loc) (t : string) :
  preserves text_only (set_tail l t).
Proof.
  intros w w' r H. inversion H; subst. split; [|auto].
  cbn [store]. apply (same_shape_update _ l (fun e => with_tail e (Some t))).
  intros e. now destruct e.
Qed.

(** [_indent_xml] rewrites [text] and [tail] fields and nothing else: every
    object keeps its tag, its attributes and its children, no object is
    added, and neither the files nor the output change. *)
Lemma indent_text_only (fuel : nat) :
  forall (elem : loc) (level : nat),
    preserves text_only (_indent_xml fuel elem level).
Proof.
  pose proof text_only_refl as Rr. pose proof text_only_trans as Rt.
  induction fuel as [|fuel IH]; intros elem level.
  - apply preserves_raise; auto.
  - cbn [_indent_xml].
    apply preserves_bind; auto using preserves_get_store. intros h.
    destruct (0 <? length (children (deref h elem)))%nat.
    + apply preserves_bind; auto.
      { destruct (blank (text (deref h elem)));
          auto using preserves_set_text, preserves_ret. }
      intros _. apply preserves_bind; auto.
      { apply preserves_bind; auto using preserves_get_store. intros h1.
        destruct (blank (tail (deref h1 elem)));
          auto using preserves_set_tail, preserves_ret. }
      intros _. apply preserves_bind; auto.
      { apply preserves_for_each; auto. }
      intros _. destruct (last (children (deref h elem))) as [child|].
      * apply preserves_bind; auto using preserves_get_store. intros h2.
        destruct (blank (tail (deref h2 child)));
          auto using preserves_set_tail, preserves_ret.
      * apply preserves_ret; auto.
    + destruct (negb (level =? 0)%nat && blank (tail (deref h elem)));
        auto using preserves_set_tail, preserves_ret.
Qed.

(** ** Serialisation *)

Lemma serialize_node (fuel : nat) (h : list Element) (l : loc) (x : xml) :
  serialize fuel h l = Some x ->
  xml_shape x = shape_of h l
  /\ xml_text x = text (deref h l) /\ xml_tail x = tail (deref h l)
  /\ exists fuel', fuel = S fuel'
       /\ mapM (serialize fuel' h) (children (deref h l)) = Some (xml_children x).
Proof.
  destruct fuel as [|fuel']; simpl; [discriminate|].
  destruct (mapM (serialize fuel' h) (children (deref h l))) as [kids|] eqn:E;
    [|discriminate].
  intros H. inversion H; subst. unfold xml_shape, shape_of. simpl.
  repeat split; eauto.
Qed.

(** The top-level nodes of a serialised tree are the children of its root. *)
Lemma serialize_top_nodes (fuel : nat) (h : list Element) (l : loc) (x : xml) :
  serialize fuel h l = Some x ->
  top_nodes x = map (shape_of h) (children (deref h l)).
Proof.
  intros H. apply serialize_node in H.
  destruct H as (_ & _ & _ & fuel' & _ & Hk).
  apply mapM_Some in Hk. unfold top_nodes.
  induction Hk as [|k y ks ys Hky _ IH]; simpl; [reflexivity|].
  apply serialize_node in Hky. destruct Hky as (-> & _). now rewrite IH.
Qed.

Lemma shape_of_same (h h' : list Element) (l : loc) :
  same_shape h h' -> shape_of h' l = shape_of h l.
Proof.
  intros [_ S]. destruct (S l) as (T & A & _). unfold shape_of. now rewrite T, A.
Qed.

(** ** [create_chunk_file] *)

Lemma write_ok (limit : nat) (root : loc) (p : path) (w w' : world) :
  write limit root p w = (Ok tt, w') ->
  exists x, serialize limit (store w) root = Some x
            /\ w' = mkWorld (store w)
                      (mkFilesys (dirs (disk w)) ((p, x) :: files (disk w)))
                      (stdout w).
Proof.
  unfold write. destruct (serialize limit (store w) root) as [x|];
    [|discriminate].
  intros H. inversion H; subst. eauto.
Qed.

Lemma map_shape_of_app (h ext : list Element) (content : list loc) :
  Forall (live h) content ->
  map (shape_of (h ++ ext)) content = map (shape_of h) content.
Proof.
  induction 1 as [|x rest Hx _ IH]; simpl; [reflexivity|].
  unfold shape_of at 1. rewrite deref_app_l by exact Hx. now rewrite IH.
Qed.

Lemma chunk_objects_nodes (h : list Element) (chapter_num : Z)
    (content : list loc) (is_title : bool) :
  Forall (live h) content ->
  let pre := h ++ chunk_objects h chapter_num content is_title in
  tag (deref pre (length h)) = "usx"
  /\ map (shape_of pre) (children (deref pre (length h)))
     = doc_nodes h chapter_num content is_title.
Proof.
  intros Hlive. unfold chunk_objects, doc_nodes. cbv zeta.
  destruct is_title; [|destruct (existsb (is_chapter_end h) content)];
    rewrite deref_app_new0; (split; [reflexivity|]);
    cbn [children usx_node map].
  - now apply map_shape_of_app.
  - unfold shape_of at 1. rewrite deref_app_new1.
    rewrite (map_shape_of_app _ _ _ Hlive), app_nil_r. reflexivity.
  - unfold shape_of at 1. rewrite deref_app_new1.
    rewrite map_app, (map_shape_of_app _ _ _ Hlive). cbn [map].
    unfold shape_of at 2. rewrite deref_app_new2. reflexivity.
Qed.

(** A normal run of [create_chunk_file]: one file is added, whose top-level
    nodes are [doc_nodes]; the store gets the new objects and, besides, only
    [text] and [tail] fields change. *)
Lemma create_chunk_file_ok (limit : nat) (self : USXSplitter)
    (chapter_num chunk_num : Z) (content : list loc) (is_title : bool)
    (w w' : world) :
  Forall (live (store w)) content ->
  create_chunk_file limit self chapter_num chunk_num content is_title w
  = (Ok tt, w') ->
  exists x,
    files (disk w')
    = (chunk_path self chapter_num chunk_num is_title, x) :: files (disk w)
    /\ xml_tag x = "usx"
    /\ top_nodes x = doc_nodes (store w) chapter_num content is_title
    /\ same_shape
         (store w ++ chunk_objects (store w) chapter_num content is_title)
         (store w').
Proof.
  intros Hlive Hrun. rewrite (create_chunk_file_run _ _ _ _ _ _ _ Hlive) in Hrun.
  set (pre := store w ++ chunk_objects (store w) chapter_num content is_title)
    in *.
  apply bind_inv_ok in Hrun. destruct Hrun as ([] & w1 & Hind & Hrun).
  apply bind_inv_ok in Hrun. destruct Hrun as ([] & w2 & Hwr & Hpr).
  apply indent_text_only in Hind. destruct Hind as (Hsh & Hd & Ho).
  rewrite store_set_store in Hsh.
  apply write_ok in Hwr. destruct Hwr as (x & Hser & ->).
  inversion Hpr; subst w'. cbn [store disk files].
  exists x. split; [|split; [|split]].
  - rewrite Hd. reflexivity.
  - apply serialize_node in Hser. destruct Hser as (Hx & _).
    unfold xml_shape, shape_of in Hx. inversion Hx as [[Ht Ha]].
    destruct Hsh as [_ S]. destruct (S (length (store w))) as (Hr & _).
    rewrite Ht, Hr.
    now destruct (chunk_objects_nodes (store w) chapter_num content is_title Hlive).
  - rewrite (serialize_top_nodes _ _ _ _ Hser).
    destruct Hsh as [L S]. destruct (S (length (store w))) as (_ & _ & ->).
    rewrite <- (proj2 (chunk_objects_nodes (store w) chapter_num content
                         is_title Hlive)).
    apply map_ext. intros k. now apply shape_of_same.
  - exact Hsh.
Qed.

(** ** The entries of a chunk *)

(** The entries that [chunk_model] lists answer, one by one and in order, to
    the contributing elements of the chapter: a start marker is listed
    itself, a paragraph through its copy, a new object. *)
Lemma chunk_model_entries (h : list Element) (s e : Z) (content : list loc) :
  Forall (deep_live h) content ->
  forall (ext0 : list Element) (next : loc) (c : list loc) (new : list Element),
    next = length (h ++ ext0) ->
    chunk_model h s e content next = (c, new) ->
    Forall2
      (fun x y =>
         if is_para h x
         then (next <= y)%nat
              /\ ((h ++ ext0) ++ new) !! y = Some (para_copy_of h s e x)
         else y = x)
      (List.filter (contributes h s e) content) c.
Proof.
  induction 1 as [|x rest Hx _ IH]; intros ext0 next c new Hnext Hmodel.
  - inversion Hmodel; subst. constructor.
  - cbn [chunk_model] in Hmodel. cbn [List.filter]. unfold contributes at 1.
    destruct (is_para h x) eqn:Tp.
    + destruct (para_hit h s e x) eqn:Hhit.
      * destruct (chunk_model h s e rest (S next)) as [c' new'] eqn:Hrest.
        inversion Hmodel; subst c new. constructor.
        -- rewrite Tp. split; [lia|].
           rewrite Hnext. now apply list_lookup_middle.
        -- specialize (IH (ext0 ++ [para_copy_of h s e x]) (S next) c' new').
           rewrite <- !app_assoc in IH. cbn [app] in IH.
           rewrite <- !app_assoc.
           eapply Forall2_impl; [apply IH|].
           ++ rewrite Hnext, !length_app. cbn [length]. lia.
           ++ exact Hrest.
           ++ intros a b. cbv beta. destruct (is_para h a); [|auto].
              intros [Hle Hl]. split; [lia | exact Hl].
      * now apply (IH ext0 next).
    + destruct (is_start_marker h x).
      * destruct (chunk_model h s e rest next) as [c' new'] eqn:Hrest.
        inversion Hmodel; subst c new. constructor.
        -- now rewrite Tp.
        -- now apply (IH ext0 next).
      * now apply (IH ext0 next).
Qed.

Lemma chunk_entries (h : list Element) (s e : Z) (content : list loc) :
  Forall (deep_live h) content ->
  Forall2
    (fun x y =>
       if is_para h x
       then (length h <= y)%nat
            /\ (h ++ snd (chunk_model h s e content (length h))) !! y
               = Some (para_copy_of h s e x)
       else y = x)
    (List.filter (contributes h s e) content)
    (fst (chunk_model h s e content (length h))).
Proof.
  intros Hlive.
  destruct (chunk_model h s e content (length h)) as [c new] eqn:Hmodel.
  pose proof (chunk_model_entries h s e content Hlive [] (length h) c new) as H.
  rewrite app_nil_r in H. now apply H.
Qed.

(** ** Extraction adds objects and changes none *)

Lemma only_at_refl (c : loc) (w : world) : only_at c w w.
Proof. repeat split; auto. Qed.

Lemma only_at_trans (c : loc) (w1 w2 w3 : world) :
  only_at c w1 w2 -> only_at c w2 w3 -> only_at c w1 w3.
Proof.
  intros (L12 & D12 & F12 & O12) (L23 & D23 & F23 & O23).
  repeat split; try congruence.
  intros l Hl. rewrite (D23 l Hl). now apply D12.
Qed.

Lemma preserves_update_at (c : loc) (f : Element -> Element) :
  preserves (only_at c) (update c f).
Proof.
  intros w w' r H. inversion H; subst. repeat split; cbn [store disk stdout].
  - apply length_insert.
  - intros l Hl. apply deref_insert_ne. congruence.
Qed.

Lemma copy_verses_only_at (c : loc) (s e : Z) (kids : list loc) :
  forall cur : string, preserves (only_at c) (copy_verses c kids s e cur).
Proof.
  pose proof (only_at_refl c) as Rr. pose proof (only_at_trans c) as Rt.
  induction kids as [|k kids IH]; intros cur; cbn [copy_verses].
  - now apply preserves_ret.
  - apply preserves_bind; auto using preserves_get_store. intros h.
    assert (Hstep : forall t : string,
      preserves (only_at c)
        (append c k ;;
         let* h' := get_store in
         copy_verses c kids s e (add_tail t (tail (deref h' k))))).
    { intros t. apply preserves_bind; auto.
      - apply preserves_update_at.
      - intros _. apply preserves_bind; auto using preserves_get_store. }
    destruct (String.eqb (tag (deref h k)) "verse"); [|apply Hstep].
    apply preserves_bind; auto using preserves_lift. intros n.
    destruct (in_range s e n); [apply Hstep | apply IH].
Qed.

Lemma store_eq_deref (h1 h2 : list Element) :
  length h1 = length h2 ->
  (forall l, live h1 l -> deref h1 l = deref h2 l) ->
  h1 = h2.
Proof.
  intros Hlen Hd. apply (list_eq_same_length h1 h2 (length h1)); auto.
  intros i x y Hi Hx Hy. specialize (Hd i Hi).
  now rewrite (deref_live _ _ _ Hx), (deref_live _ _ _ Hy) in Hd.
Qed.

Lemma only_at_new (w w' : world) (h : list Element) (e0 : Element) :
  only_at (length h) (set_store w (h ++ [e0])) w' ->
  store w' = h ++ [deref (store w') (length h)]
  /\ disk w' = disk w /\ stdout w' = stdout w.
Proof.
  intros (Hlen & Hd & Hf & Ho). rewrite store_set_store in *.
  split; [|auto]. apply store_eq_deref.
  - rewrite Hlen, !length_app. reflexivity.
  - intros l Hl. destruct (decide (l = length h)) as [->|Hne].
    + now rewrite deref_app_new.
    + rewrite (Hd l Hne). unfold live in Hl.
      rewrite Hlen, length_app in Hl. cbn [length] in Hl.
      rewrite !deref_app_l by (unfold live; lia). reflexivity.
Qed.

Lemma extends_refl (w : world) : extends w w.
Proof. split; [exists []; now rewrite app_nil_r | auto]. Qed.

Lemma extends_trans (w1 w2 w3 : world) :
  extends w1 w2 -> extends w2 w3 -> extends w1 w3.
Proof.
  intros ([e1 E1] & D1 & O1) ([e2 E2] & D2 & O2).
  split; [|split; congruence].
  exists (e1 ++ e2). now rewrite E2, E1, app_assoc.
Qed.

(** However it ends, [extract_verses_from_para] leaves every object of the
    store as it was. *)
Lemma extract_verses_from_para_extends (para : loc) (s e : Z) :
  preserves extends (extract_verses_from_para para s e).
Proof.
  intros w w' r Hrun. unfold extract_verses_from_para in Hrun.
  rewrite bind_get_store in Hrun.
  set (h := store w) in *. set (p := deref h para) in *.
  destruct (has_verses_in_range h (children p) s e) as [[|]|x].
  - rewrite bind_lift_ok in Hrun. cbn [negb] in Hrun.
    rewrite bind_new_element in Hrun. fold h in Hrun.
    set (c := length h) in *.
    assert (Hrest : only_at c
                      (set_store w (h ++ [mkElement (tag p) (attrib p) None None []]))
                      w').
    { pose proof (only_at_refl c) as Rr. pose proof (only_at_trans c) as Rt.
      use_preserves (only_at c) Hrun.
      apply preserves_bind; auto using copy_verses_only_at.
      intros gathered. apply preserves_bind; auto using preserves_get_store.
      intros h1. apply preserves_bind; auto.
      - destruct (PyStr.strip_truthy _);
          [apply preserves_update_at | now apply preserves_ret].
      - intros _. apply preserves_bind; auto using preserves_get_store.
        intros h2. destruct (_ || _); now apply preserves_ret. }
    apply only_at_new in Hrest. destruct Hrest as (Hs & Hd & Ho).
    split; [eexists; exact Hs | auto].
  - rewrite bind_lift_ok in Hrun. cbn [negb] in Hrun.
    inversion Hrun; subst. apply extends_refl.
  - rewrite bind_lift_raise in Hrun. inversion Hrun; subst. apply extends_refl.
Qed.

Lemma chunk_scan_extends (s e : Z) (content : list loc) :
  forall acc : list loc, preserves extends (chunk_scan content s e acc).
Proof.
  pose proof extends_refl as Rr. pose proof extends_trans as Rt.
  induction content as [|x rest IH]; intros acc; cbn [chunk_scan].
  - now apply preserves_ret.
  - apply preserves_bind; auto using preserves_get_store. intros h.
    destruct (String.eqb (tag (deref h x)) "para").
    + apply preserves_bind; auto using extract_verses_from_para_extends.
      intros r. apply preserves_bind; auto using preserves_get_store.
      intros h'. destruct (element_truthy h' r); apply IH.
    + destruct (_ && _); apply IH.
Qed.

(** However it ends, the chunk extractor leaves every object of the store as
    it was: it adds objects at the end. *)
Lemma extract_verses_for_chunk_extends (content : list loc) (s : Z)
    (e : option Z) :
  preserves extends (extract_verses_for_chunk content s e).
Proof. apply chunk_scan_extends. Qed.

(** However it ends, the chapter extractor changes neither the store nor the
    files. *)
Lemma extract_chapter_content_reads (self : USXSplitter) (chapter_num : scalar)
    (w w' : world) (r : result (list loc)) :
  extract_chapter_content self chapter_num w = (r, w') ->
  store w' = store w /\ disk w' = disk w.
Proof.
  unfold extract_chapter_content. rewrite bind_get_store.
  destruct (chapter_scan _ _ _ _ _ _) as [content found].
  destruct found; cbn [negb]; intros H; inversion H; auto.
Qed.

(** ** Writing keeps the shape of every object *)

Lemma shape_only_refl (w : world) : shape_only w w.
Proof. apply same_shape_refl. Qed.

Lemma shape_only_trans (w1 w2 w3 : world) :
  shape_only w1 w2 -> shape_only w2 w3 -> shape_only w1 w3.
Proof. apply same_shape_trans. Qed.

Lemma indent_shape_only (fuel : nat) (elem : loc) (level : nat) :
  preserves shape_only (_indent_xml fuel elem level).
Proof.
  intros w w' r H. now destruct (indent_text_only fuel elem level w w' r H).
Qed.

Lemma write_shape_only (limit : nat) (root : loc) (p : path) :
  preserves shape_only (write limit root p).
Proof.
  intros w w' r. unfold write.
  destruct (serialize limit (store w) root); intros H; inversion H; subst;
    apply same_shape_refl.
Qed.

Lemma print_shape_only (line : string) : preserves shape_only (print line).
Proof. intros w w' r H. inversion H; subst. apply same_shape_refl. Qed.

Lemma indent_write_print_shape (limit : nat) (root : loc) (p : path)
    (line : string) :
  preserves shape_only
    (_indent_xml limit root 0 ;; write limit root p ;; print line).
Proof.
  pose proof shape_only_refl as Rr. pose proof shape_only_trans as Rt.
  apply preserves_bind; auto using indent_shape_only. intros _.
  apply preserves_bind; auto using write_shape_only, print_shape_only.
Qed.

Lemma same_shape_app_kept (w w' : world) (ext : list Element) :
  same_shape (store w ++ ext) (store w') -> shape_kept w w'.
Proof.
  intros [Hlen Hs]. split.
  - rewrite Hlen, length_app. lia.
  - intros l Hl. destruct (Hs l) as (T & A & C).
    rewrite deref_app_l in T, A, C by exact Hl. auto.
Qed.

(** However it ends, [create_chunk_file] adds its new objects to the store
    and, besides, changes [text] and [tail] fields only. *)
Lemma create_chunk_file_frame (limit : nat) (self : USXSplitter)
    (chapter_num chunk_num : Z) (content : list loc) (is_title : bool)
    (w w' : world) (r : result unit) :
  Forall (live (store w)) content ->
  create_chunk_file limit self chapter_num chunk_num content is_title w
  = (r, w') ->
  same_shape (store w ++ chunk_objects (store w) chapter_num content is_title)
    (store w').
Proof.
  intros Hlive Hrun.
  rewrite (create_chunk_file_run _ _ _ _ _ _ _ Hlive) in Hrun.
  apply indent_write_print_shape in Hrun. exact Hrun.
Qed.

(** ** What a chunk file holds *)

Lemma Forall_bfilter_true {A} (P : A -> Prop) (f : A -> bool) (l : list A) :
  Forall P l -> Forall (fun x => P x /\ f x = true) (List.filter f l).
Proof.
  induction 1 as [|x l Px _ IH]; simpl; [constructor|].
  destruct (f x) eqn:E; [now constructor | exact IH].
Qed.

Lemma para_copy_shape (h : list Element) (s e : Z) (x : loc) :
  (tag (para_copy_of h s e x), attrib (para_copy_of h s e x)) = shape_of h x.
Proof. reflexivity. Qed.

(** An entry of a chunk is in the store, has the tag and the attributes of
    the element it answers to, and is no chapter end marker. *)
Lemma chunk_entry_facts (h ext : list Element) (s e : Z) (x y : loc) :
  deep_live h x ->
  contributes h s e x = true ->
  (if is_para h x
   then (length h <= y)%nat /\ (h ++ ext) !! y = Some (para_copy_of h s e x)
   else y = x) ->
  live (h ++ ext) y
  /\ shape_of (h ++ ext) y = shape_of h x
  /\ is_chapter_end (h ++ ext) y = false
  /\ shape_is_end (shape_of h x) = false.
Proof.
  intros [Hx _] Hc Hy. unfold contributes in Hc.
  destruct (is_para h x) eqn:Tp.
  - destruct Hy as [_ Hl].
    assert (Htag : tag (deref h x) = "para")
      by (now apply String.eqb_eq).
    split; [|split; [|split]].
    + unfold live. now apply lookup_lt_Some with (x := para_copy_of h s e x).
    + unfold shape_of at 1. rewrite (deref_live _ _ _ Hl).
      apply para_copy_shape.
    + unfold is_chapter_end. rewrite (deref_live _ _ _ Hl).
      cbn [tag para_copy_of]. now rewrite Htag.
    + unfold shape_is_end, shape_of. cbn [fst]. now rewrite Htag.
  - subst y. unfold is_start_marker, is_chapter in Hc.
    apply andb_prop in Hc. destruct Hc as [Hch Heid].
    apply negb_true_iff in Heid.
    assert (Hno : get h x "eid" = None)
      by (destruct (get h x "eid"); [discriminate | reflexivity]).
    split; [|split; [|split]].
    + unfold live in *. rewrite length_app. lia.
    + unfold shape_of. now rewrite deref_app_l.
    + unfold is_chapter_end, get. rewrite deref_app_l by exact Hx.
      fold (get h x "eid"). rewrite Hno. now rewrite andb_false_r.
    + unfold shape_is_end, shape_of. cbn [fst snd].
      fold (get h x "eid"). rewrite Hno. now rewrite andb_false_r.
Qed.

Lemma chunk_facts (h : list Element) (s e : Z) (content : list loc) :
  Forall (deep_live h) content ->
  let chunk := fst (chunk_model h s e content (length h)) in
  let h' := h ++ snd (chunk_model h s e content (length h)) in
  Forall (live h') chunk
  /\ map (shape_of h') chunk
     = map (shape_of h) (List.filter (contributes h s e) content)
  /\ existsb (is_chapter_end h') chunk = false
  /\ List.filter shape_is_end
       (map (shape_of h) (List.filter (contributes h s e) content)) = [].
Proof.
  intros Hlive. cbv zeta.
  pose proof (chunk_entries h s e content Hlive) as H2.
  pose proof (Forall_bfilter_true _ (contributes h s e) _ Hlive) as H1.
  set (ext := snd (chunk_model h s e content (length h))) in *.
  induction H2 as [|x y xs ys Hxy _ IH]; [repeat split; constructor|].
  inversion H1 as [|? ? [Hx Hc] H1']; subst.
  destruct (chunk_entry_facts h ext s e x y Hx Hc Hxy) as (L & S & E & N).
  destruct (IH H1') as (IL & IS & IE & IN).
  cbn [map existsb List.filter]. rewrite S, IS, E, IE, N.
  repeat split; auto.
Qed.

(** ** Closed stores *)

Lemma closed_deref (h : list Element) :
  closed h <-> forall l, live h l -> Forall (live h) (children (deref h l)).
Proof.
  unfold closed, live. rewrite Forall_forall. split.
  - intros Hc l Hl. destruct (lookup_lt_is_Some_2 h l Hl) as [el Hel].
    rewrite (deref_live _ _ _ Hel). apply Hc. apply list_elem_of_lookup. eauto.
  - intros Hd el Hel. apply list_elem_of_lookup in Hel. destruct Hel as [l Hl].
    rewrite <- (deref_live _ _ _ Hl). apply Hd.
    now apply lookup_lt_Some with (x := el).
Qed.

Lemma closed_children_live (h : list Element) (l : loc) :
  closed h -> Forall (live h) (children (deref h l)).
Proof.
  intros Hc. destruct (decide (l < length h)%nat) as [Hl|Hl].
  - now apply closed_deref.
  - rewrite (deref_void _ _ Hl). constructor.
Qed.

Lemma closed_app (h ext : list Element) :
  closed h ->
  Forall (fun el => Forall (fun k => (k < length h + length ext)%nat)
                      (children el)) ext ->
  closed (h ++ ext).
Proof.
  unfold closed. intros Hc He. rewrite length_app. apply Forall_app. split.
  - apply Forall_impl with (1 := Hc). intros el Hel.
    apply Forall_impl with (1 := Hel). intros k Hk. lia.
  - exact He.
Qed.

Lemma closed_same_shape (h h' : list Element) :
  same_shape h h' -> closed h -> closed h'.
Proof.
  intros [Hlen Hs] Hc. apply closed_deref. intros l Hl.
  destruct (Hs l) as (_ & _ & ->). unfold live in *. rewrite Hlen in *.
  rewrite closed_deref in Hc. apply Forall_impl with (1 := Hc l Hl).
  intros k Hk. unfold live in *. lia.
Qed.

Lemma chunk_model_new_children (h : list Element) (s e : Z)
    (content : list loc) :
  Forall (deep_live h) content ->
  forall next,
    Forall (fun el => Forall (live h) (children el))
      (snd (chunk_model h s e content next)).
Proof.
  induction 1 as [|x rest Hx _ IH]; intros next; cbn [chunk_model];
    [constructor|].
  destruct (is_para h x).
  - destruct (para_hit h s e x); [|apply IH].
    specialize (IH (S next)).
    destruct (chunk_model h s e rest (S next)) as [c new]. cbn [snd] in *.
    constructor; [|exact IH].
    unfold para_copy_of. cbn [children]. apply Forall_bfilter. apply Hx.
  - destruct (is_start_marker h x); [|apply IH].
    specialize (IH next). now destruct (chunk_model h s e rest next).
Qed.

Lemma closed_chunk_model (h : list Element) (s e : Z) (content : list loc) :
  closed h ->
  Forall (deep_live h) content ->
  closed (h ++ snd (chunk_model h s e content (length h))).
Proof.
  intros Hc Hlive. apply closed_app; [exact Hc|].
  apply Forall_impl with (1 := chunk_model_new_children h s e content Hlive _).
  intros el Hel. apply Forall_impl with (1 := Hel). unfold live. intros k Hk. lia.
Qed.

Lemma closed_chunk_objects (h : list Element) (chapter_num : Z)
    (content : list loc) (is_title : bool) :
  closed h ->
  Forall (live h) content ->
  closed (h ++ chunk_objects h chapter_num content is_title).
Proof.
  intros Hc Hlive. apply closed_app; [exact Hc|].
  assert (Hcontent : forall n, Forall (fun k => (k < length h + S n)%nat) content).
  { intros n. apply Forall_impl with (1 := Hlive). unfold live. intros k Hk. lia. }
  unfold chunk_objects. cbv zeta.
  destruct is_title; [|destruct (existsb (is_chapter_end h) content)];
    cbn [length]; repeat constructor; cbn [children usx_node];
    try apply Hcontent; try lia.
  apply Forall_app. split; [apply Hcontent | repeat constructor; lia].
Qed.

Lemma extract_title_content_sub (P : loc -> Prop) (h : list Element)
    (content : list loc) :
  Forall P content -> Forall P (extract_title_content h content).
Proof.
  induction 1 as [|x rest Px _ IH]; cbn [extract_title_content]; [constructor|].
  destruct (_ && _); [now constructor|].
  destruct (_ && _); [now constructor | exact IH].
Qed.

Lemma Forall_live_mono (h h' : list Element) (l : list loc) :
  (length h <= length h')%nat -> Forall (live h) l -> Forall (live h') l.
Proof.
  intros Hlen Hl. apply Forall_impl with (1 := Hl). unfold live. intros k Hk. lia.
Qed.

Lemma closed_deep_live_all (h : list Element) (content : list loc) :
  closed h -> Forall (live h) content -> Forall (deep_live h) content.
Proof.
  intros Hc Hl. apply Forall_impl with (1 := Hl). intros x Hx.
  now apply closed_deep_live.
Qed.

(** ** One turn of the loop over the chunks *)

(** A verse chunk, when its turn ends normally: the two numbers were read,
    one file is added, and its top-level nodes are the book node, the
    contributing elements of the chapter and a synthesized end marker. *)
Lemma process_chunk_verse_ok (limit : nat) (self : USXSplitter)
    (chapter_num chunk : scalar) (content : list loc) (w w' : world) :
  Forall (deep_live (store w)) content ->
  scalar_is chunk "title" = false ->
  process_chunk limit self chapter_num content chunk w = (Ok tt, w') ->
  exists (n cn : Z) (x : xml) (ext : list Element),
    scalar_int chapter_num = Ok n
    /\ scalar_int chunk = Ok cn
    /\ files (disk w') = (chunk_path self n cn false, x) :: files (disk w)
    /\ top_nodes x
       = book_shape
         :: map (shape_of (store w))
              (List.filter (contributes (store w) cn cn) content)
         ++ [end_shape n]
    /\ same_shape (store w ++ ext) (store w')
    /\ Forall (fun el => Forall (fun k => (k < length (store w) + length ext)%nat)
                           (children el)) ext.
Proof.
  intros Hlive Ht Hrun. unfold process_chunk in Hrun. rewrite Ht in Hrun.
  destruct (scalar_int chunk) as [cn|x0] eqn:Ecn;
    [rewrite bind_lift_ok in Hrun | rewrite bind_lift_raise in Hrun; discriminate].
  apply bind_inv_ok in Hrun. destruct Hrun as (cc & w1 & Hext & Hrun).
  apply extract_verses_for_chunk_ok in Hext; [|exact Hlive].
  cbn [default] in Hext. destruct Hext as [-> ->].
  destruct (scalar_int chapter_num) as [n|x0] eqn:En;
    [rewrite bind_lift_ok in Hrun | rewrite bind_lift_raise in Hrun; discriminate].
  set (h := store w) in *.
  destruct (chunk_facts h cn cn content Hlive) as (L & HS & E & _).
  set (cc := fst (chunk_model h cn cn content (length h))) in *.
  set (new := snd (chunk_model h cn cn content (length h))) in *.
  apply create_chunk_file_ok in Hrun; [|rewrite store_set_store; exact L].
  destruct Hrun as (x & Hf & _ & Htop & Hsh).
  rewrite store_set_store in *.
  exists n, cn, x, (new ++ chunk_objects (h ++ new) n cc false).
  split; [reflexivity|]. split; [reflexivity|]. split; [exact Hf|].
  split; [|split].
  - rewrite Htop. unfold doc_nodes. now rewrite HS, E.
  - now rewrite app_assoc.
  - pose proof (chunk_model_new_children h cn cn content Hlive (length h)) as Hn.
    fold new in Hn.
    apply Forall_app. split.
    + apply Forall_impl with (1 := Hn). intros el Hel.
      apply Forall_impl with (1 := Hel). unfold live. intros k Hk. lia.
    + rewrite length_app.
      assert (Hcc : forall m, Forall (fun k => (k < length (h ++ new) + S m)%nat) cc).
      { intros m. apply Forall_impl with (1 := L). unfold live. intros k Hk. lia. }
      rewrite length_app in Hcc.
      unfold chunk_objects. cbv zeta. rewrite E, length_app.
      cbn [length]. repeat constructor; cbn [children usx_node]; try lia.
      apply Forall_app. split; [|repeat constructor; lia].
      apply Forall_impl with (1 := Hcc 2%nat). intros k Hk. lia.
Qed.

(** A title chunk, when its turn ends normally. *)
Lemma process_chunk_title_ok (limit : nat) (self : USXSplitter)
    (chapter_num chunk : scalar) (content : list loc) (w w' : world) :
  Forall (live (store w)) content ->
  scalar_is chunk "title" = true ->
  process_chunk limit self chapter_num content chunk w = (Ok tt, w') ->
  exists (n : Z) (x : xml) (ext : list Element),
    scalar_int chapter_num = Ok n
    /\ files (disk w') = (chunk_path self n 0 true, x) :: files (disk w)
    /\ top_nodes x
       = map (shape_of (store w)) (extract_title_content (store w) content)
    /\ same_shape (store w ++ ext) (store w')
    /\ Forall (fun el => Forall (fun k => (k < length (store w) + length ext)%nat)
                           (children el)) ext.
Proof.
  intros Hlive Ht Hrun. unfold process_chunk in Hrun. rewrite Ht in Hrun.
  rewrite bind_get_store in Hrun.
  destruct (scalar_int chapter_num) as [n|x0] eqn:En;
    [rewrite bind_lift_ok in Hrun | rewrite bind_lift_raise in Hrun; discriminate].
  pose proof (extract_title_content_sub _ (store w) _ Hlive) as Hsub.
  apply create_chunk_file_ok in Hrun; [|exact Hsub].
  destruct Hrun as (x & Hf & _ & Htop & Hsh).
  exists n, x, (chunk_objects (store w) n
                  (extract_title_content (store w) content) true).
  split; [reflexivity|]. split; [exact Hf|]. split; [exact Htop|].
  split; [exact Hsh|].
  cbn [chunk_objects length]. repeat constructor. cbn [children usx_node].
  apply Forall_impl with (1 := Hsub). unfold live. intros k Hk. lia.
Qed.

(** What every normal turn of the loop keeps and does: the store stays closed
    and keeps its objects with their shape, and one file is added. *)
Lemma process_chunk_ok (limit : nat) (self : USXSplitter)
    (chapter_num chunk : scalar) (content : list loc) (w w' : world) :
  closed (store w) ->
  Forall (live (store w)) content ->
  process_chunk limit self chapter_num content chunk w = (Ok tt, w') ->
  closed (store w')
  /\ Forall (live (store w')) content
  /\ shape_kept w w'
  /\ exists p x, files (disk w') = (p, x) :: files (disk w).
Proof.
  intros Hc Hlive Hrun.
  assert (Hmain : exists (ext : list Element) p x,
             same_shape (store w ++ ext) (store w')
             /\ Forall (fun el => Forall (fun k => (k < length (store w)
                                                       + length ext)%nat)
                                    (children el)) ext
             /\ files (disk w') = (p, x) :: files (disk w)).
  { destruct (scalar_is chunk "title") eqn:Ht.
    - destruct (process_chunk_title_ok _ _ _ _ _ _ _ Hlive Ht Hrun)
        as (n & x & ext & _ & Hf & _ & Hsh & Hext). eauto 8.
    - destruct (process_chunk_verse_ok _ _ _ _ _ _ _
                  (closed_deep_live_all _ _ Hc Hlive) Ht Hrun)
        as (n & cn & x & ext & _ & _ & Hf & _ & Hsh & Hext). eauto 8. }
  destruct Hmain as (ext & p & x & Hsh & Hext & Hf).
  pose proof (same_shape_app_kept _ _ _ Hsh) as Hk.
  split; [|split; [|split]].
  - apply (closed_same_shape _ _ Hsh). now apply closed_app.
  - apply Forall_live_mono with (2 := Hlive). apply Hk.
  - exact Hk.
  - eauto.
Qed.

(** ** The loop over the chunks *)

Lemma shape_kept_refl (w : world) : shape_kept w w.
Proof. split; [lia | auto]. Qed.

Lemma shape_kept_trans (w1 w2 w3 : world) :
  shape_kept w1 w2 -> shape_kept w2 w3 -> shape_kept w1 w3.
Proof.
  intros [L12 S12] [L23 S23]. split; [lia|]. intros l Hl.
  destruct (S12 l Hl) as (T1 & A1 & C1).
  assert (Hl2 : live (store w2) l) by (unfold live in *; lia).
  destruct (S23 l Hl2) as (T2 & A2 & C2). repeat split; congruence.
Qed.

Lemma files_kept_refl (w : world) : files_kept w w.
Proof. intros p H. exact H. Qed.

Lemma files_kept_trans (w1 w2 w3 : world) :
  files_kept w1 w2 -> files_kept w2 w3 -> files_kept w1 w3.
Proof. intros H12 H23 p H. apply H23, H12, H. Qed.

Lemma files_kept_add (w w' : world) (p : path) (x : xml) :
  files (disk w') = (p, x) :: files (disk w) -> files_kept w w'.
Proof.
  intros Hf q Hq. unfold read_file in *. rewrite Hf. cbn [file_lookup].
  destruct (bool_decide (p = q)); [eauto | exact Hq].
Qed.

Lemma read_file_added (w w' : world) (p : path) (x : xml) :
  files (disk w') = (p, x) :: files (disk w) ->
  read_file (disk w') p = Some x.
Proof.
  intros Hf. unfold read_file. rewrite Hf. cbn [file_lookup].
  now rewrite bool_decide_eq_true_2.
Qed.

(** A normal run of the loop: its invariants, and for every chunk of the list
    the turn that handled it. *)
Lemma chunk_loop_ok (limit : nat) (self : USXSplitter) (chapter_num : scalar)
    (content : list loc) (chunks : list scalar) :
  forall w w' : world,
    closed (store w) ->
    Forall (live (store w)) content ->
    for_each (process_chunk limit self chapter_num content) chunks w
    = (Ok tt, w') ->
    closed (store w') /\ shape_kept w w' /\ files_kept w w'
    /\ forall chunk,
         In chunk chunks ->
         exists w1 w2,
           closed (store w1) /\ Forall (live (store w1)) content
           /\ shape_kept w w1
           /\ process_chunk limit self chapter_num content chunk w1 = (Ok tt, w2)
           /\ files_kept w2 w'.
Proof.
  induction chunks as [|c chunks IH]; intros w w' Hc Hlive Hrun.
  - inversion Hrun; subst. split; [exact Hc|]. split; [apply shape_kept_refl|].
    split; [apply files_kept_refl | intros chunk []].
  - cbn [for_each] in Hrun. apply bind_inv_ok in Hrun.
    destruct Hrun as ([] & wm & Hstep & Hrest).
    destruct (process_chunk_ok _ _ _ _ _ _ _ Hc Hlive Hstep)
      as (Hc' & Hlive' & Hk & p & x & Hf).
    destruct (IH wm w' Hc' Hlive' Hrest) as (Hcf & Hk' & Hfk & Hall).
    split; [exact Hcf|].
    split; [now apply shape_kept_trans with wm|].
    split; [apply files_kept_trans with wm;
            [now apply files_kept_add with p x | exact Hfk]|].
    intros chunk [<-|Hin].
    + exists w, wm. split; [exact Hc|]. split; [exact Hlive|].
      split; [apply shape_kept_refl|]. split; [exact Hstep | exact Hfk].
    + destruct (Hall chunk Hin) as (w1 & w2 & H1 & H2 & H3 & H4 & H5).
      exists w1, w2. split; [exact H1|]. split; [exact H2|].
      split; [now apply (shape_kept_trans w wm w1)|].
      split; [exact H4 | exact H5].
Qed.

(** ** What depends on the shape only *)

Section ShapeKept.

Variables w w1 : world.
Hypothesis Hkept : shape_kept w w1.


Lemma kept_is_para (l : loc) :
  live (store w) l -> is_para (store w1) l = is_para (store w) l.
Proof.
  intros Hl. destruct Hkept as [_ Hs]. destruct (Hs l Hl) as (T & _).
  unfold is_para. now rewrite T.
Qed.






End ShapeKept.


(** ** The chapter extractor returns top-level nodes *)

Lemma chapter_scan_sub (P : loc -> Prop) (h : list Element) (target : string)
    (elements : list loc) :
  Forall P elements ->
  forall (in_target found : bool) (acc : list loc),
    Forall P acc ->
    Forall P (fst (chapter_scan h target elements in_target found acc)).
Proof.
  induction 1 as [|x rest Px _ IH]; intros in_target found acc Hacc;
    cbn [chapter_scan]; [exact Hacc|].
  assert (Hacc' : Forall P (acc ++ [x]))
    by (apply Forall_app; split; [exact Hacc | now constructor]).
  destruct (String.eqb _ _).
  - destruct (_ && _); [now apply IH|].
    destruct (_ && _); [exact Hacc|].
    destruct (_ && _); [exact Hacc' | now apply IH].
  - destruct in_target; now apply IH.
Qed.

Lemma extract_chapter_content_run (self : USXSplitter) (chapter_num : scalar)
    (w : world) :
  exists lines,
    extract_chapter_content self chapter_num w
    = (Ok (fst (chapter_scan (store w) (scalar_str chapter_num)
                  (children (deref (store w) (usx_content self)))
                  false false [])),
       mkWorld (store w) (disk w) (stdout w ++ lines)).
Proof.
  unfold extract_chapter_content. rewrite bind_get_store.
  destruct (chapter_scan _ _ _ _ _ _) as [content found].
  destruct found; cbn [negb fst].
  - exists []. rewrite app_nil_r. now destruct w.
  - eexists [_]. reflexivity.
Qed.

(** ** The whole run keeps the shape of the source tree *)

Lemma extends_shape_kept (w w' : world) : extends w w' -> shape_kept w w'.
Proof.
  intros ([ext E] & _). split.
  - rewrite E, length_app. lia.
  - intros l Hl. rewrite E, deref_app_l by exact Hl. auto.
Qed.

Lemma shape_kept_store (w w' : world) :
  store w' = store w -> shape_kept w w'.
Proof. intros E. split; rewrite E; [lia | auto]. Qed.

(** One turn of the loop over the chunks, however it ends. *)
Lemma process_chunk_frame (limit : nat) (self : USXSplitter)
    (chapter_num chunk : scalar) (content : list loc) (w w' : world)
    (r : result unit) :
  closed (store w) ->
  Forall (live (store w)) content ->
  process_chunk limit self chapter_num content chunk w = (r, w') ->
  shape_kept w w'.
Proof.
  intros Hc Hlive Hrun. unfold process_chunk in Hrun.
  destruct (scalar_is chunk "title").
  - rewrite bind_get_store in Hrun.
    destruct (scalar_int chapter_num) as [n|x0];
      [rewrite bind_lift_ok in Hrun
      |rewrite bind_lift_raise in Hrun; inversion Hrun; apply shape_kept_refl].
    apply create_chunk_file_frame in Hrun;
      [|now apply extract_title_content_sub].
    now apply same_shape_app_kept in Hrun.
  - destruct (scalar_int chunk) as [cn|x0];
      [rewrite bind_lift_ok in Hrun
      |rewrite bind_lift_raise in Hrun; inversion Hrun; apply shape_kept_refl].
    unfold bind at 1 in Hrun.
    destruct (extract_verses_for_chunk content cn None w) as [[cc|x0] w1] eqn:Hex.
    + pose proof (extract_verses_for_chunk_extends _ _ _ _ _ _ Hex) as Hext.
      apply extends_shape_kept in Hext.
      apply shape_kept_trans with w1; [exact Hext|].
      pose proof (closed_deep_live_all _ _ Hc Hlive) as Hdeep.
      apply extract_verses_for_chunk_ok in Hex; [|exact Hdeep].
      destruct Hex as [-> ->].
      destruct (scalar_int chapter_num) as [n|x0];
        [rewrite bind_lift_ok in Hrun
        |rewrite bind_lift_raise in Hrun; inversion Hrun; apply shape_kept_refl].
      apply create_chunk_file_frame in Hrun.
      * now apply same_shape_app_kept in Hrun.
      * rewrite store_set_store. now apply chunk_facts.
    + inversion Hrun; subst.
      apply extends_shape_kept.
      now apply (extract_verses_for_chunk_extends _ _ _ _ _ _ Hex).
Qed.

Lemma chunk_loop_frame (limit : nat) (self : USXSplitter) (chapter_num : scalar)
    (content : list loc) (chunks : list scalar) :
  forall (w w' : world) (r : result unit),
    closed (store w) ->
    Forall (live (store w)) content ->
    for_each (process_chunk limit self chapter_num content) chunks w = (r, w') ->
    shape_kept w w' /\ (r = Ok tt -> closed (store w')).
Proof.
  induction chunks as [|c chunks IH]; intros w w' r Hc Hlive Hrun.
  - inversion Hrun; subst. split; [apply shape_kept_refl | auto].
  - cbn [for_each] in Hrun. unfold bind at 1 in Hrun.
    destruct (process_chunk limit self chapter_num content c w)
      as [[[]|x0] wm] eqn:Hstep.
    + destruct (process_chunk_ok _ _ _ _ _ _ _ Hc Hlive Hstep)
        as (Hc' & Hlive' & Hk & _).
      destruct (IH wm w' r Hc' Hlive' Hrun) as (Hk' & Hcf).
      split; [now apply shape_kept_trans with wm | exact Hcf].
    + inversion Hrun; subst. split; [|discriminate].
      now apply (process_chunk_frame _ _ _ _ _ _ _ _ Hc Hlive Hstep).
Qed.

Lemma process_chapter_frame (limit : nat) (self : USXSplitter)
    (chapter_info : toc_entry) (w w' : world) (r : result unit) :
  closed (store w) ->
  process_chapter limit self chapter_info w = (r, w') ->
  shape_kept w w' /\ (r = Ok tt -> closed (store w')).
Proof.
  intros Hc Hrun. unfold process_chapter in Hrun. rewrite bind_print in Hrun.
  set (wp := mkWorld (store w) (disk w) _) in Hrun.
  destruct (extract_chapter_content_run self (chapter chapter_info) wp)
    as (lines & Hex).
  rewrite (bind_ok _ _ _ _ _ Hex) in Hrun.
  change (store wp) with (store w) in Hrun.
  set (content := fst (chapter_scan _ _ _ _ _ _)) in Hrun.
  assert (Hlive : Forall (live (store w)) content).
  { apply chapter_scan_sub; [|constructor]. now apply closed_children_live. }
  destruct content as [|first rest].
  - inversion Hrun; subst. split; [now apply shape_kept_store | auto].
  - apply chunk_loop_frame in Hrun; [exact Hrun | exact Hc | exact Hlive].
Qed.

Lemma for_each_frame {A} (body : A -> M unit) (xs : list A) :
  (forall x w w' r,
     closed (store w) -> body x w = (r, w') ->
     shape_kept w w' /\ (r = Ok tt -> closed (store w'))) ->
  forall w w' r,
    closed (store w) -> for_each body xs w = (r, w') ->
    shape_kept w w' /\ (r = Ok tt -> closed (store w')).
Proof.
  intros Hbody. induction xs as [|x xs IH]; intros w w' r Hc Hrun.
  - inversion Hrun; subst. split; [apply shape_kept_refl | auto].
  - cbn [for_each] in Hrun. unfold bind at 1 in Hrun.
    destruct (body x w) as [[[]|x0] wm] eqn:Hstep.
    + destruct (Hbody _ _ _ _ Hc Hstep) as (Hk & Hcm).
      destruct (IH wm w' r (Hcm eq_refl) Hrun) as (Hk' & Hcf).
      split; [now apply shape_kept_trans with wm | exact Hcf].
    + inversion Hrun; subst. split; [|discriminate].
      now apply (Hbody _ _ _ _ Hc Hstep).
Qed.

Lemma front_scan_sub (P : loc -> Prop) (h : list Element)
    (elements : list loc) :
  Forall P elements ->
  forall acc, Forall P acc -> Forall P (front_scan h elements acc).
Proof.
  induction 1 as [|x rest Px _ IH]; intros acc Hacc; cbn [front_scan];
    [exact Hacc|].
  destruct (_ && _).
  - apply IH. apply Forall_app. split; [exact Hacc | now constructor].
  - destruct (String.eqb _ _); [exact Hacc | now apply IH].
Qed.

(** The front matter, however its processing ends. *)
Lemma process_front_matter_frame (limit : nat) (self : USXSplitter)
    (front_info : toc_entry) (w w' : world) (r : result unit) :
  closed (store w) ->
  process_front_matter limit self front_info w = (r, w') ->
  shape_kept w w' /\ (r = Ok tt -> closed (store w')).
Proof.
  intros Hc Hrun. unfold process_front_matter in Hrun.
  rewrite bind_print, bind_mkdir, bind_get_store in Hrun.
  set (w2 := with_dirs _ _) in Hrun.
  change (store w2) with (store w) in Hrun.
  set (content := front_scan _ _ _) in Hrun.
  assert (Hlive : Forall (live (store w)) content).
  { apply front_scan_sub; [|constructor]. now apply closed_children_live. }
  destruct content as [|first rest] eqn:Econtent.
  - inversion Hrun; subst. split; [now apply shape_kept_store | auto].
  - rewrite <- Econtent in *. clear Econtent.
    rewrite bind_new_element in Hrun. change (store w2) with (store w) in Hrun.
    erewrite bind_ok in Hrun
      by (apply for_each_append; now apply live_app_new).
    rewrite store_set_store, set_store_twice in Hrun.
    rewrite deref_app_new0, insert_app_new in Hrun.
    apply indent_write_print_shape in Hrun.
    unfold shape_only in Hrun. rewrite store_set_store in Hrun.
    change (add_children _ content) with (usx_node content) in Hrun.
    split; [now apply (same_shape_app_kept w w' [usx_node content])|].
    intros _. apply (closed_same_shape _ _ Hrun).
    exact (closed_chunk_objects (store w) 0 content true Hc Hlive).
Qed.

(** The whole run, however it ends. *)
Lemma run_frame (limit : nat) (out_dir : path) (src : sources)
    (w w' : world) (r : result unit) :
  closed (store w) ->
  run limit out_dir src w = (r, w') ->
  shape_kept w w'.
Proof.
  intros Hc Hrun. unfold run, load_toc, load_usx in Hrun.
  rewrite bind_print, bind_assoc, bind_print, bind_ret in Hrun.
  rewrite bind_assoc, bind_get_store, bind_assoc, bind_print, bind_ret in Hrun.
  rewrite bind_mkdir in Hrun.
  set (w4 := with_dirs _ _) in Hrun.
  unfold bind at 1 in Hrun.
  destruct (for_each _ (yaml_doc src) w4) as [[[]|x0] w5] eqn:Hloop.
  - apply for_each_frame in Hloop; [|clear; intros x w w' r Hc Hrun|exact Hc].
    + destruct Hloop as [Hk _]. inversion Hrun; subst.
      apply (shape_kept_trans w w5); [exact Hk | now apply shape_kept_store].
    + destruct (scalar_is (chapter x) "front");
        [now apply process_front_matter_frame in Hrun
        |now apply process_chapter_frame in Hrun].
  - inversion Hrun; subst.
    apply for_each_frame in Hloop; [|clear; intros x w w' r Hc Hrun|exact Hc].
    + apply Hloop.
    + destruct (scalar_is (chapter x) "front");
        [now apply process_front_matter_frame in Hrun
        |now apply process_chapter_frame in Hrun].
Qed.

(** ** Runs that end normally *)

Lemma depth_le_same_shape (h h' : list Element) (n : nat) :
  same_shape h h' -> forall l, depth_le h n l -> depth_le h' n l.
Proof.
  intros Hs. induction n as [|n IH]; intros l; cbn [depth_le]; [auto|].
  destruct Hs as [_ S3]. destruct (S3 l) as (_ & _ & ->).
  intros Hd. apply Forall_impl with (1 := Hd). exact IH.
Qed.

Lemma depth_le_kept (w w1 : world) (n : nat) :
  shape_kept w w1 -> closed (store w) ->
  forall l, live (store w) l ->
            depth_le (store w) n l -> depth_le (store w1) n l.
Proof.
  intros Hk Hc. induction n as [|n IH]; intros l Hl; cbn [depth_le]; [auto|].
  destruct Hk as [_ S3]. destruct (S3 l Hl) as (_ & _ & ->).
  intros Hd. rewrite closed_deref in Hc. specialize (Hc l Hl).
  induction Hd as [|k ks Hk _ IHd]; [constructor|].
  inversion Hc; subst. constructor; auto.
Qed.

Lemma depth_le_app (h ext : list Element) (n : nat) :
  closed h ->
  forall l, live h l -> depth_le h n l -> depth_le (h ++ ext) n l.
Proof.
  intros Hc l Hl.
  apply (depth_le_kept (mkWorld h (mkFilesys [] []) [])
           (mkWorld (h ++ ext) (mkFilesys [] []) []) n); auto.
  apply extends_shape_kept. split; [now exists ext | auto].
Qed.

Lemma for_each_ok {A} (Inv : world -> Prop) (body : A -> M unit)
    (xs : list A) :
  Forall (fun x => forall w, Inv w ->
                     exists w', body x w = (Ok tt, w') /\ Inv w') xs ->
  forall w, Inv w -> exists w', for_each body xs w = (Ok tt, w') /\ Inv w'.
Proof.
  induction 1 as [|x xs Hx _ IH]; intros w Hw; cbn [for_each].
  - exists w. now split.
  - destruct (Hx w Hw) as (w1 & Hstep & Hw1).
    destruct (IH w1 Hw1) as (w2 & Hrest & Hw2).
    exists w2. split; [|exact Hw2]. now rewrite (bind_ok _ _ _ _ _ Hstep).
Qed.

Lemma set_if_blank_ok (b : bool) (m : M unit) (w : world) :
  preserves text_only m ->
  (forall w0, exists w1, m w0 = (Ok tt, w1)) ->
  exists w', (if b then m else ret tt) w = (Ok tt, w') /\ text_only w w'.
Proof.
  intros Hp Hm. destruct b.
  - destruct (Hm w) as (w1 & E). exists w1. split; [exact E|].
    now apply (Hp _ _ _ E).
  - exists w. split; [reflexivity | apply text_only_refl].
Qed.

Lemma set_text_runs (l : loc) (t : string) (w0 : world) :
  exists w1, set_text l t w0 = (Ok tt, w1).
Proof. eexists. reflexivity. Qed.

Lemma set_tail_runs (l : loc) (t : string) (w0 : world) :
  exists w1, set_tail l t w0 = (Ok tt, w1).
Proof. eexists. reflexivity. Qed.

(** With a stack deep enough for the tree, [_indent_xml] ends normally. *)
Lemma indent_ok (fuel : nat) :
  forall (elem : loc) (level : nat) (w : world),
    depth_le (store w) fuel elem ->
    exists w', _indent_xml fuel elem level w = (Ok tt, w').
Proof.
  induction fuel as [|fuel IH]; intros elem level w Hd; [contradiction|].
  cbn [depth_le] in Hd. cbn [_indent_xml]. rewrite bind_get_store.
  set (i := newline +:+ PyStr.spaces2 level).
  set (kids := children (deref (store w) elem)) in *.
  destruct (0 <? length kids)%nat.
  - destruct (set_if_blank_ok (blank (text (deref (store w) elem)))
                (set_text elem (i +:+ "  ")) w
                (preserves_set_text _ _) (set_text_runs _ _))
      as (w1 & E1 & T1).
    rewrite (bind_ok _ _ _ _ _ E1).
    assert (E2' : exists w2,
              (let* h1 := get_store in
               if blank (tail (deref h1 elem)) then set_tail elem i else ret tt)
                w1 = (Ok tt, w2) /\ text_only w1 w2).
    { rewrite bind_get_store.
      apply set_if_blank_ok; auto using preserves_set_tail, set_tail_runs. }
    destruct E2' as (w2 & E2 & T2). rewrite (bind_ok _ _ _ _ _ E2).
    pose proof (text_only_trans _ _ _ T1 T2) as T12.
    destruct (for_each_ok (fun w0 => text_only w w0)
                (fun child => _indent_xml fuel child (S level)) kids) with (w := w2)
      as (w3 & E3 & T3); [|exact T12|].
    + apply Forall_impl with (1 := Hd). intros k Hk w0 Hw0.
      destruct (IH k (S level) w0) as (w' & E).
      * apply (depth_le_same_shape (store w) (store w0)); [apply Hw0 | exact Hk].
      * exists w'. split; [exact E|].
        apply text_only_trans with w0; [exact Hw0|].
        now apply (indent_text_only _ _ _ _ _ _ E).
    + rewrite (bind_ok _ _ _ _ _ E3).
      destruct (last kids) as [child|]; [|eexists; reflexivity].
      rewrite bind_get_store.
      destruct (blank (tail (deref (store w3) child))); eexists; reflexivity.
  - destruct (negb (level =? 0)%nat && blank (tail (deref (store w) elem)));
      eexists; reflexivity.
Qed.

(** With a stack deep enough for the tree, the serialiser ends normally. *)
Lemma serialize_ok (h : list Element) (fuel : nat) :
  forall l, depth_le h fuel l -> is_Some (serialize fuel h l).
Proof.
  induction fuel as [|fuel IH]; intros l Hd; [contradiction|].
  cbn [depth_le] in Hd. cbn [serialize].
  assert (Hk : is_Some (mapM (serialize fuel h) (children (deref h l)))).
  { apply mapM_is_Some. apply Forall_impl with (1 := Hd). intros k Hk.
    now apply IH. }
  destruct Hk as [kids ->]. eauto.
Qed.

Lemma indent_write_print_ok (limit : nat) (root : loc) (p : path)
    (line : string) (w : world) :
  depth_le (store w) limit root ->
  exists w',
    (_indent_xml limit root 0 ;; write limit root p ;; print line) w
    = (Ok tt, w').
Proof.
  intros Hd. destruct (indent_ok limit root 0%nat w Hd) as (w1 & E1).
  rewrite (bind_ok _ _ _ _ _ E1).
  apply indent_text_only in E1. destruct E1 as (Hs & _).
  pose proof (depth_le_same_shape _ _ limit Hs root Hd) as Hd1.
  destruct (serialize_ok _ _ _ Hd1) as [x Hx].
  unfold bind, write. rewrite Hx. eexists. reflexivity.
Qed.

(** With a stack deep enough for the content, [create_chunk_file] ends
    normally. *)
Lemma create_chunk_file_total (limit : nat) (self : USXSplitter)
    (chapter_num chunk_num : Z) (content : list loc) (is_title : bool)
    (w : world) :
  closed (store w) ->
  Forall (live (store w)) content ->
  Forall (depth_le (store w) (pred limit)) content ->
  (2 <= limit)%nat ->
  exists w',
    create_chunk_file limit self chapter_num chunk_num content is_title w
    = (Ok tt, w').
Proof.
  intros Hc Hlive Hdepth Hlimit.
  rewrite (create_chunk_file_run _ _ _ _ _ _ _ Hlive).
  apply indent_write_print_ok. rewrite store_set_store.
  change (store (with_dirs w (chunk_dir self chapter_num))) with (store w).
  set (h := store w) in *.
  destruct limit as [|[|m]]; [lia | lia |]. cbn [pred] in Hdepth.
  assert (Hcontent : forall ext, Forall (depth_le (h ++ ext) (S m)) content).
  { intros ext. rewrite Forall_forall in Hlive, Hdepth. apply Forall_forall.
    intros x Hx. apply depth_le_app; auto. }
  cbn [depth_le]. unfold chunk_objects. cbv zeta.
  destruct is_title; [|destruct (existsb (is_chapter_end h) content)];
    rewrite deref_app_new0; cbn [children usx_node].
  - apply Hcontent.
  - constructor; [|apply Hcontent].
    cbn [depth_le]. rewrite deref_app_new1. constructor.
  - constructor; [cbn [depth_le]; rewrite deref_app_new1; constructor|].
    apply Forall_app. split; [apply Hcontent|].
    constructor; [|constructor].
    cbn [depth_le]. rewrite deref_app_new2. constructor.
Qed.

(** The entries of a chunk are no deeper than the elements they answer to. *)
Lemma chunk_depth (h : list Element) (s e : Z) (content : list loc) (m : nat) :
  closed h ->
  Forall (deep_live h) content ->
  Forall (depth_le h m) content ->
  Forall (depth_le (h ++ snd (chunk_model h s e content (length h))) m)
    (fst (chunk_model h s e content (length h))).
Proof.
  intros Hc Hlive Hdepth.
  pose proof (chunk_entries h s e content Hlive) as H2.
  assert (H1 : Forall (fun x => deep_live h x /\ depth_le h m x)
                 (List.filter (contributes h s e) content)).
  { apply Forall_bfilter. rewrite Forall_forall in Hlive, Hdepth.
    apply Forall_forall. intros x Hx. split; auto. }
  set (ext := snd (chunk_model h s e content (length h))) in *.
  induction H2 as [|x y xs ys Hxy _ IH]; [constructor|].
  inversion H1 as [|? ? [[Hx Hk] Hd] H1']; subst.
  constructor; [|now apply IH].
  destruct (is_para h x).
  - destruct Hxy as [_ Hl]. destruct m as [|m]; [contradiction|].
    cbn [depth_le] in *. rewrite (deref_live _ _ _ Hl).
    unfold para_copy_of. cbn [children]. apply Forall_bfilter.
    rewrite Forall_forall in Hk, Hd. apply Forall_forall. intros k Hin.
    apply depth_le_app; auto.
  - subst y. now apply depth_le_app.
Qed.

Lemma kept_all_parse (w w1 : world) (content : list loc) :
  shape_kept w w1 ->
  Forall (deep_live (store w)) content ->
  all_parse (store w) content -> all_parse (store w1) content.
Proof.
  intros Hk Hlive Hp. unfold all_parse in *.
  rewrite Forall_forall in Hlive, Hp. apply Forall_forall. intros x Hx.
  destruct (Hlive x Hx) as [Hxl Hkids].
  rewrite (kept_is_para w w1 Hk x Hxl). intros Tp. specialize (Hp x Hx Tp).
  destruct Hk as [Hlen S3]. destruct (S3 x Hxl) as (_ & _ & ->).
  unfold verses_parse in *. rewrite Forall_forall in Hkids, Hp.
  apply Forall_forall. intros k Hin.
  destruct (S3 k (Hkids k Hin)) as (T & A & _).
  unfold is_verse, verse_num, get. rewrite T, A. now apply Hp.
Qed.

(** A turn of the loop over the chunks ends normally when the numbers are
    numbers and the stack is deep enough. *)
Lemma process_chunk_total (limit : nat) (self : USXSplitter)
    (chapter_num chunk : scalar) (content : list loc) (n : Z) (w : world) :
  closed (store w) ->
  Forall (live (store w)) content ->
  scalar_int chapter_num = Ok n ->
  (scalar_is chunk "title" = false -> exists cn, scalar_int chunk = Ok cn) ->
  all_parse (store w) content ->
  Forall (depth_le (store w) (pred limit)) content ->
  (2 <= limit)%nat ->
  exists w', process_chunk limit self chapter_num content chunk w = (Ok tt, w').
Proof.
  intros Hc Hlive Hn Hcn Hparse Hdepth Hlimit. unfold process_chunk.
  pose proof (closed_deep_live_all _ _ Hc Hlive) as Hdeep.
  destruct (scalar_is chunk "title").
  - rewrite bind_get_store, Hn, bind_lift_ok.
    apply create_chunk_file_total; auto using extract_title_content_sub.
  - destruct (Hcn eq_refl) as [cn ->]. rewrite bind_lift_ok.
    unfold extract_verses_for_chunk. cbn [default].
    rewrite (bind_ok _ _ _ _ _ (chunk_scan_parse cn cn content w [] Hdeep Hparse)).
    rewrite Hn, bind_lift_ok. cbn [app].
    apply create_chunk_file_total; rewrite ?store_set_store; auto.
    + now apply closed_chunk_model.
    + now apply chunk_facts.
    + now apply chunk_depth.
Qed.

(** The loop over the chunks ends normally under the same provisos. *)
Lemma chunk_loop_total (limit : nat) (self : USXSplitter)
    (chapter_num : scalar) (content : list loc) (n : Z)
    (chunks : list scalar) (w : world) :
  closed (store w) ->
  Forall (live (store w)) content ->
  scalar_int chapter_num = Ok n ->
  Forall (fun chunk => scalar_is chunk "title" = false ->
                       exists cn, scalar_int chunk = Ok cn) chunks ->
  all_parse (store w) content ->
  Forall (depth_le (store w) (pred limit)) content ->
  (2 <= limit)%nat ->
  exists w',
    for_each (process_chunk limit self chapter_num content) chunks w
    = (Ok tt, w').
Proof.
  intros Hc Hlive Hn Hchunks Hparse Hdepth Hlimit.
  pose proof (closed_deep_live_all _ _ Hc Hlive) as Hdeep.
  destruct (for_each_ok
              (fun w1 => closed (store w1) /\ Forall (live (store w1)) content
                         /\ shape_kept w w1)
              (process_chunk limit self chapter_num content) chunks)
    with (w := w) as (w' & Hrun & _).
  - apply Forall_impl with (1 := Hchunks).
    intros chunk Hcn w1 (Hc1 & Hlive1 & Hk1).
    destruct (process_chunk_total limit self chapter_num chunk content n w1)
      as (w2 & Hstep); auto.
    + now apply (kept_all_parse w w1).
    + rewrite Forall_forall in Hlive, Hdepth. apply Forall_forall.
      intros x Hx. apply (depth_le_kept w w1); auto.
    + exists w2. split; [exact Hstep|].
      destruct (process_chunk_ok _ _ _ _ _ _ _ Hc1 Hlive1 Hstep)
        as (Hc2 & Hlive2 & Hk2 & _).
      split; [exact Hc2|]. split; [exact Hlive2|].
      now apply shape_kept_trans with w1.
  - split; [exact Hc|]. split; [exact Hlive | apply shape_kept_refl].
  - now exists w'.
Qed.

(** * The specification, claim by claim *)

(** ** The chapter extractor *)

(** Inside the target chapter, a chapter-tagged node whose number is not the
    target's (an end marker carries no number at all) ends the scan and is
    left out: the second test of the loop catches it before the third one,
    which would have kept it. *)
Lemma chapter_scan_stops_before (h : heap) (target : string) (x : loc)
    (rest acc : list loc) (found : bool) :
  is_chapter h x = true ->
  opt_is (get h x "number") target = false ->
  chapter_scan h target (x :: rest) true found acc = (acc, found).
Proof.
  unfold is_chapter. intros Hc Hn. cbn [chapter_scan]. now rewrite Hc, Hn.
Qed.

(** Inside the target chapter, the scan keeps a run of consecutive nodes and
    stops; a chapter-tagged node that it keeps carries the target's number. *)
Lemma chapter_scan_inside (h : heap) (target : string) (elements : list loc) :
  forall acc : list loc,
  exists seg post,
    elements = seg ++ post
    /\ chapter_scan h target elements true true acc = (acc ++ seg, true)
    /\ Forall (fun x => is_chapter h x = true ->
                        opt_is (get h x "number") target = true) seg.
Proof.
  induction elements as [|x rest IH]; intros acc.
  - exists [], []. cbn. rewrite app_nil_r. repeat split; constructor.
  - cbn [chapter_scan]. unfold is_chapter.
    destruct (String.eqb (tag (deref h x)) "chapter") eqn:Tc.
    + destruct (opt_is (get h x "number") target) eqn:Tn; cbn [negb andb].
      * destruct (not_None (get h x "eid")) eqn:Te; cbn [negb andb].
        -- exists [x], rest. repeat split; [repeat constructor].
           unfold is_chapter. now rewrite Tn.
        -- destruct (IH (acc ++ [x])) as (seg & post & -> & Hrun & Hseg).
           exists (x :: seg), post. rewrite Hrun, <- app_assoc.
           repeat split. constructor; [now rewrite Tn | exact Hseg].
      * exists [], (x :: rest). rewrite app_nil_r. repeat split; constructor.
    + destruct (IH (acc ++ [x])) as (seg & post & -> & Hrun & Hseg).
      exists (x :: seg), post. rewrite Hrun, <- app_assoc.
      repeat split. constructor; [|exact Hseg].
      unfold is_chapter. now rewrite Tc.
Qed.

(** What the chapter extractor collects: after a stretch without start marker
    of the target, a run of consecutive top-level nodes that begins with a
    start marker of the target; or nothing. *)
Lemma chapter_scan_segment (h : heap) (target : string) (elements : list loc) :
  exists pre seg post,
    elements = pre ++ seg ++ post
    /\ Forall (fun x => is_start_of h target x = false) pre
    /\ chapter_scan h target elements false false []
       = (seg, match seg with [] => false | _ :: _ => true end)
    /\ match seg with
       | [] => post = []
       | x :: _ => is_start_of h target x = true
       end
    /\ Forall (fun x => is_chapter h x = true ->
                        opt_is (get h x "number") target = true) seg.
Proof.
  induction elements as [|x rest IH].
  - exists [], [], []. repeat split; constructor.
  - cbn [chapter_scan]. unfold is_start_of, is_chapter.
    destruct (IH) as (pre & seg & post & -> & Hpre & Hrun & Hhead & Hseg).
    assert (Hskip : is_start_of h target x = false ->
              exists pre0 seg0 post0,
                x :: pre ++ seg ++ post = pre0 ++ seg0 ++ post0
                /\ Forall (fun y => is_start_of h target y = false) pre0
                /\ chapter_scan h target (pre ++ seg ++ post) false false []
                   = (seg0, match seg0 with [] => false | _ :: _ => true end)
                /\ match seg0 with
                   | [] => post0 = []
                   | y :: _ => is_start_of h target y = true
                   end
                /\ Forall (fun y => is_chapter h y = true ->
                                    opt_is (get h y "number") target = true)
                     seg0).
    { intros Hx. exists (x :: pre), seg, post.
      repeat split; auto; now constructor. }
    unfold is_start_of, is_chapter in Hskip.
    destruct (String.eqb (tag (deref h x)) "chapter") eqn:Tc.
    + destruct (opt_is (get h x "number") target
                && negb (not_None (get h x "eid"))) eqn:Tstart.
      * destruct (chapter_scan_inside h target (pre ++ seg ++ post) [x])
          as (seg1 & post1 & E & Hrun1 & Hseg1).
        exists [], (x :: seg1), post1. cbn [app]. rewrite Hrun1, E.
        split; [reflexivity|]. split; [constructor|]. split; [reflexivity|].
        split; [now rewrite Tc|].
        constructor; [|exact Hseg1]. intros _.
        now apply andb_prop in Tstart.
      * rewrite !andb_false_r. now apply Hskip.
    + now apply Hskip.
Qed.

(** C1, at a failing input.  Chapter 1 of the sample document is closed by the
    explicit end marker [<chapter eid="REV 1"/>] (object 7).  The extractor
    returns the start marker and the two paragraphs (objects 4, 5, 6) and
    stops in front of the end marker, which it does not return. *)
Theorem extract_chapter_content_drops_end_marker :
  is_end_marker Sample.doc 7%nat = true
  /\ extract_chapter_content Sample.splitter (YInt 1) Sample.world0
     = (Ok [4; 5; 6]%nat, Sample.world0).
Proof. split; reflexivity. Qed.

Lemma chapter_scan_no_start (h : heap) (target : string) (elements : list loc) :
  Forall (fun x => is_start_of h target x = false) elements ->
  chapter_scan h target elements false false [] = ([], false).
Proof.
  induction 1 as [|x rest Hx _ IH]; cbn [chapter_scan]; [reflexivity|].
  unfold is_start_of, is_chapter in Hx.
  destruct (String.eqb (tag (deref h x)) "chapter"); [|exact IH].
  cbn [andb] in Hx. rewrite Hx. now rewrite !andb_false_r.
Qed.

(** C7.  When no top-level node is a start marker of the requested chapter
    (chapter-tagged, with that number and without end-id), the chapter
    extractor prints its warning and returns the empty list, normally; and
    the chunk extractor, given the empty list, returns the empty chunk,
    normally and without touching anything. *)
Theorem missing_chapter_is_not_fatal (self : USXSplitter) (chapter_num : scalar)
    (w : world) (start_verse : Z) (end_verse : option Z) :
  Forall (fun x => is_start_of (store w) (scalar_str chapter_num) x = false)
    (children (deref (store w) (usx_content self))) ->
  extract_chapter_content self chapter_num w
  = (Ok [],
     mkWorld (store w) (disk w)
       (stdout w ++ ["Warning: Chapter " +:+ scalar_str chapter_num
                     +:+ " start marker not found"]))
  /\ forall w0 : world,
       extract_verses_for_chunk [] start_verse end_verse w0 = (Ok [], w0).
Proof.
  intros Hno. split; [|reflexivity].
  unfold extract_chapter_content. rewrite bind_get_store.
  now rewrite (chapter_scan_no_start _ _ _ Hno).
Qed.

Lemma missing_chapter_is_not_fatal_witness :
  extract_chapter_content Sample.splitter (YInt 7) Sample.world0
  = (Ok [],
     mkWorld Sample.doc (mkFilesys [] [])
       ["Warning: Chapter 7 start marker not found"])
  /\ forall w0 : world, extract_verses_for_chunk [] 1 None w0 = (Ok [], w0).
Proof.
  apply (missing_chapter_is_not_fatal Sample.splitter (YInt 7) Sample.world0).
  vm_compute. repeat constructor.
Defined.

(** ** Front matter *)

(** A book node with the style [id] (the style that [create_chunk_file]
    itself gives to book nodes) is passed over by the front-matter loop. *)
Lemma front_scan_skips_book (h : heap) (x : loc) (rest acc : list loc) :
  tag (deref h x) = "book" ->
  get h x "style" = Some "id" ->
  front_scan h (x :: rest) acc = front_scan h rest acc.
Proof. intros Ht Hs. cbn [front_scan]. now rewrite Ht, Hs. Qed.

(** C5, at a failing input.  The sample document starts with a book node
    (object 1) followed by two heading paragraphs (styles [h] and [mt1]) and
    the first chapter marker.  [front/title.usx] is written with the two
    paragraphs only: the book node is not in it. *)
Theorem front_matter_leaves_book_out :
  shape_of Sample.doc 1%nat = ("book", [("code", "REV"); ("style", "id")])
  /\ top_nodes <$>
       read_file
         (disk (snd (process_front_matter Sample.limit Sample.splitter
                       (TocEntry (YStr "front") []) Sample.world0)))
         ["out"; "front"; "title.usx"]
     = Some [("para", [("style", "h")]); ("para", [("style", "mt1")])].
Proof. split; vm_compute; reflexivity. Qed.

(** ** The command line *)

(** The exit status and the world after [main] do not depend on the book code
    and the book title given on the command line. *)
Lemma cli_main_ignores_book_options (limit : nat) (a : arguments)
    (code title : string) (usx : option loc) (toc : option (list toc_entry))
    (w : world) :
  cli_main limit
    (mkArguments (usx_file a) (toc_file a) (arg_output_dir a) code title
       (verbose a)) usx toc w
  = cli_main limit a usx toc w.
Proof. reflexivity. Qed.

(** C6, at a failing input.  With [--book-code GEN] and a TOC asking for
    verse 1 of chapter 1, the run succeeds (exit status 0) and writes
    [out/01/01.usx]; its book node carries the code [REV] and its
    synthesized end marker the identifier [REV 1]: the option is ignored. *)
Theorem book_code_option_is_ignored :
  book_code Sample.args = "GEN"
  /\ fst (cli_main Sample.limit Sample.args (Some 0%nat)
            (Some [TocEntry (YInt 1) [YInt 1]]) Sample.world0) = Ok 0
  /\ top_nodes <$>
       read_file
         (disk (snd (cli_main Sample.limit Sample.args (Some 0%nat)
                       (Some [TocEntry (YInt 1) [YInt 1]]) Sample.world0)))
         ["out"; "01"; "01.usx"]
     = Some [("book", [("code", "REV"); ("style", "id")]);
             ("chapter", [("number", "1"); ("style", "c"); ("sid", "REV 1")]);
             ("para", [("style", "p")]);
             ("chapter", [("eid", "REV 1")])].
Proof. repeat split; vm_compute; reflexivity. Qed.

(** ** Verse markers without a number *)

(** C9.  A verse marker without [number] attribute counts as verse 0.  For a
    range that starts at 1 or later it is therefore out of range: taking it
    out of a list of children does not change the answer of the first loop
    (it never makes its paragraph count as having a verse in range), and no
    copy returned by [extract_verses_from_para] has it among its children. *)
Theorem unnumbered_verse_is_verse_zero (w : world) (v : loc)
    (start_verse end_verse : Z) :
  is_verse (store w) v = true ->
  get (store w) v "number" = None ->
  1 <= start_verse ->
  verse_num (store w) v = Ok 0
  /\ (forall pre post : list loc,
        has_verses_in_range (store w) (pre ++ v :: post) start_verse end_verse
        = has_verses_in_range (store w) (pre ++ post) start_verse end_verse)
  /\ (forall (para c : loc) (w' : world),
        Forall (live (store w)) (children (deref (store w) para)) ->
        extract_verses_from_para para start_verse end_verse w
        = (Ok (Some c), w') ->
        ~ In v (children (deref (store w') c))).
Proof.
  intros Hv Hn Hs.
  assert (Hnum : verse_num (store w) v = Ok 0) by (unfold verse_num; now rewrite Hn).
  assert (Hout : in_range start_verse end_verse 0 = false).
  { unfold in_range. apply andb_false_intro1. apply Z.leb_gt. lia. }
  split; [exact Hnum|]. split.
  - intros pre post. induction pre as [|k pre IH]; cbn [app has_verses_in_range].
    + unfold is_verse in Hv. now rewrite Hv, Hnum, Hout.
    + now rewrite IH.
  - intros para c w' Hlive Hrun Hin.
    apply extract_verses_from_para_ok in Hrun; [|exact Hlive].
    destruct Hrun as [(_ & Hr & _) | (_ & Hr & ->)]; [discriminate|].
    inversion Hr; subst c. rewrite store_set_store, deref_app_new in Hin.
    unfold para_copy_of in Hin. cbn [children] in Hin.
    apply List.filter_In in Hin. destruct Hin as [_ Hk].
    unfold kept, verse_hit in Hk. now rewrite Hv, Hnum, Hout in Hk.
Qed.

Lemma unnumbered_verse_is_verse_zero_witness :
  verse_num Sample.doc 15%nat = Ok 0
  /\ (forall pre post : list loc,
        has_verses_in_range Sample.doc (pre ++ 15%nat :: post) 1 1
        = has_verses_in_range Sample.doc (pre ++ post) 1 1)
  /\ (forall (para c : loc) (w' : world),
        Forall (live Sample.doc) (children (deref Sample.doc para)) ->
        extract_verses_from_para para 1 1 Sample.world0 = (Ok (Some c), w') ->
        ~ In 15%nat (children (deref (store w') c))).
Proof.
  apply (unnumbered_verse_is_verse_zero Sample.world0 15%nat 1 1);
    [reflexivity | reflexivity | lia].
Defined.

(** ** Slicing a paragraph *)

Lemma verse_numbered_live (h : heap) (v : loc) (n : Z) :
  verse_numbered h v n -> live h v.
Proof.
  intros [Hv _]. apply tagged_live. unfold is_verse in Hv.
  apply String.eqb_eq in Hv. rewrite Hv. discriminate.
Qed.

Lemma verse_numbered_hit (h : heap) (v : loc) (n s e : Z) :
  verse_numbered h v n -> verse_hit h s e v = in_range s e n.
Proof. intros [Hv Hn]. unfold verse_hit. now rewrite Hv, Hn. Qed.

Lemma verse_numbered_kept (h : heap) (v : loc) (n s e : Z) :
  verse_numbered h v n -> kept h s e v = in_range s e n.
Proof.
  intros Hv. unfold kept. rewrite (verse_numbered_hit _ _ _ _ _ Hv).
  destruct Hv as [-> _]. reflexivity.
Qed.

Lemma verse_numbered_parse (h : heap) (v : loc) (n : Z) :
  verse_numbered h v n ->
  is_verse h v = true -> exists m, verse_num h v = Ok m.
Proof. intros [_ Hn] _. eauto. Qed.

Lemma add_tail_empty (t : option string) : add_tail "" t = default "" t.
Proof. destruct t as [[|a s]|]; reflexivity. Qed.

Lemma default_falsy_empty (t : option string) :
  opt_truthy t = false -> default "" t = "".
Proof. destruct t as [[|a s]|]; [reflexivity | discriminate | reflexivity]. Qed.

(** C2, as stated, fails.  The paragraph of the sample document (object 6) has
    the leading text ["Lead "] and the verses 1 to 5; the copy made for verse
    3 has the text ["Lead three "], the leading text included, and not just
    the trailing text of verse 3. *)
Lemma leading_text_is_copied :
  (exists w',
     extract_verses_from_para 6%nat 3 3 Sample.world0 = (Ok (Some 16%nat), w')
     /\ children (deref (store w') 16%nat) = [12%nat]
     /\ text (deref (store w') 16%nat) = Some "Lead three ")
  /\ ~ (exists c w',
          extract_verses_from_para 6%nat 3 3 Sample.world0 = (Ok (Some c), w')
          /\ text (deref (store w') c) = tail (deref Sample.doc 12%nat)).
Proof.
  split.
  - eexists. split; [vm_compute; reflexivity|]. split; reflexivity.
  - intros (c & w' & Hrun & Ht). vm_compute in Hrun.
    inversion Hrun; subst. vm_compute in Ht. discriminate.
Qed.

(** C2, amended.  For a paragraph whose children are five verse markers
    numbered 1 to 5, the request for verse 3 alone returns a new element, at
    the end of the store, with the tag and the attributes of the paragraph
    and the marker of verse 3 as its only child (the marker itself, with its
    trailing text as tail).  The text of the copy is the leading text of the
    paragraph followed by the trailing text of verse 3, or nothing when that
    is blank.  Markers and trailing texts of the other verses are not in the
    copy, and nothing else changes. *)
Theorem single_verse_slice (w : world) (para v1 v2 v3 v4 v5 : loc) :
  children (deref (store w) para) = [v1; v2; v3; v4; v5] ->
  verse_numbered (store w) v1 1 ->
  verse_numbered (store w) v2 2 ->
  verse_numbered (store w) v3 3 ->
  verse_numbered (store w) v4 4 ->
  verse_numbered (store w) v5 5 ->
  extract_verses_from_para para 3 3 w
  = (Ok (Some (length (store w))),
     set_store w
       (store w
        ++ [mkElement (tag (deref (store w) para))
              (attrib (deref (store w) para))
              (joined_text (text (deref (store w) para))
                 (tail (deref (store w) v3)))
              None [v3]])).
Proof.
  intros Hkids H1 H2 H3 H4 H5. set (h := store w) in *.
  assert (Hlive : Forall (live h) (children (deref h para))).
  { rewrite Hkids. repeat constructor; eapply verse_numbered_live; eauto. }
  assert (Hparse : verses_parse h (children (deref h para))).
  { rewrite Hkids. repeat constructor; eapply verse_numbered_parse; eauto. }
  assert (Hkept : List.filter (kept h 3 3) (children (deref h para)) = [v3]).
  { rewrite Hkids. cbn [List.filter].
    rewrite (verse_numbered_kept _ _ _ 3 3 H1), (verse_numbered_kept _ _ _ 3 3 H2),
      (verse_numbered_kept _ _ _ 3 3 H3), (verse_numbered_kept _ _ _ 3 3 H4),
      (verse_numbered_kept _ _ _ 3 3 H5).
    reflexivity. }
  assert (Hhit : para_hit h 3 3 para = true).
  { unfold para_hit. rewrite Hkids. cbn [existsb].
    rewrite (verse_numbered_hit _ _ _ 3 3 H3). cbn. now rewrite !orb_true_r. }
  rewrite (extract_verses_from_para_hit w para 3 3 Hlive Hparse Hhit).
  fold h. f_equal. f_equal. f_equal. f_equal.
  unfold para_copy_of, copied_text. rewrite Hkept.
  unfold gather. cbn [fold_left]. rewrite add_tail_empty.
  unfold joined_text.
  destruct (opt_truthy (text (deref h para))) eqn:Ht; [reflexivity|].
  now rewrite (default_falsy_empty _ Ht).
Qed.

Lemma single_verse_slice_witness :
  extract_verses_from_para 6%nat 3 3 Sample.world0
  = (Ok (Some 16%nat),
     set_store Sample.world0
       (Sample.doc
        ++ [mkElement "para" [("style", "p")] (Some "Lead three ") None
              [12%nat]])).
Proof.
  apply (single_verse_slice Sample.world0 6%nat 10%nat 11%nat 12%nat 13%nat
           14%nat); [reflexivity | split; reflexivity ..].
Defined.

(** ** The chunk extractor *)

(** C8.  Whenever the chunk extractor ends normally, the entries of the chunk
    answer one by one, in order, to the contributing elements of the chapter:
    the chapter start markers, listed themselves, and the paragraphs with a
    verse in range, each listed through a new object, its copy.  For a
    paragraph of the chapter without a verse in range,
    [extract_verses_from_para] returns [None] and creates nothing. *)
Theorem chunk_has_matching_paragraphs_only (w w' : world)
    (content chunk : list loc) (start_verse : Z) (end_verse : option Z) :
  Forall (deep_live (store w)) content ->
  extract_verses_for_chunk content start_verse end_verse w = (Ok chunk, w') ->
  Forall2
    (fun x y =>
       if is_para (store w) x
       then ~ live (store w) y
            /\ store w' !! y
               = Some (para_copy_of (store w) start_verse
                         (default start_verse end_verse) x)
       else y = x)
    (List.filter
       (contributes (store w) start_verse (default start_verse end_verse))
       content)
    chunk
  /\ forall para : loc,
       In para content ->
       is_para (store w) para = true ->
       para_hit (store w) start_verse (default start_verse end_verse) para
       = false ->
       extract_verses_from_para para start_verse
         (default start_verse end_verse) w
       = (Ok None, w).
Proof.
  intros Hlive Hrun.
  pose proof (chunk_scan_ok_parse _ _ _ _ _ _ _ Hlive Hrun) as Hparse.
  apply extract_verses_for_chunk_ok in Hrun; [|exact Hlive].
  destruct Hrun as [-> ->]. rewrite store_set_store. split.
  - eapply Forall2_impl; [now apply chunk_entries|].
    intros x y. cbv beta. destruct (is_para (store w) x); [|auto].
    intros [Hle Hl]. split; [unfold live; lia | exact Hl].
  - intros para Hin Hp Hmiss. apply extract_verses_from_para_miss; [|exact Hmiss].
    unfold all_parse in Hparse. rewrite Forall_forall in Hparse.
    apply Hparse; [now apply list_elem_of_In | exact Hp].
Qed.

Lemma chunk_has_matching_paragraphs_only_witness :
  Forall2
    (fun x y =>
       if is_para Sample.doc x
       then ~ live Sample.doc y
            /\ store (snd (extract_verses_for_chunk [4; 5; 6]%nat 3 None
                             Sample.world0)) !! y
               = Some (para_copy_of Sample.doc 3 3 x)
       else y = x)
    (List.filter (contributes Sample.doc 3 3) [4; 5; 6]%nat)
    [4; 16]%nat
  /\ forall para : loc,
       In para [4; 5; 6]%nat ->
       is_para Sample.doc para = true ->
       para_hit Sample.doc 3 3 para = false ->
       extract_verses_from_para para 3 3 Sample.world0 = (Ok None, Sample.world0).
Proof.
  apply (chunk_has_matching_paragraphs_only Sample.world0
           (snd (extract_verses_for_chunk [4; 5; 6]%nat 3 None Sample.world0))
           [4; 5; 6]%nat [4; 16]%nat 3 None).
  - repeat constructor; vm_compute; lia.
  - vm_compute. reflexivity.
Defined.

(** ** Chunk files *)

Lemma filter_end_chunk_nodes (h : heap) (s e : Z) (content : list loc) (n : Z) :
  Forall (deep_live h) content ->
  List.filter shape_is_end
    (book_shape
     :: map (shape_of h) (List.filter (contributes h s e) content)
     ++ [end_shape n])
  = [end_shape n].
Proof.
  intros Hlive. destruct (chunk_facts h s e content Hlive) as (_ & _ & _ & Hno).
  cbn [List.filter]. change (shape_is_end book_shape) with false. cbv iota.
  rewrite List.filter_app, Hno. reflexivity.
Qed.

Lemma is_chapter_end_shape (h : heap) (x : loc) :
  is_chapter_end h x = shape_ends (shape_of h x).
Proof.
  unfold is_chapter_end, shape_ends, shape_of, get. cbn [fst snd].
  destruct (attr_get "eid" (attrib (deref h x))) as [[|c r]|]; reflexivity.
Qed.

Lemma existsb_count {A} (f : A -> bool) (l : list A) :
  existsb f l = negb (length (List.filter f l) =? 0)%nat.
Proof.
  induction l as [|x l IH]; cbn [existsb List.filter]; [reflexivity|].
  destruct (f x); [reflexivity | exact IH].
Qed.

Lemma content_has_end (h : heap) (content : list loc) :
  existsb (is_chapter_end h) content
  = negb (count_ends (map (shape_of h) content) =? 0)%nat.
Proof.
  unfold count_ends. rewrite <- existsb_count.
  induction content as [|x rest IH]; cbn [existsb map]; [reflexivity|].
  now rewrite is_chapter_end_shape, IH.
Qed.

Lemma count_ends_file (shapes : list (string * list (string * string)))
    (n : Z) :
  count_ends
    (book_shape :: shapes
     ++ (if (count_ends shapes =? 0)%nat then [end_shape n] else []))
  = Nat.max 1 (count_ends shapes).
Proof.
  unfold count_ends at 1. cbn [List.filter].
  change (shape_ends book_shape) with false. cbv iota.
  rewrite List.filter_app, length_app. fold (count_ends shapes).
  assert (Hend : shape_ends (end_shape n) = true) by reflexivity.
  destruct (count_ends shapes) as [|k]; cbn [Nat.eqb List.filter];
    rewrite ?Hend; cbn [length]; lia.
Qed.

(** C4.  A file that is not a title file is written by the turn of the loop
    for a verse chunk.  Whenever such a turn ends normally, it adds one file
    whose top-level nodes include exactly one chapter end marker, the
    synthesized one: the chunk built by the chunk extractor never has an end
    marker of its own.  And [create_chunk_file] itself, given any content and
    [is_title=False], writes the book node and the content, and appends the
    synthesized end marker exactly when the content has no chapter-tagged
    node with an end-id: the file then has one such node, or as many as the
    content has, never none. *)
Theorem every_chunk_file_has_one_end_marker (limit : nat) (self : USXSplitter)
    (chapter_num chunk : scalar) (chapter_content : list loc) (w w' : world)
    (n0 cn0 : Z) (content0 : list loc) (w0 w0' : world) :
  Forall (deep_live (store w)) chapter_content ->
  scalar_is chunk "title" = false ->
  process_chunk limit self chapter_num chapter_content chunk w = (Ok tt, w') ->
  Forall (live (store w0)) content0 ->
  create_chunk_file limit self n0 cn0 content0 false w0 = (Ok tt, w0') ->
  (exists n cn x,
     scalar_int chapter_num = Ok n /\ scalar_int chunk = Ok cn
     /\ files (disk w') = (chunk_path self n cn false, x) :: files (disk w)
     /\ List.filter shape_is_end (top_nodes x) = [end_shape n]
     /\ count_ends (top_nodes x) = 1%nat)
  /\ (exists x0,
        files (disk w0') = (chunk_path self n0 cn0 false, x0) :: files (disk w0)
        /\ top_nodes x0
           = book_shape :: map (shape_of (store w0)) content0
             ++ (if (count_ends (map (shape_of (store w0)) content0) =? 0)%nat
                 then [end_shape n0] else [])
        /\ count_ends (top_nodes x0)
           = Nat.max 1 (count_ends (map (shape_of (store w0)) content0))).
Proof.
  intros Hlive Ht Hrun Hlive0 Hrun0. split.
  - destruct (process_chunk_verse_ok _ _ _ _ _ _ _ Hlive Ht Hrun)
      as (n & cn & x & ext & Hn & Hcn & Hf & Htop & _).
    exists n, cn, x. split; [exact Hn|]. split; [exact Hcn|].
    split; [exact Hf|].
    pose proof (filter_end_chunk_nodes (store w) cn cn chapter_content n Hlive)
      as Hone.
    rewrite Htop. split; [exact Hone|].
    destruct (chunk_facts (store w) cn cn chapter_content Hlive)
      as (_ & _ & _ & Hno).
    unfold count_ends. cbn [List.filter].
    change (shape_ends book_shape) with false. cbv iota.
    rewrite List.filter_app, length_app.
    assert (Hnone : List.filter shape_ends
                      (map (shape_of (store w))
                         (List.filter (contributes (store w) cn cn)
                            chapter_content)) = []).
    { revert Hno. generalize (map (shape_of (store w))
                                (List.filter (contributes (store w) cn cn)
                                   chapter_content)).
      intros l. induction l as [|y l IH]; cbn [List.filter]; [reflexivity|].
      destruct (shape_is_end y) eqn:Ey; [discriminate|].
      intros Hl. rewrite (IH Hl).
      unfold shape_is_end, shape_ends in *.
      destruct (String.eqb (fst y) "chapter"); [|reflexivity].
      cbn [andb] in *. now destruct (attr_get "eid" (snd y)). }
    rewrite Hnone. reflexivity.
  - destruct (create_chunk_file_ok _ _ _ _ _ _ _ _ Hlive0 Hrun0)
      as (x0 & Hf & _ & Htop & _).
    unfold doc_nodes in Htop. rewrite content_has_end in Htop.
    assert (Htop' : top_nodes x0
              = book_shape :: map (shape_of (store w0)) content0
                ++ (if (count_ends (map (shape_of (store w0)) content0) =? 0)%nat
                    then [end_shape n0] else [])).
    { rewrite Htop.
      now destruct (count_ends (map (shape_of (store w0)) content0) =? 0)%nat. }
    exists x0. split; [exact Hf|]. split; [exact Htop'|].
    rewrite Htop'. apply count_ends_file.
Qed.

Lemma every_chunk_file_has_one_end_marker_witness :
  (exists n cn x,
     scalar_int (YInt 1) = Ok n /\ scalar_int (YInt 3) = Ok cn
     /\ files (disk (snd (process_chunk Sample.limit Sample.splitter (YInt 1)
                            [4; 5; 6]%nat (YInt 3) Sample.world0)))
        = (chunk_path Sample.splitter n cn false, x) :: []
     /\ List.filter shape_is_end (top_nodes x) = [end_shape n]
     /\ count_ends (top_nodes x) = 1%nat)
  /\ (exists x0,
        files (disk (snd (create_chunk_file Sample.limit Sample.splitter 1 3
                            [4; 6; 7]%nat false Sample.world0)))
        = (["out"; "01"; "03.usx"], x0) :: []
        /\ top_nodes x0
           = [("book", [("code", "REV"); ("style", "id")]);
              ("chapter", [("number", "1"); ("style", "c"); ("sid", "REV 1")]);
              ("para", [("style", "p")]);
              ("chapter", [("eid", "REV 1")])]
        /\ count_ends (top_nodes x0) = 1%nat).
Proof.
  exact (every_chunk_file_has_one_end_marker Sample.limit Sample.splitter
           (YInt 1) (YInt 3) [4; 5; 6]%nat Sample.world0
           (snd (process_chunk Sample.limit Sample.splitter (YInt 1)
                   [4; 5; 6]%nat (YInt 3) Sample.world0))
           1 3 [4; 6; 7]%nat Sample.world0
           (snd (create_chunk_file Sample.limit Sample.splitter 1 3
                   [4; 6; 7]%nat false Sample.world0))
           ltac:(repeat constructor; vm_compute; lia)
           ltac:(reflexivity)
           ltac:(vm_compute; reflexivity)
           ltac:(repeat constructor; vm_compute; lia)
           ltac:(vm_compute; reflexivity)).
Defined.

(** *** The files that the loop over the chunks leaves *)







(** Statements about each element of a concrete list, settled by
    evaluation. *)
Ltac by_cases :=
  repeat first
    [ match goal with |- Forall _ _ => constructor end
    | match goal with
      | |- (_ = _) -> _ =>
          let H := fresh in intros H; vm_compute in H; discriminate H
      end
    | intros _
    | (eexists; reflexivity) ].

Lemma sample_closed : closed Sample.doc.
Proof. unfold closed. repeat constructor; vm_compute; lia. Qed.




(** ** Sharing and mutation *)

(** On the sample document and TOC: after the run, the start marker of
    chapter 1 (object 4 of the source tree) has a tail that it did not have
    before: the writer indented it in place.  That same object is a child of
    the roots of three output documents (objects 17, 19 and 22: the title
    file and the files of chunks 1 and 9), and the marker of verse 1 (object
    10), a child of the source paragraph, is also the child of the paragraph
    copy (object 18) placed in the file of chunk 1. *)
Lemma source_nodes_are_shared_and_rewritten :
  tail (deref Sample.doc 4%nat) = None
  /\ tail (deref (store (snd (run Sample.limit ["out"]
                                (mkSources Sample.toc 0%nat) Sample.world0)))
             4%nat)
     = Some (newline +:+ "  ")
  /\ In 4%nat (children (deref (store (snd (run Sample.limit ["out"]
                                              (mkSources Sample.toc 0%nat)
                                              Sample.world0))) 17%nat))
  /\ In 4%nat (children (deref (store (snd (run Sample.limit ["out"]
                                              (mkSources Sample.toc 0%nat)
                                              Sample.world0))) 19%nat))
  /\ In 4%nat (children (deref (store (snd (run Sample.limit ["out"]
                                              (mkSources Sample.toc 0%nat)
                                              Sample.world0))) 22%nat))
  /\ In 10%nat (children (deref Sample.doc 6%nat))
  /\ children (deref (store (snd (run Sample.limit ["out"]
                                    (mkSources Sample.toc 0%nat)
                                    Sample.world0))) 18%nat)
     = [10%nat]
  /\ In 18%nat (children (deref (store (snd (run Sample.limit ["out"]
                                               (mkSources Sample.toc 0%nat)
                                               Sample.world0))) 19%nat)).
Proof. vm_compute. intuition. Qed.

(** C3, at a failing input.  The paragraph of [note_doc] (object 2) holds
    the marker of verse 1, a footnote (object 5) without tail, and the marker
    of verse 2.  The paragraph copy made for chunk 1 (object 7) and the one
    made for chunk 2 (object 11) both have the footnote of the source as
    their child, the object itself, as the source paragraph still has.  The
    writer of chunk 1 indents it in place: its tail, which was unset, is then
    white space.  The extraction for chunk 2 gathers that tail: in
    [01/02.usx] the text of the paragraph is a line break, two spaces and
    [two ], where a run that writes chunk 2 alone gives [two ].  So the
    source tree is mutated, an element is shared between the source and the
    outputs of two chunks, and what a chunk file holds depends on the chunks
    written before it. *)
Theorem shared_footnote_leaks_indentation :
  top_texts <$> read_file (disk (note_run [YInt 2])) ["out"; "01"; "02.usx"]
  = Some [Some book_title; None; Some "two "; None]
  /\ top_texts <$>
       read_file (disk (note_run [YInt 1; YInt 2])) ["out"; "01"; "02.usx"]
     = Some [Some book_title; None; Some (newline +:+ "  two "); None]
  /\ tail (deref note_doc 5%nat) = None
  /\ tail (deref (store (note_run [YInt 1])) 5%nat) = Some (newline +:+ "  ")
  /\ children (deref (store (note_run [YInt 1; YInt 2])) 2%nat)
     = [4; 5; 6]%nat
  /\ children (deref (store (note_run [YInt 1; YInt 2])) 7%nat) = [4; 5]%nat
  /\ children (deref (store (note_run [YInt 1; YInt 2])) 11%nat) = [5; 6]%nat
  /\ children (deref (store (note_run [YInt 1; YInt 2])) 8%nat)
     = [9; 1; 7; 10]%nat
  /\ children (deref (store (note_run [YInt 1; YInt 2])) 12%nat)
     = [13; 1; 11; 14]%nat.
Proof. vm_compute. repeat split; reflexivity. Qed.

(** * Further properties of the code *)

(** ** The span of a chapter *)

Lemma scan_end_cons (h : heap) (target : string) (x : loc)
    (body post : list loc) :
  passes h target x = true ->
  scan_end h target body post -> scan_end h target (x :: body) post.
Proof.
  intros Hx (inner & Hin & Hend). exists (x :: inner).
  split; [now constructor|].
  destruct Hend as [[-> ->] | [[-> Hother] | (y & -> & Hy)]].
  - now left.
  - right. now left.
  - right. right. now exists y.
Qed.

Lemma chapter_scan_inside_end (h : heap) (target : string)
    (elements : list loc) :
  forall acc : list loc,
  exists body post,
    elements = body ++ post
    /\ chapter_scan h target elements true true acc = (acc ++ body, true)
    /\ scan_end h target body post.
Proof.
  induction elements as [|x rest IH]; intros acc.
  - exists [], []. cbn. rewrite app_nil_r.
    split; [reflexivity|]. split; [reflexivity|].
    exists []. split; [constructor | now left].
  - cbn [chapter_scan].
    destruct (String.eqb (tag (deref h x)) "chapter") eqn:Tc.
    + destruct (opt_is (get h x "number") target) eqn:Tn; cbn [negb andb].
      * destruct (not_None (get h x "eid")) eqn:Te; cbn [negb andb].
        -- exists [x], rest.
           split; [reflexivity|]. split; [reflexivity|].
           exists []. split; [constructor|]. right. right. exists x.
           split; [reflexivity|].
           unfold is_end_marker, is_chapter. now rewrite Tc, Te.
        -- destruct (IH (acc ++ [x])) as (body & post & -> & Hrun & Hend).
           exists (x :: body), post. rewrite Hrun, <- app_assoc.
           split; [reflexivity|]. split; [reflexivity|].
           apply scan_end_cons; [|exact Hend].
           unfold passes, is_start_of, is_chapter. now rewrite Tc, Tn, Te.
      * exists [], (x :: rest). rewrite app_nil_r.
        split; [reflexivity|]. split; [reflexivity|].
        exists []. split; [constructor|]. right. left.
        split; [reflexivity|]. exists x, rest. split; [reflexivity|].
        unfold is_chapter. now rewrite Tc.
    + destruct (IH (acc ++ [x])) as (body & post & -> & Hrun & Hend).
      exists (x :: body), post. rewrite Hrun, <- app_assoc.
      split; [reflexivity|]. split; [reflexivity|].
      apply scan_end_cons; [|exact Hend].
      unfold passes, is_chapter. now rewrite Tc.
Qed.

Lemma chapter_scan_span (h : heap) (target : string) (elements : list loc) :
  exists pre seg post,
    elements = pre ++ seg ++ post
    /\ Forall (fun x => is_start_of h target x = false) pre
    /\ chapter_scan h target elements false false []
       = (seg, match seg with [] => false | _ :: _ => true end)
    /\ match seg with
       | [] => post = []
       | x :: body => is_start_of h target x = true
                      /\ scan_end h target body post
       end.
Proof.
  induction elements as [|x rest IH].
  - exists [], [], [].
    split; [reflexivity|]. split; [constructor|]. split; reflexivity.
  - destruct IH as (pre & seg & post & -> & Hpre & Hrun & Hhead).
    cbn [chapter_scan].
    destruct (is_start_of h target x) eqn:Tstart.
    + pose proof Tstart as Tx.
      unfold is_start_of, is_chapter in Tstart.
      apply andb_prop in Tstart. destruct Tstart as [Tcn Te].
      apply andb_prop in Tcn. destruct Tcn as [Tc Tn].
      rewrite Tc, Tn, Te. cbn [andb].
      destruct (chapter_scan_inside_end h target (pre ++ seg ++ post) [x])
        as (body & post1 & E & Hrun1 & Hend1).
      exists [], (x :: body), post1. cbn [app]. rewrite Hrun1, E.
      split; [reflexivity|]. split; [constructor|]. split; [reflexivity|].
      split; [exact Tx | exact Hend1].
    + exists (x :: pre), seg, post.
      split; [reflexivity|]. split; [now constructor|].
      split; [|exact Hhead].
      unfold is_start_of, is_chapter in Tstart.
      destruct (String.eqb (tag (deref h x)) "chapter"); [|exact Hrun].
      cbn [andb] in Tstart. rewrite Tstart. now rewrite !andb_false_r.
Qed.

(** Conversely, a run of nodes that ends in one of these ways is what the
    scan collects. *)
Lemma scan_end_run (h : heap) (target : string) (body post : list loc) :
  scan_end h target body post ->
  forall acc,
    chapter_scan h target (body ++ post) true true acc = (acc ++ body, true).
Proof.
  intros (inner & Hin & Hend). revert body Hend.
  induction Hin as [|y inner Hy _ IH]; intros body Hend acc.
  - destruct Hend as [[-> ->] | [[-> (y & post' & -> & Hy & Hn)]
                                | (y & -> & Hy & Hn)]].
    + cbn. now rewrite app_nil_r.
    + cbn [app chapter_scan]. unfold is_chapter in Hy. rewrite Hy, Hn.
      cbn [andb negb]. now rewrite app_nil_r.
    + cbn [app chapter_scan]. unfold is_end_marker, is_chapter in Hy.
      apply andb_prop in Hy. destruct Hy as [Hc He]. rewrite Hc, Hn, He.
      reflexivity.
  - assert (Hstep : forall rest acc0,
              chapter_scan h target (y :: rest) true true acc0
              = chapter_scan h target rest true true (acc0 ++ [y])).
    { intros rest acc0. cbn [chapter_scan].
      unfold passes, is_start_of, is_chapter in Hy.
      destruct (String.eqb (tag (deref h y)) "chapter"); [|reflexivity].
      cbn [negb orb andb] in Hy. now rewrite Hy. }
    destruct Hend as [[-> ->] | [[-> Hother] | (z & -> & Hz)]];
      cbn [app]; rewrite Hstep.
    + rewrite (IH inner) by now left. now rewrite <- app_assoc.
    + rewrite (IH inner) by (right; now left). now rewrite <- app_assoc.
    + rewrite (IH (inner ++ [z])) by (right; right; now exists z).
      now rewrite <- app_assoc.
Qed.

Lemma chapter_scan_skip (h : heap) (target : string) (pre rest : list loc) :
  Forall (fun x => is_start_of h target x = false) pre ->
  chapter_scan h target (pre ++ rest) false false []
  = chapter_scan h target rest false false [].
Proof.
  induction 1 as [|x pre Hx _ IH]; cbn [app chapter_scan]; [reflexivity|].
  unfold is_start_of, is_chapter in Hx.
  destruct (String.eqb (tag (deref h x)) "chapter"); [|exact IH].
  cbn [andb] in Hx. rewrite Hx. now rewrite !andb_false_r.
Qed.

Lemma span_run (h : heap) (target : string) (pre seg post : list loc) :
  Forall (fun x => is_start_of h target x = false) pre ->
  match seg with
  | [] => post = []
  | x :: body => is_start_of h target x = true /\ scan_end h target body post
  end ->
  fst (chapter_scan h target (pre ++ seg ++ post) false false []) = seg.
Proof.
  intros Hpre Hseg. rewrite (chapter_scan_skip _ _ _ _ Hpre).
  destruct seg as [|x body].
  - subst post. reflexivity.
  - destruct Hseg as [Hx Hend]. cbn [app chapter_scan].
    unfold is_start_of, is_chapter in Hx.
    apply andb_prop in Hx. destruct Hx as [Hcn He].
    apply andb_prop in Hcn. destruct Hcn as [Hc Hn].
    rewrite Hc, Hn, He. cbn [andb].
    now rewrite (scan_end_run _ _ _ _ Hend).
Qed.

(** X1.  What the chapter extractor returns, for every document and every
    chapter number.  The top-level nodes split into three consecutive parts:
    a first part without start marker of the chapter, the part returned, and
    a rest.  Either the part returned and the rest are empty, and the warning
    is printed; or the part returned begins with a start marker of the
    chapter and nothing is printed.  After that marker it goes on over the
    nodes that are not chapter-tagged and over further start markers of the
    chapter, over nothing else, until the document ends, or a chapter-tagged
    node with another number or none follows (it is left out), or an end
    marker carrying the chapter's number is met (it is taken in, as the last
    node).  No other split of the top-level nodes meets this description:
    it determines the part returned.  The store and the files are not
    touched. *)
Theorem chapter_span (self : USXSplitter) (chapter_num : scalar) (w : world) :
  let h := store w in
  let target := scalar_str chapter_num in
  exists pre seg post,
    children (deref h (usx_content self)) = pre ++ seg ++ post
    /\ Forall (fun x => is_start_of h target x = false) pre
    /\ match seg with
       | [] => post = []
       | x :: body => is_start_of h target x = true
                      /\ scan_end h target body post
       end
    /\ (forall pre' seg' post',
          children (deref h (usx_content self)) = pre' ++ seg' ++ post' ->
          Forall (fun x => is_start_of h target x = false) pre' ->
          match seg' with
          | [] => post' = []
          | x :: body => is_start_of h target x = true
                         /\ scan_end h target body post'
          end ->
          seg' = seg)
    /\ extract_chapter_content self chapter_num w
       = (Ok seg,
          mkWorld h (disk w)
            (stdout w
             ++ match seg with
                | [] => ["Warning: Chapter " +:+ target
                         +:+ " start marker not found"]
                | _ :: _ => []
                end)).
Proof.
  cbv zeta.
  destruct (chapter_scan_span (store w) (scalar_str chapter_num)
              (children (deref (store w) (usx_content self))))
    as (pre & seg & post & E & Hpre & Hrun & Hhead).
  exists pre, seg, post.
  split; [exact E|]. split; [exact Hpre|]. split; [exact Hhead|]. split.
  - intros pre' seg' post' E' Hpre' Hhead'.
    rewrite <- (span_run _ _ _ _ _ Hpre' Hhead'), <- E', Hrun. reflexivity.
  - unfold extract_chapter_content. rewrite bind_get_store, Hrun.
    destruct seg; cbn [negb]; [reflexivity|].
    rewrite bind_ret. unfold ret. rewrite app_nil_r. now destruct w.
Qed.

(** ** Chapters that are missing, and start markers *)

(** X2.  A TOC entry whose chapter has no start marker in the document is
    skipped: [process_chapter] ends normally after its announcement and two
    warnings, and it creates no object, no directory and no file, whatever
    chunks the entry lists. *)
Theorem missing_chapter_is_skipped (limit : nat) (self : USXSplitter)
    (chapter_info : toc_entry) (w : world) :
  Forall (fun x => is_start_of (store w)
                     (scalar_str (chapter chapter_info)) x = false)
    (children (deref (store w) (usx_content self))) ->
  process_chapter limit self chapter_info w
  = (Ok tt,
     mkWorld (store w) (disk w)
       (stdout w
        ++ ["Processing chapter " +:+ scalar_str (chapter chapter_info)
            +:+ " with " +:+ PyStr.of_nat (length (chunks chapter_info))
            +:+ " chunks";
            "Warning: Chapter " +:+ scalar_str (chapter chapter_info)
            +:+ " start marker not found";
            "Warning: No content found for chapter "
            +:+ scalar_str (chapter chapter_info)])).
Proof.
  intros Hno. unfold process_chapter. rewrite bind_print.
  unfold extract_chapter_content. rewrite bind_assoc, bind_get_store.
  cbn [store]. rewrite (chapter_scan_no_start _ _ _ Hno). cbn [negb].
  rewrite bind_assoc, bind_print, bind_ret. unfold print.
  cbn [store disk stdout]. now rewrite <- !app_assoc.
Qed.

Lemma missing_chapter_is_skipped_witness :
  process_chapter Sample.limit Sample.splitter
    (TocEntry (YInt 7) [YStr "title"; YInt 1]) Sample.world0
  = (Ok tt,
     mkWorld Sample.doc (mkFilesys [] [])
       ["Processing chapter 7 with 2 chunks";
        "Warning: Chapter 7 start marker not found";
        "Warning: No content found for chapter 7"]).
Proof.
  apply (missing_chapter_is_skipped Sample.limit Sample.splitter
           (TocEntry (YInt 7) [YStr "title"; YInt 1]) Sample.world0).
  by_cases.
Defined.

Lemma start_of_is_start_marker (h : heap) (target : string) (x : loc) :
  is_start_of h target x = true ->
  is_start_marker h x = true /\ is_para h x = false.
Proof.
  unfold is_start_of, is_start_marker, is_chapter, is_para. intros H.
  apply andb_prop in H. destruct H as [H He].
  apply andb_prop in H. destruct H as [Hc _].
  rewrite Hc, He. split; [reflexivity|].
  apply String.eqb_eq in Hc. now rewrite Hc.
Qed.

(** X3.  The content extracted for a chapter, when it is not empty, begins
    with the start marker of that chapter, and this marker heads whatever is
    made from the content: it is the first node of the title content, and
    the first entry of the chunk for any verse range. *)
Theorem start_marker_leads (self : USXSplitter) (chapter_num : scalar)
    (w w' : world) (first : loc) (rest chunk : list loc)
    (start_verse : Z) (end_verse : option Z) :
  closed (store w) ->
  fst (extract_chapter_content self chapter_num w) = Ok (first :: rest) ->
  extract_verses_for_chunk (first :: rest) start_verse end_verse w
  = (Ok chunk, w') ->
  is_start_of (store w) (scalar_str chapter_num) first = true
  /\ extract_title_content (store w) (first :: rest)
     = first :: extract_title_content (store w) rest
  /\ exists chunk', chunk = first :: chunk'.
Proof.
  intros Hc Hcontent Hrun.
  destruct (extract_chapter_content_run self chapter_num w) as (lines & Hex).
  rewrite Hex in Hcontent. cbn [fst] in Hcontent.
  destruct (chapter_scan_span (store w) (scalar_str chapter_num)
              (children (deref (store w) (usx_content self))))
    as (pre & seg & post & E & _ & Hscan & Hhead).
  rewrite Hscan in Hcontent. cbn [fst] in Hcontent.
  assert (seg = first :: rest) by congruence. subst seg.
  destruct Hhead as [Hhead _].
  destruct (start_of_is_start_marker _ _ _ Hhead) as [Hsm Hnp].
  split; [exact Hhead|]. split.
  - cbn [extract_title_content]. unfold is_para in Hnp. rewrite Hnp.
    unfold is_start_marker, is_chapter in Hsm. cbn [andb]. now rewrite Hsm.
  - assert (Hlive : Forall (deep_live (store w)) (first :: rest)).
    { apply closed_deep_live_all; [exact Hc|].
      assert (Hall : Forall (live (store w)) (pre ++ (first :: rest) ++ post)).
      { rewrite <- E. now apply closed_children_live. }
      apply Forall_app in Hall. destruct Hall as [_ Hall].
      apply Forall_app in Hall. now destruct Hall. }
    apply extract_verses_for_chunk_ok in Hrun; [|exact Hlive].
    destruct Hrun as [-> _]. cbn [chunk_model]. rewrite Hnp, Hsm.
    destruct (chunk_model _ _ _ rest _) as [c new]. now exists c.
Qed.

Lemma start_marker_leads_witness :
  is_start_of Sample.doc "1" 4%nat = true
  /\ extract_title_content Sample.doc [4; 5; 6]%nat
     = 4%nat :: extract_title_content Sample.doc [5; 6]%nat
  /\ exists chunk', [4; 16]%nat = 4%nat :: chunk'.
Proof.
  apply (start_marker_leads Sample.splitter (YInt 1) Sample.world0
           (snd (extract_verses_for_chunk [4; 5; 6]%nat 3 None Sample.world0))
           4%nat [5; 6]%nat [4; 16]%nat 3 None).
  - exact sample_closed.
  - reflexivity.
  - vm_compute. reflexivity.
Defined.

(** ** Title files and front matter *)

Lemma extract_title_content_filter (h : heap) (content : list loc) :
  extract_title_content h content = List.filter (title_node h) content.
Proof.
  induction content as [|x rest IH]; cbn [extract_title_content List.filter];
    [reflexivity|].
  unfold title_node, is_para, is_start_marker, is_chapter.
  destruct (String.eqb (tag (deref h x)) "para"
            && opt_in (get h x "style") heading_styles); cbn [orb];
    [now rewrite IH|].
  destruct (String.eqb (tag (deref h x)) "chapter"
            && negb (not_None (get h x "eid"))); now rewrite IH.
Qed.

Lemma title_nodes_shape (h : heap) (content : list loc) :
  Forall (fun s => fst s <> "book" /\ shape_is_end s = false)
    (map (shape_of h) (List.filter (title_node h) content)).
Proof.
  induction content as [|x rest IH]; cbn [List.filter map]; [constructor|].
  destruct (title_node h x) eqn:E; [|exact IH].
  cbn [map]. constructor; [|exact IH].
  unfold title_node, is_para, is_start_marker, is_chapter in E.
  unfold shape_is_end, shape_of, get in *. cbn [fst snd].
  apply orb_prop in E. destruct E as [E|E]; apply andb_prop in E;
    destruct E as [Ht E]; apply String.eqb_eq in Ht; rewrite Ht.
  - split; [discriminate | reflexivity].
  - split; [discriminate|]. cbn [String.eqb Ascii.eqb Bool.eqb andb].
    now destruct (not_None _).
Qed.

(** What the last three steps of a writer leave, when they end normally:
    one more file, holding the tree below the root as it stood, up to blank
    texts and tails. *)
Lemma indent_write_print_file (limit : nat) (root : loc) (p : path)
    (line : string) (w w' : world) :
  (_indent_xml limit root 0 ;; write limit root p ;; print line) w
  = (Ok tt, w') ->
  exists x,
    files (disk w') = (p, x) :: files (disk w)
    /\ dirs (disk w') = dirs (disk w)
    /\ xml_shape x = shape_of (store w) root
    /\ top_nodes x
       = map (shape_of (store w)) (children (deref (store w) root))
    /\ same_shape (store w) (store w').
Proof.
  intros Hrun.
  apply bind_inv_ok in Hrun. destruct Hrun as ([] & w1 & Hind & Hrun).
  apply bind_inv_ok in Hrun. destruct Hrun as ([] & w2 & Hwr & Hpr).
  apply indent_text_only in Hind. destruct Hind as (Hsh & Hd & Ho).
  apply write_ok in Hwr. destruct Hwr as (x & Hser & ->).
  inversion Hpr; subst w'. cbn [store disk files dirs].
  exists x. split; [now rewrite Hd|]. split; [now rewrite Hd|].
  split; [|split; [|exact Hsh]].
  - apply serialize_node in Hser. destruct Hser as (Hx & _).
    rewrite Hx. now apply shape_of_same.
  - rewrite (serialize_top_nodes _ _ _ _ Hser).
    destruct Hsh as [L S3]. destruct (S3 root) as (_ & _ & ->).
    apply map_ext. intros k. now apply shape_of_same.
Qed.

(** X4.  A title chunk, when its turn ends normally, adds the file
    [NN/title.usx] under the output directory, NN being the chapter number
    on two digits.  The top-level nodes of the file are the heading
    paragraphs (styles s1, s2, s3, mt1, mt2, mt3) and the chapter start
    markers of the chapter content, in document order, and nothing else: no
    book node and no chapter end marker.  The turn creates one object, the
    root, whose children are those elements of the source themselves. *)
Theorem title_file_holds_headings (limit : nat) (self : USXSplitter)
    (chapter_num chunk : scalar) (content : list loc) (w w' : world) :
  Forall (live (store w)) content ->
  scalar_is chunk "title" = true ->
  process_chunk limit self chapter_num content chunk w = (Ok tt, w') ->
  exists (n : Z) (x : xml),
    scalar_int chapter_num = Ok n
    /\ files (disk w')
       = (path_join (path_join (output_dir self) (PyStr.fmt_02d n)) "title.usx",
          x) :: files (disk w)
    /\ xml_tag x = "usx"
    /\ top_nodes x
       = map (shape_of (store w)) (List.filter (title_node (store w)) content)
    /\ Forall (fun s => fst s <> "book" /\ shape_is_end s = false) (top_nodes x)
    /\ length (store w') = S (length (store w))
    /\ children (deref (store w') (length (store w)))
       = List.filter (title_node (store w)) content.
Proof.
  intros Hlive Ht Hrun. unfold process_chunk in Hrun. rewrite Ht in Hrun.
  rewrite bind_get_store in Hrun.
  destruct (scalar_int chapter_num) as [n|x0] eqn:En;
    [rewrite bind_lift_ok in Hrun | rewrite bind_lift_raise in Hrun; discriminate].
  pose proof (extract_title_content_sub _ (store w) _ Hlive) as Hsub.
  apply create_chunk_file_ok in Hrun; [|exact Hsub].
  destruct Hrun as (x & Hf & Htag & Htop & Hlen & Hsh).
  rewrite extract_title_content_filter in *.
  exists n, x. split; [reflexivity|]. split; [exact Hf|].
  split; [exact Htag|]. split; [exact Htop|].
  split; [rewrite Htop; apply title_nodes_shape|].
  cbn [chunk_objects] in Hlen, Hsh. split.
  - rewrite Hlen, length_app. cbn [length]. lia.
  - destruct (Hsh (length (store w))) as (_ & _ & ->).
    now rewrite deref_app_new0.
Qed.

Lemma title_file_holds_headings_witness :
  exists (n : Z) (x : xml),
    scalar_int (YInt 1) = Ok n
    /\ files (disk (snd (process_chunk Sample.limit Sample.splitter (YInt 1)
                           [4; 5; 6; 7]%nat (YStr "title") Sample.world0)))
       = (path_join (path_join ["out"] (PyStr.fmt_02d n)) "title.usx", x) :: []
    /\ xml_tag x = "usx"
    /\ top_nodes x
       = map (shape_of Sample.doc)
           (List.filter (title_node Sample.doc) [4; 5; 6; 7]%nat)
    /\ Forall (fun s => fst s <> "book" /\ shape_is_end s = false) (top_nodes x)
    /\ length (store (snd (process_chunk Sample.limit Sample.splitter (YInt 1)
                             [4; 5; 6; 7]%nat (YStr "title") Sample.world0)))
       = S (length Sample.doc)
    /\ children
         (deref (store (snd (process_chunk Sample.limit Sample.splitter (YInt 1)
                               [4; 5; 6; 7]%nat (YStr "title") Sample.world0)))
            (length Sample.doc))
       = List.filter (title_node Sample.doc) [4; 5; 6; 7]%nat.
Proof.
  apply (title_file_holds_headings Sample.limit Sample.splitter (YInt 1)
           (YStr "title") [4; 5; 6; 7]%nat Sample.world0).
  - repeat constructor; vm_compute; lia.
  - reflexivity.
  - vm_compute. reflexivity.
Defined.

Lemma front_node_not_chapter (h : heap) (x : loc) :
  front_node h x = true -> is_chapter h x = false.
Proof.
  unfold front_node, is_chapter, str_in. intros H.
  apply andb_prop in H. destruct H as [H _]. cbn [existsb] in H.
  rewrite orb_false_r in H. apply orb_prop in H.
  destruct H as [H|H]; apply String.eqb_eq in H; now rewrite H.
Qed.

Lemma front_scan_filter (h : heap) (elements : list loc) :
  forall acc,
    front_scan h elements acc
    = acc ++ List.filter (front_node h) (until_chapter h elements).
Proof.
  induction elements as [|x rest IH]; intros acc;
    cbn [front_scan until_chapter List.filter]; [now rewrite app_nil_r|].
  fold (front_node h x). fold (is_chapter h x).
  destruct (front_node h x) eqn:E.
  - rewrite (front_node_not_chapter _ _ E). cbn [List.filter]. rewrite E.
    rewrite IH, <- app_assoc. reflexivity.
  - destruct (is_chapter h x); cbn [List.filter]; [now rewrite app_nil_r|].
    rewrite E. apply IH.
Qed.

(** X5.  With a stack deep enough for the document, [process_front_matter]
    ends normally and creates the directory [front].  Its content is made of
    the top-level nodes in front of the first chapter-tagged node that are
    book or paragraph nodes with one of the styles h, toc1, toc2, toc3, mt1,
    mt2, mt3: nothing that follows a chapter marker enters it.  When there
    is no such node, no file is written and no object is created; otherwise
    [front/title.usx] is written with exactly these nodes, in document
    order, under a new root whose children are the nodes themselves. *)
Theorem front_matter_file (limit : nat) (self : USXSplitter)
    (front_info : toc_entry) (w : world) :
  closed (store w) ->
  depth_le (store w) limit (usx_content self) ->
  exists w',
    process_front_matter limit self front_info w = (Ok tt, w')
    /\ dirs (disk w')
       = foldl add_dir (dirs (disk w))
           (ancestors (path_join (output_dir self) "front"))
    /\ match List.filter (front_node (store w))
               (until_chapter (store w)
                  (children (deref (store w) (usx_content self)))) with
       | [] => store w' = store w /\ files (disk w') = files (disk w)
       | first :: rest =>
           exists x,
             files (disk w')
             = (path_join (path_join (output_dir self) "front") "title.usx", x)
               :: files (disk w)
             /\ xml_tag x = "usx"
             /\ top_nodes x = map (shape_of (store w)) (first :: rest)
             /\ length (store w') = S (length (store w))
             /\ children (deref (store w') (length (store w))) = first :: rest
       end.
Proof.
  intros Hc Hd. unfold process_front_matter.
  rewrite bind_print, bind_mkdir, bind_get_store.
  set (w2 := with_dirs _ _).
  change (store w2) with (store w).
  rewrite front_scan_filter. cbn [app].
  set (content := List.filter _ _).
  assert (Hlive : Forall (live (store w)) content).
  { rewrite <- (app_nil_l content). unfold content. rewrite <- front_scan_filter.
    apply front_scan_sub; [|constructor]. now apply closed_children_live. }
  assert (Hdepth : Forall (depth_le (store w) (pred limit)) content).
  { rewrite <- (app_nil_l content). unfold content. rewrite <- front_scan_filter.
    apply front_scan_sub; [|constructor].
    destruct limit as [|m]; [contradiction | exact Hd]. }
  destruct content as [|first rest] eqn:Econtent.
  - eexists. split; [reflexivity|]. cbn [store disk dirs files]. auto.
  - rewrite <- Econtent in *.
    rewrite bind_new_element. change (store w2) with (store w).
    erewrite bind_ok by (apply for_each_append; now apply live_app_new).
    rewrite store_set_store, set_store_twice.
    rewrite deref_app_new0, insert_app_new.
    change (add_children _ content) with (usx_node content).
    set (p := path_join (path_join (output_dir self) "front") "title.usx").
    set (w3 := set_store w2 (store w ++ [usx_node content])).
    destruct (indent_write_print_ok limit (length (store w)) p
                ("Created: " +:+ path_str p) w3) as (w' & Hrun).
    { unfold w3. rewrite store_set_store.
      destruct limit as [|m]; [contradiction|]. cbn [depth_le pred] in *.
      rewrite deref_app_new0. cbn [children usx_node].
      rewrite Forall_forall in Hlive, Hdepth. apply Forall_forall.
      intros y Hy. apply depth_le_app; auto. }
    exists w'. split; [exact Hrun|].
    apply indent_write_print_file in Hrun.
    destruct Hrun as (x & Hf & Hdirs & Hx & Htop & Hlen & Hsh).
    unfold w3 in *. rewrite store_set_store in *.
    rewrite deref_app_new0 in Htop. cbn [children usx_node] in Htop.
    split; [rewrite Hdirs; reflexivity|].
    exists x. split; [exact Hf|]. split; [|split; [|split]].
    + unfold xml_shape, shape_of in Hx. rewrite deref_app_new0 in Hx.
      now inversion Hx.
    + rewrite Htop. now apply map_shape_of_app.
    + rewrite Hlen, length_app. cbn [length]. lia.
    + destruct (Hsh (length (store w))) as (_ & _ & ->).
      now rewrite deref_app_new0.
Qed.


Lemma front_matter_file_witness :
  exists w',
    process_front_matter Sample.limit Sample.splitter
      (TocEntry (YStr "front") []) Sample.world0 = (Ok tt, w')
    /\ dirs (disk w')
       = foldl add_dir [] (ancestors (path_join ["out"] "front"))
    /\ match List.filter (front_node Sample.doc)
               (until_chapter Sample.doc
                  (children (deref Sample.doc 0%nat))) with
       | [] => store w' = Sample.doc /\ files (disk w') = []
       | first :: rest =>
           exists x,
             files (disk w')
             = (path_join (path_join ["out"] "front") "title.usx", x) :: []
             /\ xml_tag x = "usx"
             /\ top_nodes x = map (shape_of Sample.doc) (first :: rest)
             /\ length (store w') = S (length Sample.doc)
             /\ children (deref (store w') (length Sample.doc)) = first :: rest
       end.
Proof.
  apply (front_matter_file Sample.limit Sample.splitter
           (TocEntry (YStr "front") []) Sample.world0).
  - exact sample_closed.
  - repeat first [match goal with |- Forall _ _ => constructor end | progress cbn].
Defined.

(** ** Verse numbers that are not numbers *)

Lemma verse_num_cases (h : heap) (k : loc) :
  (exists n, verse_num h k = Ok n)
  \/ (exists s, verse_num h k = Raise (ValueError s)).
Proof.
  unfold verse_num. destruct (get h k "number") as [s|]; [|eauto].
  destruct (PyStr.to_Z s); eauto.
Qed.

Lemma first_bad_ext (h h' : heap) (kids : list loc) :
  Forall (fun k => deref h' k = deref h k) kids ->
  first_bad h' kids = first_bad h kids.
Proof.
  induction 1 as [|k kids E _ IH]; cbn [first_bad]; [reflexivity|].
  unfold is_verse, verse_num, get. now rewrite E, IH.
Qed.

Lemma first_bad_none (h : heap) (kids : list loc) :
  first_bad h kids = None -> verses_parse h kids.
Proof.
  unfold verses_parse.
  induction kids as [|k kids IH]; cbn [first_bad]; [constructor|].
  destruct (is_verse h k) eqn:T.
  - destruct (verse_num_cases h k) as [[n Hn] | [s Hs]].
    + rewrite Hn. intros H. constructor; [eauto | auto].
    + rewrite Hs. discriminate.
  - intros H. constructor; [intros X; congruence | auto].
Qed.

(** The first loop, on a paragraph with an unreadable verse number: it
    raises at that number, unless it finds a verse in range before. *)
Lemma has_verses_in_range_bad (h : heap) (kids : list loc) (s e : Z)
    (s0 : string) :
  first_bad h kids = Some s0 ->
  has_verses_in_range h kids s e = Raise (ValueError s0)
  \/ has_verses_in_range h kids s e = Ok true.
Proof.
  induction kids as [|k kids IH]; cbn [first_bad has_verses_in_range];
    [discriminate|].
  unfold is_verse. destruct (String.eqb (tag (deref h k)) "verse"); [|exact IH].
  destruct (verse_num_cases h k) as [[n Hn] | [s1 Hs]].
  - rewrite Hn. destruct (in_range s e n); [now right | exact IH].
  - rewrite Hs. intros H. left. congruence.
Qed.

Lemma bind_raise {A B} (m : M A) (k : A -> M B) (w w' : world) (x : exn) :
  m w = (Raise x, w') -> bind m k w = (Raise x, w').
Proof. unfold bind. intros ->. reflexivity. Qed.

(** The second loop goes through all children: it raises at the first
    unreadable verse number. *)
Lemma copy_verses_bad (c : loc) (s e : Z) (s0 : string) (kids : list loc) :
  forall (w : world) (cur : string),
    Forall (fun k => k <> c) kids ->
    first_bad (store w) kids = Some s0 ->
    exists w', copy_verses c kids s e cur w = (Raise (ValueError s0), w').
Proof.
  induction kids as [|k kids IH]; intros w cur Hne Hbad; [discriminate|].
  inversion Hne as [|? ? Hk Hne']; subst.
  set (h := store w) in *.
  set (h1 := <[c := with_child (deref h c) k]> h).
  assert (Hsame : Forall (fun x => deref h1 x = deref h x) kids).
  { apply Forall_impl with (P := fun x => x <> c); [exact Hne'|].
    intros x Hx. apply deref_insert_ne. congruence. }
  assert (Estep : forall t,
    first_bad h kids = Some s0 ->
    exists w',
      (append c k ;;
       let* h' := get_store in
       copy_verses c kids s e (add_tail t (tail (deref h' k)))) w
      = (Raise (ValueError s0), w')).
  { intros t Hrest. unfold append. rewrite bind_update, bind_get_store.
    rewrite store_set_store. fold h. fold h1.
    apply IH; [exact Hne'|]. rewrite store_set_store.
    now rewrite (first_bad_ext h h1 kids Hsame). }
  cbn [copy_verses first_bad] in *. rewrite bind_get_store. fold h.
  unfold is_verse in Hbad.
  destruct (String.eqb (tag (deref h k)) "verse"); [|now apply Estep].
  destruct (verse_num_cases h k) as [[n Hn] | [s1 Hs]].
  - rewrite Hn in *. rewrite bind_lift_ok.
    destruct (in_range s e n); [now apply Estep | now apply IH].
  - rewrite Hs in *. rewrite bind_lift_raise. exists w. congruence.
Qed.

Lemma extract_verses_from_para_bad (w : world) (para : loc) (s e : Z)
    (s0 : string) :
  Forall (live (store w)) (children (deref (store w) para)) ->
  first_bad (store w) (children (deref (store w) para)) = Some s0 ->
  exists w',
    extract_verses_from_para para s e w = (Raise (ValueError s0), w').
Proof.
  intros Hlive Hbad. unfold extract_verses_from_para.
  rewrite bind_get_store.
  set (h := store w) in *. set (p := deref h para) in *.
  destruct (has_verses_in_range_bad h (children p) s e s0 Hbad) as [-> | ->].
  - rewrite bind_lift_raise. now exists w.
  - rewrite bind_lift_ok. cbn [negb]. rewrite bind_new_element. fold h.
    set (w1 := set_store w _).
    destruct (copy_verses_bad (length h) s e s0 (children p) w1 "")
      as (w' & Hrun).
    + apply Forall_impl with (1 := Hlive). unfold live. intros k Hk. lia.
    + unfold w1. rewrite store_set_store. rewrite <- Hbad.
      apply first_bad_ext. apply Forall_impl with (1 := Hlive).
      intros k Hk. now apply deref_app_l.
    + exists w'. now apply bind_raise.
Qed.

Lemma first_unreadable_app (h ext : heap) (content : list loc) :
  Forall (deep_live h) content ->
  first_unreadable (h ++ ext) content = first_unreadable h content.
Proof.
  induction 1 as [|x rest Hx _ IH]; cbn [first_unreadable]; [reflexivity|].
  rewrite (is_para_app h ext x (proj1 Hx)), (deref_app_l _ _ _ (proj1 Hx)).
  rewrite (first_bad_ext h (h ++ ext)) by now apply children_agree_app.
  now rewrite IH.
Qed.

Lemma chunk_scan_bad (s e : Z) (s0 : string) (content : list loc) :
  forall (w : world) (acc : list loc),
    Forall (deep_live (store w)) content ->
    first_unreadable (store w) content = Some s0 ->
    exists w', chunk_scan content s e acc w = (Raise (ValueError s0), w').
Proof.
  induction content as [|x rest IH]; intros w acc Hlive Hbad; [discriminate|].
  inversion Hlive as [|? ? Hx Hrest]; subst.
  set (h := store w) in *.
  cbn [chunk_scan first_unreadable] in *. rewrite bind_get_store. fold h.
  change (String.eqb (tag (deref h x)) "para") with (is_para h x).
  destruct (is_para h x).
  - destruct (first_bad h (children (deref h x))) as [s1|] eqn:Hfirst.
    + destruct (extract_verses_from_para_bad w x s e s1 (proj2 Hx) Hfirst)
        as (w' & Hrun).
      exists w'. rewrite (bind_raise _ _ _ _ _ Hrun). congruence.
    + pose proof (first_bad_none _ _ Hfirst) as Px.
      destruct (para_hit h s e x) eqn:Hhit.
      * rewrite (bind_ok _ _ _ _ _
                   (extract_verses_from_para_hit w x s e (proj2 Hx) Px Hhit)).
        fold h. rewrite bind_get_store.
        assert (Hnext : forall acc', exists w',
                  chunk_scan rest s e acc'
                    (set_store w (h ++ [para_copy_of h s e x]))
                  = (Raise (ValueError s0), w')).
        { intros acc'. apply IH; rewrite store_set_store.
          - apply Forall_impl with (1 := Hrest). intros k. apply deep_live_app.
          - now rewrite first_unreadable_app. }
        destruct (element_truthy _ _); apply Hnext.
      * rewrite (bind_ok _ _ _ _ _
                   (extract_verses_from_para_miss w x s e Px Hhit)).
        rewrite bind_get_store. cbn [element_truthy]. now apply IH.
  - destruct (_ && _); now apply IH.
Qed.

(** X6.  A verse number that [int] does not read (a verse bridge such as
    [2-3], a number with a letter) stops the extraction of every verse chunk
    of its chapter, whatever the range asked for: the chunk extractor raises
    [ValueError] for the first such number of the first paragraph that has
    one.  Objects may have been added to the store by then, but the objects
    of the source, the files and the output are as before; and the turn of
    the loop over the chunks ends with the same error, before anything is
    written for the chunk. *)
Theorem unreadable_verse_number_raises (limit : nat) (self : USXSplitter)
    (chapter_num chunk : scalar) (content : list loc) (w : world)
    (cn : Z) (s0 : string) :
  Forall (deep_live (store w)) content ->
  first_unreadable (store w) content = Some s0 ->
  scalar_is chunk "title" = false ->
  scalar_int chunk = Ok cn ->
  (forall (start_verse : Z) (end_verse : option Z),
     exists w',
       extract_verses_for_chunk content start_verse end_verse w
       = (Raise (ValueError s0), w')
       /\ extends w w')
  /\ exists w',
       process_chunk limit self chapter_num content chunk w
       = (Raise (ValueError s0), w')
       /\ extends w w'.
Proof.
  intros Hlive Hbad Ht Hcn.
  assert (Hex : forall s e, exists w',
            extract_verses_for_chunk content s e w = (Raise (ValueError s0), w')
            /\ extends w w').
  { intros s e. unfold extract_verses_for_chunk.
    destruct (chunk_scan_bad s (default s e) s0 content w [] Hlive Hbad)
      as (w' & Hrun).
    exists w'. split; [exact Hrun|].
    now apply (chunk_scan_extends _ _ _ _ _ _ _ Hrun). }
  split; [exact Hex|].
  destruct (Hex cn None) as (w' & Hrun & Hext).
  exists w'. split; [|exact Hext].
  unfold process_chunk. rewrite Ht, Hcn, bind_lift_ok.
  now apply bind_raise.
Qed.

Lemma unreadable_verse_number_raises_witness :
  (forall (start_verse : Z) (end_verse : option Z),
     exists w',
       extract_verses_for_chunk [1; 2; 3]%nat start_verse end_verse
         (mkWorld bridge_doc (mkFilesys [] []) [])
       = (Raise (ValueError "2-3"), w')
       /\ extends (mkWorld bridge_doc (mkFilesys [] []) []) w')
  /\ exists w',
       process_chunk Sample.limit Sample.splitter (YInt 1) [1; 2; 3]%nat
         (YInt 1) (mkWorld bridge_doc (mkFilesys [] []) [])
       = (Raise (ValueError "2-3"), w')
       /\ extends (mkWorld bridge_doc (mkFilesys [] []) []) w'.
Proof.
  apply (unreadable_verse_number_raises Sample.limit Sample.splitter (YInt 1)
           (YInt 1) [1; 2; 3]%nat (mkWorld bridge_doc (mkFilesys [] []) [])
           1 "2-3").
  - repeat first [match goal with |- Forall _ _ => constructor end
                 | split | (vm_compute; lia)].
  - reflexivity.
  - reflexivity.
  - reflexivity.
Defined.

(** ** What a run does to texts and tails *)

Lemma blank_kept_refl (w : world) : blank_kept w w.
Proof. split; [lia | auto]. Qed.

Lemma blank_kept_trans (w1 w2 w3 : world) :
  blank_kept w1 w2 -> blank_kept w2 w3 -> blank_kept w1 w3.
Proof.
  intros [L12 H12] [L23 H23]. split; [lia|]. intros l Hl.
  assert (Hl2 : live (store w2) l) by (unfold live in *; lia).
  destruct (H12 l Hl) as [T12 U12]. destruct (H23 l Hl2) as [T23 U23].
  split.
  - destruct T12 as [E12 | [B1 B2]], T23 as [E23 | [B2' B3]].
    + left. congruence.
    + right. split; [congruence | exact B3].
    + right. split; [exact B1 | congruence].
    + right. now split.
  - destruct U12 as [E12 | [B1 B2]], U23 as [E23 | [B2' B3]].
    + left. congruence.
    + right. split; [congruence | exact B3].
    + right. split; [exact B1 | congruence].
    + right. now split.
Qed.

Lemma blank_kept_same (w w' : world) :
  (length (store w) <= length (store w'))%nat ->
  (forall l, live (store w) l -> deref (store w') l = deref (store w) l) ->
  blank_kept w w'.
Proof.
  intros Hlen Hd. split; [exact Hlen|]. intros l Hl.
  rewrite (Hd l Hl). auto.
Qed.

Lemma blank_kept_store (w w' : world) : store w' = store w -> blank_kept w w'.
Proof. intros E. apply blank_kept_same; rewrite E; auto. Qed.

Lemma extends_blank_kept (w w' : world) : extends w w' -> blank_kept w w'.
Proof.
  intros ([ext E] & _). apply blank_kept_same; rewrite E.
  - rewrite length_app. lia.
  - intros l Hl. now apply deref_app_l.
Qed.

(** The objects that a writer adds before it indents do not count. *)
Lemma blank_kept_app (w w1 w' : world) (ext : list Element) :
  store w1 = store w ++ ext -> blank_kept w1 w' -> blank_kept w w'.
Proof.
  intros E [Hlen H]. rewrite E in *. split.
  - rewrite length_app in Hlen. lia.
  - intros l Hl.
    assert (Hl1 : live (store w ++ ext) l)
      by (unfold live in *; rewrite length_app; lia).
    specialize (H l Hl1). now rewrite (deref_app_l _ _ _ Hl) in H.
Qed.

(** The strings that [_indent_xml] writes are white space. *)
Lemma lstrip_spaces2 (n : nat) (t : string) :
  PyStr.lstrip (PyStr.spaces2 n +:+ t) = PyStr.lstrip t.
Proof. induction n as [|n IH]; [reflexivity | exact IH]. Qed.

Lemma indent_string_blank (level : nat) :
  blank (Some (newline +:+ PyStr.spaces2 level)) = true
  /\ blank (Some ((newline +:+ PyStr.spaces2 level) +:+ "  ")) = true.
Proof.
  unfold blank, PyStr.has_content, PyStr.strip_truthy. split.
  - change (PyStr.lstrip (newline +:+ PyStr.spaces2 level))
      with (PyStr.lstrip (PyStr.spaces2 level)).
    assert (E : PyStr.lstrip (PyStr.spaces2 level) = "")
      by (induction level as [|n IH]; [reflexivity | exact IH]).
    rewrite E. now rewrite andb_false_r.
  - change (PyStr.lstrip ((newline +:+ PyStr.spaces2 level) +:+ "  "))
      with (PyStr.lstrip (PyStr.spaces2 level +:+ "  ")).
    rewrite lstrip_spaces2. cbn. now rewrite andb_false_r.
Qed.

Lemma set_text_blank (elem : loc) (t : string) (w w' : world)
    (r : result unit) :
  blank (Some t) = true ->
  (if blank (text (deref (store w) elem)) then set_text elem t else ret tt) w
  = (r, w') ->
  blank_kept w w'.
Proof.
  intros Ht. destruct (blank (text (deref (store w) elem))) eqn:B; intros H;
    inversion H; subst; [|apply blank_kept_refl].
  split; cbn [store]; [now rewrite length_insert|]. intros l Hl.
  destruct (decide (elem = l)) as [->|Hne].
  - rewrite (deref_insert_eq _ _ _ Hl). cbn [with_text text tail]. auto.
  - rewrite (deref_insert_ne _ _ _ _ Hne). auto.
Qed.

Lemma set_tail_blank (b : bool) (elem : loc) (t : string) (w w' : world)
    (r : result unit) :
  blank (Some t) = true ->
  (if b && blank (tail (deref (store w) elem)) then set_tail elem t else ret tt)
    w = (r, w') ->
  blank_kept w w'.
Proof.
  intros Ht. destruct (blank (tail (deref (store w) elem))) eqn:B;
    destruct b; cbn [andb]; intros H; inversion H; subst;
    try apply blank_kept_refl.
  split; cbn [store]; [now rewrite length_insert|]. intros l Hl.
  destruct (decide (elem = l)) as [->|Hne].
  - rewrite (deref_insert_eq _ _ _ Hl). cbn [with_tail text tail]. auto.
  - rewrite (deref_insert_ne _ _ _ _ Hne). auto.
Qed.

Lemma get_set_tail_blank (elem : loc) (t : string) :
  blank (Some t) = true ->
  preserves blank_kept
    (let* h := get_store in
     if blank (tail (deref h elem)) then set_tail elem t else ret tt).
Proof.
  intros Ht w w' r. rewrite bind_get_store.
  apply (set_tail_blank true); exact Ht.
Qed.

(** However it ends, [_indent_xml] changes blank texts and tails only, and
    what it writes is blank. *)
Lemma indent_blank_kept (fuel : nat) :
  forall (elem : loc) (level : nat),
    preserves blank_kept (_indent_xml fuel elem level).
Proof.
  pose proof blank_kept_refl as Rr. pose proof blank_kept_trans as Rt.
  induction fuel as [|fuel IH]; intros elem level.
  - apply preserves_raise; auto.
  - destruct (indent_string_blank level) as [Bi Bi2].
    intros w w' r. cbn [_indent_xml]. rewrite bind_get_store.
    destruct (0 <? length (children (deref (store w) elem)))%nat.
    + unfold bind at 1.
      destruct ((if blank (text (deref (store w) elem))
                 then set_text elem ((newline +:+ PyStr.spaces2 level) +:+ "  ")
                 else ret tt) w) as [[[]|x0] w1] eqn:E1; intros Hrun.
      * apply set_text_blank in E1; [|exact Bi2].
        apply (Rt w w1 w'); [exact E1|]. revert Hrun.
        apply preserves_bind; auto using get_set_tail_blank. intros _.
        apply preserves_bind; auto.
        { apply preserves_for_each; auto. }
        intros _. destruct (last (children (deref (store w) elem))) as [child|].
        -- now apply get_set_tail_blank.
        -- apply preserves_ret; auto.
      * apply set_text_blank in E1; [|exact Bi2]. now inversion Hrun; subst.
    + apply set_tail_blank. exact Bi.
Qed.

Lemma indent_write_print_blank (limit : nat) (root : loc) (p : path)
    (line : string) :
  preserves blank_kept
    (_indent_xml limit root 0 ;; write limit root p ;; print line).
Proof.
  pose proof blank_kept_refl as Rr. pose proof blank_kept_trans as Rt.
  apply preserves_bind; auto using indent_blank_kept. intros _.
  apply preserves_bind; auto.
  - intros w w' r. unfold write.
    destruct (serialize limit (store w) root); intros H; inversion H; subst;
      now apply blank_kept_store.
  - intros _ w w' r H. inversion H; subst. now apply blank_kept_store.
Qed.

Lemma create_chunk_file_blank (limit : nat) (self : USXSplitter)
    (chapter_num chunk_num : Z) (content : list loc) (is_title : bool)
    (w w' : world) (r : result unit) :
  Forall (live (store w)) content ->
  create_chunk_file limit self chapter_num chunk_num content is_title w
  = (r, w') ->
  blank_kept w w'.
Proof.
  intros Hlive Hrun.
  rewrite (create_chunk_file_run _ _ _ _ _ _ _ Hlive) in Hrun.
  apply indent_write_print_blank in Hrun.
  apply (blank_kept_app w _ w' _ (store_set_store _ _) Hrun).
Qed.

Lemma process_chunk_blank (limit : nat) (self : USXSplitter)
    (chapter_num chunk : scalar) (content : list loc) (w w' : world)
    (r : result unit) :
  closed (store w) ->
  Forall (live (store w)) content ->
  process_chunk limit self chapter_num content chunk w = (r, w') ->
  blank_kept w w'.
Proof.
  intros Hc Hlive Hrun. unfold process_chunk in Hrun.
  destruct (scalar_is chunk "title").
  - rewrite bind_get_store in Hrun.
    destruct (scalar_int chapter_num) as [n|x0];
      [rewrite bind_lift_ok in Hrun
      |rewrite bind_lift_raise in Hrun; inversion Hrun; apply blank_kept_refl].
    apply create_chunk_file_blank in Hrun;
      [exact Hrun | now apply extract_title_content_sub].
  - destruct (scalar_int chunk) as [cn|x0];
      [rewrite bind_lift_ok in Hrun
      |rewrite bind_lift_raise in Hrun; inversion Hrun; apply blank_kept_refl].
    unfold bind at 1 in Hrun.
    destruct (extract_verses_for_chunk content cn None w) as [[cc|x0] w1] eqn:Hex.
    + pose proof (extract_verses_for_chunk_extends _ _ _ _ _ _ Hex) as Hext.
      apply extends_blank_kept in Hext.
      apply blank_kept_trans with w1; [exact Hext|].
      pose proof (closed_deep_live_all _ _ Hc Hlive) as Hdeep.
      apply extract_verses_for_chunk_ok in Hex; [|exact Hdeep].
      destruct Hex as [-> ->].
      destruct (scalar_int chapter_num) as [n|x0];
        [rewrite bind_lift_ok in Hrun
        |rewrite bind_lift_raise in Hrun; inversion Hrun; apply blank_kept_refl].
      apply create_chunk_file_blank in Hrun; [exact Hrun|].
      rewrite store_set_store. now apply chunk_facts.
    + inversion Hrun; subst. apply extends_blank_kept.
      now apply (extract_verses_for_chunk_extends _ _ _ _ _ _ Hex).
Qed.

(** A loop whose turns keep a relation, each from a state that satisfies an
    invariant which normal turns keep. *)
Lemma for_each_rel {A} (R : world -> world -> Prop) (Inv : world -> Prop)
    (body : A -> M unit) (xs : list A) :
  (forall w, R w w) ->
  (forall w1 w2 w3, R w1 w2 -> R w2 w3 -> R w1 w3) ->
  (forall x w w' r, Inv w -> body x w = (r, w') ->
                    R w w' /\ (r = Ok tt -> Inv w')) ->
  forall w w' r,
    Inv w -> for_each body xs w = (r, w') -> R w w' /\ (r = Ok tt -> Inv w').
Proof.
  intros Rr Rt Hbody. induction xs as [|x xs IH]; intros w w' r Hi Hrun.
  - inversion Hrun; subst. split; [apply Rr | auto].
  - cbn [for_each] in Hrun. unfold bind at 1 in Hrun.
    destruct (body x w) as [[[]|x0] wm] eqn:Hstep.
    + destruct (Hbody _ _ _ _ Hi Hstep) as (Hk & Him).
      destruct (IH wm w' r (Him eq_refl) Hrun) as (Hk' & Hif).
      split; [now apply Rt with wm | exact Hif].
    + inversion Hrun; subst. split; [|discriminate].
      now apply (Hbody _ _ _ _ Hi Hstep).
Qed.

Lemma process_chapter_blank (limit : nat) (self : USXSplitter)
    (chapter_info : toc_entry) (w w' : world) (r : result unit) :
  closed (store w) ->
  process_chapter limit self chapter_info w = (r, w') ->
  blank_kept w w'.
Proof.
  intros Hc Hrun. unfold process_chapter in Hrun. rewrite bind_print in Hrun.
  set (wp := mkWorld (store w) (disk w) _) in Hrun.
  destruct (extract_chapter_content_run self (chapter chapter_info) wp)
    as (lines & Hex).
  rewrite (bind_ok _ _ _ _ _ Hex) in Hrun.
  change (store wp) with (store w) in Hrun.
  set (content := fst (chapter_scan _ _ _ _ _ _)) in Hrun.
  assert (Hlive : Forall (live (store w)) content).
  { apply chapter_scan_sub; [|constructor]. now apply closed_children_live. }
  destruct content as [|first rest] eqn:Econtent.
  - inversion Hrun; subst. now apply blank_kept_store.
  - rewrite <- Econtent in *.
    apply (for_each_rel blank_kept
             (fun w0 => closed (store w0) /\ Forall (live (store w0)) content))
      in Hrun.
    + apply (blank_kept_trans w (mkWorld (store w) (disk wp) (stdout wp ++ lines)));
        [now apply blank_kept_store | apply Hrun].
    + apply blank_kept_refl.
    + apply blank_kept_trans.
    + intros x w0 w1 r0 [Hc0 Hl0] Hstep. split.
      * now apply (process_chunk_blank _ _ _ _ _ _ _ _ Hc0 Hl0 Hstep).
      * intros ->.
        destruct (process_chunk_ok _ _ _ _ _ _ _ Hc0 Hl0 Hstep) as (C & L & _).
        now split.
    + now split.
Qed.

Lemma process_front_matter_blank (limit : nat) (self : USXSplitter)
    (front_info : toc_entry) (w w' : world) (r : result unit) :
  closed (store w) ->
  process_front_matter limit self front_info w = (r, w') ->
  blank_kept w w'.
Proof.
  intros Hc Hrun. unfold process_front_matter in Hrun.
  rewrite bind_print, bind_mkdir, bind_get_store in Hrun.
  set (w2 := with_dirs _ _) in Hrun.
  change (store w2) with (store w) in Hrun.
  set (content := front_scan _ _ _) in Hrun.
  assert (Hlive : Forall (live (store w)) content).
  { apply front_scan_sub; [|constructor]. now apply closed_children_live. }
  destruct content as [|first rest] eqn:Econtent.
  - inversion Hrun; subst. now apply blank_kept_store.
  - rewrite <- Econtent in *. clear Econtent.
    rewrite bind_new_element in Hrun. change (store w2) with (store w) in Hrun.
    erewrite bind_ok in Hrun
      by (apply for_each_append; now apply live_app_new).
    rewrite store_set_store, set_store_twice in Hrun.
    rewrite deref_app_new0, insert_app_new in Hrun.
    apply indent_write_print_blank in Hrun.
    apply (blank_kept_app w _ w' _ (store_set_store _ _) Hrun).
Qed.

(** X7.  A run of the splitter, however it ends, leaves every text and every
    tail of the source document that holds something else than white space
    as it is.  A text or tail that it changes held nothing or white space
    only, and holds white space afterwards (the indentation).  So the words
    of the source are never altered, although its objects are shared with
    the trees that are written. *)
Theorem run_rewrites_blanks_only (limit : nat) (out_dir : path)
    (src : sources) (w w' : world) (r : result unit) :
  closed (store w) ->
  run limit out_dir src w = (r, w') ->
  forall l, live (store w) l ->
    (text (deref (store w') l) = text (deref (store w) l)
     \/ (blank (text (deref (store w) l)) = true
         /\ blank (text (deref (store w') l)) = true))
    /\ (tail (deref (store w') l) = tail (deref (store w) l)
        \/ (blank (tail (deref (store w) l)) = true
            /\ blank (tail (deref (store w') l)) = true)).
Proof.
  intros Hc Hrun.
  assert (Hk : blank_kept w w'); [|exact (proj2 Hk)].
  unfold run, load_toc, load_usx in Hrun.
  rewrite bind_print, bind_assoc, bind_print, bind_ret in Hrun.
  rewrite bind_assoc, bind_get_store, bind_assoc, bind_print, bind_ret in Hrun.
  rewrite bind_mkdir in Hrun.
  set (w4 := with_dirs _ _) in Hrun.
  apply (blank_kept_trans w w4); [now apply blank_kept_store|].
  unfold bind at 1 in Hrun.
  destruct (for_each _ (yaml_doc src) w4) as [[[]|x0] w5] eqn:Hloop;
    apply (for_each_rel blank_kept (fun w0 => closed (store w0))) in Hloop;
    try apply blank_kept_refl; try apply blank_kept_trans; try exact Hc.
  - inversion Hrun; subst.
    apply (blank_kept_trans w4 w5); [apply Hloop | now apply blank_kept_store].
  - clear. intros x w w' r Hc Hrun.
    destruct (scalar_is (chapter x) "front").
    + split; [now apply (process_front_matter_blank _ _ _ _ _ _ Hc Hrun)|].
      now apply (process_front_matter_frame _ _ _ _ _ _ Hc Hrun).
    + split; [now apply (process_chapter_blank _ _ _ _ _ _ Hc Hrun)|].
      now apply (process_chapter_frame _ _ _ _ _ _ Hc Hrun).
  - inversion Hrun; subst. apply Hloop.
  - clear. intros x w w' r Hc Hrun.
    destruct (scalar_is (chapter x) "front").
    + split; [now apply (process_front_matter_blank _ _ _ _ _ _ Hc Hrun)|].
      now apply (process_front_matter_frame _ _ _ _ _ _ Hc Hrun).
    + split; [now apply (process_chapter_blank _ _ _ _ _ _ Hc Hrun)|].
      now apply (process_chapter_frame _ _ _ _ _ _ Hc Hrun).
Qed.


Lemma run_rewrites_blanks_only_witness :
  (text (deref (store (snd (run Sample.limit ["out"]
                              (mkSources Sample.toc 0%nat) Sample.world0)))
           6%nat)
   = text (deref Sample.doc 6%nat)
   \/ (blank (text (deref Sample.doc 6%nat)) = true
       /\ blank (text (deref (store (snd (run Sample.limit ["out"]
                                            (mkSources Sample.toc 0%nat)
                                            Sample.world0))) 6%nat)) = true))
  /\ (tail (deref (store (snd (run Sample.limit ["out"]
                                 (mkSources Sample.toc 0%nat) Sample.world0)))
              6%nat)
      = tail (deref Sample.doc 6%nat)
      \/ (blank (tail (deref Sample.doc 6%nat)) = true
          /\ blank (tail (deref (store (snd (run Sample.limit ["out"]
                                               (mkSources Sample.toc 0%nat)
                                               Sample.world0))) 6%nat)) = true)).
Proof.
  apply (run_rewrites_blanks_only Sample.limit ["out"]
           (mkSources Sample.toc 0%nat) Sample.world0
           (snd (run Sample.limit ["out"] (mkSources Sample.toc 0%nat)
                   Sample.world0))
           (fst (run Sample.limit ["out"] (mkSources Sample.toc 0%nat)
                   Sample.world0))).
  - exact sample_closed.
  - vm_compute. reflexivity.
  - vm_compute. lia.
Defined.

(** ** The files of a chapter *)

Lemma process_chunk_written (limit : nat) (self : USXSplitter)
    (chapter_num chunk : scalar) (content : list loc) (n : Z) (w w' : world) :
  closed (store w) ->
  Forall (live (store w)) content ->
  scalar_int chapter_num = Ok n ->
  process_chunk limit self chapter_num content chunk w = (Ok tt, w') ->
  exists f, files (disk w') = f :: files (disk w)
            /\ written_for self n chunk f.
Proof.
  intros Hc Hlive Hn Hrun. unfold written_for.
  destruct (scalar_is chunk "title") eqn:Ht.
  - unfold process_chunk in Hrun. rewrite Ht, bind_get_store, Hn in Hrun.
    rewrite bind_lift_ok in Hrun.
    apply create_chunk_file_ok in Hrun;
      [|now apply extract_title_content_sub].
    destruct Hrun as (x & Hf & Htag & _).
    exists (chunk_path self n 0 true, x). auto.
  - pose proof (closed_deep_live_all _ _ Hc Hlive) as Hdeep.
    destruct (process_chunk_verse_ok _ _ _ _ _ _ _ Hdeep Ht Hrun)
      as (n' & cn & x & ext & Hn' & Hcn & Hf & _).
    assert (n' = n) by congruence. subst n'.
    exists (chunk_path self n cn false, x). split; [exact Hf|].
    split; [|eauto].
    unfold process_chunk in Hrun. rewrite Ht, Hcn, bind_lift_ok in Hrun.
    apply bind_inv_ok in Hrun. destruct Hrun as (cc & w1 & Hex & Hrun).
    rewrite Hn, bind_lift_ok in Hrun.
    pose proof (extract_verses_for_chunk_extends _ _ _ _ _ _ Hex) as (_ & Hd & _).
    apply extract_verses_for_chunk_ok in Hex; [|exact Hdeep].
    destruct Hex as [-> ->].
    apply create_chunk_file_ok in Hrun;
      [|rewrite store_set_store; now apply chunk_facts].
    destruct Hrun as (x' & Hf' & Htag & _).
    cbn [disk set_store] in Hf'. rewrite Hf in Hf'.
    inversion Hf'; subst. exact Htag.
Qed.

Lemma chunk_loop_written (limit : nat) (self : USXSplitter)
    (chapter_num : scalar) (content : list loc) (n : Z)
    (chunks : list scalar) :
  scalar_int chapter_num = Ok n ->
  forall w w' : world,
    closed (store w) ->
    Forall (live (store w)) content ->
    for_each (process_chunk limit self chapter_num content) chunks w
    = (Ok tt, w') ->
    exists new, files (disk w') = rev new ++ files (disk w)
                /\ Forall2 (written_for self n) chunks new.
Proof.
  intros Hn. induction chunks as [|c chunks IH]; intros w w' Hc Hlive Hrun.
  - inversion Hrun; subst. exists []. split; [reflexivity | constructor].
  - cbn [for_each] in Hrun. apply bind_inv_ok in Hrun.
    destruct Hrun as ([] & wm & Hstep & Hrest).
    destruct (process_chunk_ok _ _ _ _ _ _ _ Hc Hlive Hstep)
      as (Hc' & Hlive' & _).
    destruct (process_chunk_written _ _ _ _ _ _ _ _ Hc Hlive Hn Hstep)
      as (f & Hf & Hw).
    destruct (IH wm w' Hc' Hlive' Hrest) as (new & Hnew & Hall).
    exists (f :: new). split; [|now constructor].
    rewrite Hnew, Hf. cbn [rev]. now rewrite <- app_assoc.
Qed.

(** X9.  The files of a chapter.  When [process_chapter] ends normally for a
    chapter that is in the document, it has written one file for each chunk
    of the TOC entry, in the order of the entry, and no other file: a
    [usx] document named [title.usx] for the title and [KK.usx] for a verse
    chunk, KK being the number of the chunk itself on two digits (not its
    position in the entry), all in the directory [NN] of the chapter. *)
Theorem chapter_files (limit : nat) (self : USXSplitter)
    (chapter_info : toc_entry) (w w' : world) (first : loc) (rest : list loc)
    (n : Z) :
  closed (store w) ->
  fst (extract_chapter_content self (chapter chapter_info) w)
  = Ok (first :: rest) ->
  scalar_int (chapter chapter_info) = Ok n ->
  process_chapter limit self chapter_info w = (Ok tt, w') ->
  exists new,
    files (disk w') = rev new ++ files (disk w)
    /\ Forall2 (written_for self n) (chunks chapter_info) new.
Proof.
  intros Hc Hcontent Hn Hrun.
  unfold process_chapter in Hrun. rewrite bind_print in Hrun.
  set (wp := mkWorld (store w) (disk w) _) in Hrun.
  destruct (extract_chapter_content_run self (chapter chapter_info) wp)
    as (lines & Hex).
  destruct (extract_chapter_content_run self (chapter chapter_info) w)
    as (lines0 & Hex0).
  rewrite Hex0 in Hcontent. cbn [fst] in Hcontent.
  assert (Hscan : fst (chapter_scan (store w)
                         (scalar_str (chapter chapter_info))
                         (children (deref (store w) (usx_content self)))
                         false false []) = first :: rest)
    by (now inversion Hcontent).
  rewrite (bind_ok _ _ _ _ _ Hex) in Hrun. change (store wp) with (store w) in Hrun.
  rewrite Hscan in Hrun.
  apply (chunk_loop_written limit self _ _ n _ Hn) in Hrun.
  - exact Hrun.
  - exact Hc.
  - cbn [store]. rewrite <- Hscan. apply chapter_scan_sub; [|constructor].
    now apply closed_children_live.
Qed.

Lemma chapter_files_witness :
  exists new,
    files (disk (snd (process_chapter Sample.limit Sample.splitter
                        (TocEntry (YInt 1) [YStr "title"; YInt 4; YInt 2])
                        Sample.world0)))
    = rev new ++ []
    /\ Forall2 (written_for Sample.splitter 1)
         [YStr "title"; YInt 4; YInt 2] new.
Proof.
  apply (chapter_files Sample.limit Sample.splitter
           (TocEntry (YInt 1) [YStr "title"; YInt 4; YInt 2])
           Sample.world0
           (snd (process_chapter Sample.limit Sample.splitter
                   (TocEntry (YInt 1) [YStr "title"; YInt 4; YInt 2])
                   Sample.world0))
           4%nat [5; 6]%nat 1).
  - exact sample_closed.
  - reflexivity.
  - reflexivity.
  - vm_compute. reflexivity.
Defined.


(** ** Runs on well-formed input *)

Lemma readable_ok (v : scalar) :
  readable v = true -> exists n, scalar_int v = Ok n.
Proof. unfold readable. destruct (scalar_int v); [eauto | discriminate]. Qed.

Lemma process_chapter_total (limit : nat) (self : USXSplitter)
    (chapter_info : toc_entry) (w : world) :
  closed (store w) ->
  all_parse (store w) (children (deref (store w) (usx_content self))) ->
  Forall (depth_le (store w) (pred limit))
    (children (deref (store w) (usx_content self))) ->
  (2 <= limit)%nat ->
  readable (chapter chapter_info) = true ->
  forallb (fun c => scalar_is c "title" || readable c) (chunks chapter_info)
  = true ->
  exists w', process_chapter limit self chapter_info w = (Ok tt, w').
Proof.
  intros Hc Hparse Hdepth Hlimit Hn Hchunks.
  unfold process_chapter. rewrite bind_print.
  set (wp := mkWorld (store w) (disk w) _).
  destruct (extract_chapter_content_run self (chapter chapter_info) wp)
    as (lines & Hex).
  rewrite (bind_ok _ _ _ _ _ Hex). change (store wp) with (store w).
  set (content := fst (chapter_scan _ _ _ _ _ _)).
  assert (Hsub : forall P : loc -> Prop,
            Forall P (children (deref (store w) (usx_content self))) ->
            Forall P content).
  { intros P HP. apply chapter_scan_sub; [exact HP | constructor]. }
  destruct content as [|first rest] eqn:Econtent; [eexists; reflexivity|].
  rewrite <- Econtent in *.
  destruct (readable_ok _ Hn) as [n Hn'].
  apply (chunk_loop_total limit self (chapter chapter_info) content n);
    cbn [store]; auto.
  - apply Hsub. now apply closed_children_live.
  - rewrite forallb_forall in Hchunks. apply Forall_forall.
    intros c Hin Ht. apply list_elem_of_In in Hin.
    specialize (Hchunks c Hin). rewrite Ht in Hchunks.
    now apply readable_ok.
  - unfold all_parse in *. now apply Hsub.
Qed.

Lemma process_front_matter_total (limit : nat) (self : USXSplitter)
    (front_info : toc_entry) (w : world) :
  closed (store w) ->
  Forall (depth_le (store w) (pred limit))
    (children (deref (store w) (usx_content self))) ->
  (2 <= limit)%nat ->
  exists w', process_front_matter limit self front_info w = (Ok tt, w').
Proof.
  intros Hc Hdepth Hlimit. unfold process_front_matter.
  rewrite bind_print, bind_mkdir, bind_get_store.
  set (w2 := with_dirs _ _).
  change (store w2) with (store w).
  set (content := front_scan _ _ _).
  assert (Hlive : Forall (live (store w)) content).
  { apply front_scan_sub; [|constructor]. now apply closed_children_live. }
  assert (Hd : Forall (depth_le (store w) (pred limit)) content).
  { apply front_scan_sub; [exact Hdepth | constructor]. }
  destruct content as [|first rest] eqn:Econtent; [eexists; reflexivity|].
  rewrite <- Econtent in *.
  rewrite bind_new_element. change (store w2) with (store w).
  erewrite bind_ok by (apply for_each_append; now apply live_app_new).
  rewrite store_set_store, set_store_twice.
  rewrite deref_app_new0, insert_app_new.
  apply indent_write_print_ok. rewrite store_set_store.
  destruct limit as [|m]; [lia|]. cbn [depth_le pred] in *.
  rewrite deref_app_new0. cbn [children add_children app].
  rewrite Forall_forall in Hlive, Hd. apply Forall_forall.
  intros y Hy. apply depth_le_app; auto.
Qed.

(** The document seen from a later state of the run. *)
Lemma kept_document (w0 w1 : world) (root : loc) (limit : nat) :
  closed (store w0) ->
  live (store w0) root ->
  shape_kept w0 w1 ->
  all_parse (store w0) (children (deref (store w0) root)) ->
  depth_le (store w0) limit root ->
  (2 <= limit)%nat ->
  all_parse (store w1) (children (deref (store w1) root))
  /\ Forall (depth_le (store w1) (pred limit))
       (children (deref (store w1) root)).
Proof.
  intros Hc Hroot Hk Hparse Hdepth Hlimit.
  pose proof (closed_children_live _ root Hc) as Hlive.
  destruct (proj2 Hk root Hroot) as (_ & _ & ->).
  split.
  - apply (kept_all_parse w0 w1); auto using closed_deep_live_all.
  - destruct limit as [|m]; [lia|]. cbn [depth_le pred] in *.
    rewrite Forall_forall in Hlive, Hdepth. apply Forall_forall.
    intros x Hx. apply (depth_le_kept w0 w1); auto.
Qed.

Lemma run_total (limit : nat) (out_dir : path) (root : loc)
    (entries : list toc_entry) (w : world) :
  closed (store w) ->
  live (store w) root ->
  all_parse (store w) (children (deref (store w) root)) ->
  depth_le (store w) limit root ->
  (2 <= limit)%nat ->
  forallb entry_readable entries = true ->
  exists w', run limit out_dir (mkSources entries root) w = (Ok tt, w').
Proof.
  intros Hc Hroot Hparse Hdepth Hlimit Hentries.
  unfold run, load_toc, load_usx. cbn [yaml_doc usx_doc].
  rewrite bind_print, bind_assoc, bind_print, bind_ret.
  rewrite bind_assoc, bind_get_store, bind_assoc, bind_print, bind_ret.
  rewrite bind_mkdir.
  set (w4 := with_dirs _ _).
  set (self := mkSplitter out_dir entries root).
  destruct (for_each_ok
              (fun w1 => closed (store w1) /\ shape_kept w4 w1)
              (fun chapter_info =>
                 if scalar_is (chapter chapter_info) "front"
                 then process_front_matter limit self chapter_info
                 else process_chapter limit self chapter_info) entries)
    with (w := w4) as (w5 & Hloop & _).
  - rewrite forallb_forall in Hentries. apply Forall_forall.
    intros x Hin w1 [Hc1 Hk1]. apply list_elem_of_In in Hin.
    specialize (Hentries x Hin). unfold entry_readable in Hentries.
    destruct (kept_document w4 w1 root limit Hc Hroot Hk1 Hparse Hdepth Hlimit)
      as [Hparse1 Hdepth1].
    destruct (scalar_is (chapter x) "front").
    + destruct (process_front_matter_total limit self x w1 Hc1 Hdepth1 Hlimit)
        as (w2 & Hstep).
      exists w2. split; [exact Hstep|].
      destruct (process_front_matter_frame _ _ _ _ _ _ Hc1 Hstep) as [Hk2 Hc2].
      split; [auto | now apply shape_kept_trans with w1].
    + cbn [orb] in Hentries. apply andb_prop in Hentries.
      destruct Hentries as [Hn Hchunks].
      destruct (process_chapter_total limit self x w1 Hc1 Hparse1 Hdepth1
                  Hlimit Hn Hchunks) as (w2 & Hstep).
      exists w2. split; [exact Hstep|].
      destruct (process_chapter_frame _ _ _ _ _ _ Hc1 Hstep) as [Hk2 Hc2].
      split; [auto | now apply shape_kept_trans with w1].
  - split; [exact Hc | apply shape_kept_refl].
  - rewrite (bind_ok _ _ _ _ _ Hloop). eexists. reflexivity.
Qed.

(** X10.  On well-formed input the conversion succeeds.  When the document is
    closed (every child is an object of the store), every verse number in
    its paragraphs is one that [int] reads, the document is no deeper than
    the stack allows, and every TOC entry is the front matter or a chapter
    whose number is a number and whose chunks are the title or numbers, then
    [main] of [cli.py] returns the exit status 0 and its last two lines of
    output announce the success and the output directory.  No exception is
    raised on the way, whether or not the chapters of the TOC are in the
    document.  (Failures of the file system are outside the embedding.) *)
Theorem well_formed_input_succeeds (limit : nat) (args : arguments)
    (root : loc) (entries : list toc_entry) (w : world) :
  closed (store w) ->
  live (store w) root ->
  all_parse (store w) (children (deref (store w) root)) ->
  depth_le (store w) limit root ->
  (2 <= limit)%nat ->
  forallb entry_readable entries = true ->
  exists (w' : world) (lines : list string),
    cli_main limit args (Some root) (Some entries) w = (Ok 0, w')
    /\ stdout w'
       = lines ++ [newline +:+ "Conversion completed successfully!";
                   "Output files created in: " +:+ arg_output_dir args].
Proof.
  intros Hc Hroot Hparse Hdepth Hlimit Hentries.
  destruct (run_total limit (path_of_string (arg_output_dir args)) root
              entries w
              Hc Hroot Hparse Hdepth Hlimit Hentries) as (w1 & Hrun).
  unfold cli_main. rewrite Hrun. rewrite !bind_print.
  eexists _, (stdout w1). split; [reflexivity|].
  cbn [stdout]. now rewrite <- app_assoc.
Qed.

Lemma well_formed_input_succeeds_witness :
  exists (w' : world) (lines : list string),
    cli_main Sample.limit Sample.args (Some 0%nat)
      (Some (Sample.toc ++ [TocEntry (YStr "7") [YInt 1]])) Sample.world0
    = (Ok 0, w')
    /\ stdout w'
       = lines ++ [newline +:+ "Conversion completed successfully!";
                   "Output files created in: " +:+ arg_output_dir Sample.args].
Proof.
  apply (well_formed_input_succeeds Sample.limit Sample.args 0%nat
           (Sample.toc ++ [TocEntry (YStr "7") [YInt 1]]) Sample.world0).
  - exact sample_closed.
  - vm_compute. lia.
  - unfold all_parse, verses_parse. by_cases.
  - repeat first [match goal with |- Forall _ _ => constructor end | progress cbn].
  - vm_compute. lia.
  - reflexivity.
Defined.


(** ** A chunk that is no number *)

Lemma bind_ext {A B} (m : M A) (k1 k2 : A -> M B) (w : world) :
  (forall a w1, k1 a w1 = k2 a w1) -> bind m k1 w = bind m k2 w.
Proof. intros E. unfold bind. destruct (m w) as [[a|e] w1]; auto. Qed.

Lemma for_each_app {A} (body : A -> M unit) (xs ys : list A) (w : world) :
  for_each body (xs ++ ys) w = (for_each body xs ;; for_each body ys) w.
Proof.
  revert w. induction xs as [|x xs IH]; intros w; cbn [app for_each].
  - now rewrite bind_ret.
  - rewrite bind_assoc. apply bind_ext. intros _ w1. apply IH.
Qed.

(** The loop of [run] over readable entries ends normally and keeps the
    document. *)
Lemma entries_loop_total (limit : nat) (self : USXSplitter)
    (entries : list toc_entry) (w : world) :
  closed (store w) ->
  live (store w) (usx_content self) ->
  all_parse (store w) (children (deref (store w) (usx_content self))) ->
  depth_le (store w) limit (usx_content self) ->
  (2 <= limit)%nat ->
  forallb entry_readable entries = true ->
  exists w',
    for_each (fun chapter_info =>
                if scalar_is (chapter chapter_info) "front"
                then process_front_matter limit self chapter_info
                else process_chapter limit self chapter_info) entries w
    = (Ok tt, w')
    /\ closed (store w') /\ shape_kept w w'.
Proof.
  intros Hc Hroot Hparse Hdepth Hlimit Hentries.
  apply (for_each_ok (fun w1 => closed (store w1) /\ shape_kept w w1)).
  - rewrite forallb_forall in Hentries. apply Forall_forall.
    intros x Hin w1 [Hc1 Hk1]. apply list_elem_of_In in Hin.
    specialize (Hentries x Hin). unfold entry_readable in Hentries.
    destruct (kept_document w w1 (usx_content self) limit Hc Hroot Hk1 Hparse
                Hdepth Hlimit) as [Hparse1 Hdepth1].
    destruct (scalar_is (chapter x) "front").
    + destruct (process_front_matter_total limit self x w1 Hc1 Hdepth1 Hlimit)
        as (w2 & Hstep).
      exists w2. split; [exact Hstep|].
      destruct (process_front_matter_frame _ _ _ _ _ _ Hc1 Hstep) as [Hk2 Hc2].
      split; [auto | now apply shape_kept_trans with w1].
    + cbn [orb] in Hentries. apply andb_prop in Hentries.
      destruct Hentries as [Hn Hchunks].
      destruct (process_chapter_total limit self x w1 Hc1 Hparse1 Hdepth1
                  Hlimit Hn Hchunks) as (w2 & Hstep).
      exists w2. split; [exact Hstep|].
      destruct (process_chapter_frame _ _ _ _ _ _ Hc1 Hstep) as [Hk2 Hc2].
      split; [auto | now apply shape_kept_trans with w1].
  - split; [exact Hc | apply shape_kept_refl].
Qed.

Lemma kept_is_start_of (w w1 : world) (target : string) (l : loc) :
  shape_kept w w1 -> live (store w) l ->
  is_start_of (store w1) target l = is_start_of (store w) target l.
Proof.
  intros [_ Hs] Hl. destruct (Hs l Hl) as (T & A & _).
  unfold is_start_of, is_chapter, get. now rewrite T, A.
Qed.

(** A chapter that has a start marker has content. *)
Lemma chapter_scan_found (h : heap) (target : string) (elements : list loc) :
  Exists (fun x => is_start_of h target x = true) elements ->
  exists first rest,
    fst (chapter_scan h target elements false false []) = first :: rest.
Proof.
  intros Hex.
  destruct (chapter_scan_span h target elements)
    as (pre & seg & post & E & Hpre & Hrun & Hhead).
  rewrite Hrun. destruct seg as [|first rest]; [|now exists first, rest].
  subst post. rewrite !app_nil_r in E. subst pre. exfalso.
  apply Exists_exists in Hex. destruct Hex as (x & Hin & Hx).
  rewrite Forall_forall in Hpre. specialize (Hpre x Hin). congruence.
Qed.

(** A chapter in the document whose list of chunks has, after chunks that
    can be followed, one that [int] does not read. *)
Lemma process_chapter_bad_chunk (limit : nat) (self : USXSplitter)
    (chapter_info : toc_entry) (w : world) (good more : list scalar)
    (bad : scalar) (e : exn) :
  closed (store w) ->
  all_parse (store w) (children (deref (store w) (usx_content self))) ->
  Forall (depth_le (store w) (pred limit))
    (children (deref (store w) (usx_content self))) ->
  (2 <= limit)%nat ->
  Exists (fun x => is_start_of (store w)
                     (scalar_str (chapter chapter_info)) x = true)
    (children (deref (store w) (usx_content self))) ->
  readable (chapter chapter_info) = true ->
  chunks chapter_info = good ++ bad :: more ->
  forallb (fun c => scalar_is c "title" || readable c) good = true ->
  scalar_is bad "title" = false ->
  scalar_int bad = Raise e ->
  exists w', process_chapter limit self chapter_info w = (Raise e, w').
Proof.
  intros Hc Hparse Hdepth Hlimit Hstart Hn Hchunks Hgood Ht Hbad.
  unfold process_chapter. rewrite bind_print.
  set (wp := mkWorld (store w) (disk w) _).
  destruct (extract_chapter_content_run self (chapter chapter_info) wp)
    as (lines & Hex).
  rewrite (bind_ok _ _ _ _ _ Hex). change (store wp) with (store w).
  destruct (chapter_scan_found _ _ _ Hstart) as (first & rest & Hscan).
  assert (Hsub : forall P : loc -> Prop,
            Forall P (children (deref (store w) (usx_content self))) ->
            Forall P (first :: rest)).
  { intros P HP. rewrite <- Hscan. apply chapter_scan_sub; [exact HP | constructor]. }
  rewrite Hscan, Hchunks, for_each_app.
  destruct (readable_ok _ Hn) as [n Hn'].
  destruct (chunk_loop_total limit self (chapter chapter_info) (first :: rest)
              n good (mkWorld (store w) (disk wp) (stdout wp ++ lines)))
    as (w1 & Hloop); cbn [store]; auto.
  - apply Hsub. now apply closed_children_live.
  - rewrite forallb_forall in Hgood. apply Forall_forall.
    intros c Hin Htc. apply list_elem_of_In in Hin.
    specialize (Hgood c Hin). rewrite Htc in Hgood. now apply readable_ok.
  - unfold all_parse in *. now apply Hsub.
  - rewrite (bind_ok _ _ _ _ _ Hloop). cbn [for_each].
    exists w1. apply bind_raise. unfold process_chunk.
    now rewrite Ht, Hbad, bind_lift_raise.
Qed.

(** X8.  A chunk that is no number stops the conversion.  Take a well-formed
    document and a TOC whose entries can be followed up to some chapter that
    is in the document; in the chunks of that chapter, after chunks that can
    be followed, comes one that is neither the title nor a number that [int]
    reads (a range such as [1-3], say).  Then the run goes as far as that
    chunk and stops there with the error of [int]: [main] of [cli.py]
    returns the exit status 1, and its last line of output is the report of
    an error during the conversion. *)
Theorem unreadable_chunk_stops_conversion (limit : nat) (args : arguments)
    (root : loc) (before after : list toc_entry) (entry : toc_entry)
    (good more : list scalar) (bad : scalar) (e : exn) (w : world) :
  closed (store w) ->
  live (store w) root ->
  all_parse (store w) (children (deref (store w) root)) ->
  depth_le (store w) limit root ->
  (2 <= limit)%nat ->
  forallb entry_readable before = true ->
  scalar_is (chapter entry) "front" = false ->
  readable (chapter entry) = true ->
  Exists (fun x => is_start_of (store w) (scalar_str (chapter entry)) x = true)
    (children (deref (store w) root)) ->
  chunks entry = good ++ bad :: more ->
  forallb (fun c => scalar_is c "title" || readable c) good = true ->
  scalar_is bad "title" = false ->
  scalar_int bad = Raise e ->
  fst (splitter_main limit args root (before ++ entry :: after) w) = Raise e
  /\ exists (w' : world) (lines : list string) (msg : string),
       cli_main limit args (Some root) (Some (before ++ entry :: after)) w
       = (Ok 1, w')
       /\ stdout w' = lines ++ ["Error during conversion: " +:+ msg].
Proof.
  intros Hc Hroot Hparse Hdepth Hlimit Hbefore Hfront Hn Hstart Hchunks Hgood
    Ht Hbad.
  assert (Hrun : exists w2,
            run limit (path_of_string (arg_output_dir args))
              (mkSources (before ++ entry :: after) root) w = (Raise e, w2)).
  { unfold run, load_toc, load_usx. cbn [yaml_doc usx_doc].
    rewrite bind_print, bind_assoc, bind_print, bind_ret.
    rewrite bind_assoc, bind_get_store, bind_assoc, bind_print, bind_ret.
    rewrite bind_mkdir.
    set (w4 := with_dirs _ _).
    set (self := mkSplitter (path_of_string (arg_output_dir args))
                   (before ++ entry :: after) root).
    destruct (entries_loop_total limit self before w4 Hc Hroot Hparse Hdepth
                Hlimit Hbefore) as (w5 & Hloop & Hc5 & Hk5).
    destruct (kept_document w4 w5 root limit Hc Hroot Hk5 Hparse Hdepth Hlimit)
      as [Hparse5 Hdepth5].
    assert (Hstart5 : Exists (fun x => is_start_of (store w5)
                                (scalar_str (chapter entry)) x = true)
                        (children (deref (store w5) root))).
    { destruct (proj2 Hk5 root Hroot) as (_ & _ & ->).
      pose proof (closed_children_live (store w4) root Hc) as Hlive.
      apply Exists_exists in Hstart. destruct Hstart as (x & Hin & Hx).
      apply Exists_exists. exists x. split; [exact Hin|].
      rewrite Forall_forall in Hlive.
      now rewrite (kept_is_start_of w4 w5 _ x Hk5 (Hlive x Hin)). }
    destruct (process_chapter_bad_chunk limit self entry w5 good more bad e
                Hc5 Hparse5 Hdepth5 Hlimit Hstart5 Hn Hchunks Hgood Ht Hbad)
      as (w6 & Hstep).
    exists w6. apply bind_raise. rewrite for_each_app.
    rewrite (bind_ok _ _ _ _ _ Hloop). cbn [for_each]. apply bind_raise.
    now rewrite Hfront. }
  destruct Hrun as (w2 & Hrun). split.
  - unfold splitter_main. now rewrite Hrun.
  - unfold cli_main. rewrite Hrun. rewrite bind_print.
    eexists _, (stdout w2), (exn_str e). split; reflexivity.
Qed.

Lemma unreadable_chunk_stops_conversion_witness :
  fst (splitter_main Sample.limit Sample.args 0%nat
         ([TocEntry (YStr "front") []]
          ++ TocEntry (YInt 1) [YStr "title"; YInt 1; YStr "2-3"; YInt 4]
          :: [TocEntry (YInt 2) [YInt 1]]) Sample.world0)
  = Raise (ValueError "2-3")
  /\ exists (w' : world) (lines : list string) (msg : string),
       cli_main Sample.limit Sample.args (Some 0%nat)
         (Some ([TocEntry (YStr "front") []]
                ++ TocEntry (YInt 1) [YStr "title"; YInt 1; YStr "2-3"; YInt 4]
                :: [TocEntry (YInt 2) [YInt 1]])) Sample.world0
       = (Ok 1, w')
       /\ stdout w' = lines ++ ["Error during conversion: " +:+ msg].
Proof.
  apply (unreadable_chunk_stops_conversion Sample.limit Sample.args 0%nat
           [TocEntry (YStr "front") []] [TocEntry (YInt 2) [YInt 1]]
           (TocEntry (YInt 1) [YStr "title"; YInt 1; YStr "2-3"; YInt 4])
           [YStr "title"; YInt 1] [YInt 4] (YStr "2-3") (ValueError "2-3")
           Sample.world0).
  - exact sample_closed.
  - vm_compute. lia.
  - unfold all_parse, verses_parse. by_cases.
  - repeat first [match goal with |- Forall _ _ => constructor end | progress cbn].
  - vm_compute. lia.
  - reflexivity.
  - reflexivity.
  - reflexivity.
  - change (children (deref (store Sample.world0) 0%nat))
      with [1; 2; 3; 4; 5; 6; 7; 8; 9]%nat.
    do 3 apply Exists_cons_tl. apply Exists_cons_hd. reflexivity.
  - reflexivity.
  - reflexivity.
  - reflexivity.
  - reflexivity.
Defined.

(** ** Numbers and their text in the TOC *)

(** X11.  A chapter or a chunk may stand in the TOC as a number or as the
    text of that number; the splitter handles both alike.  The entry is taken
    for a chapter, not for the front matter; a turn of the loop over the
    chunks does the same for the chunk given either way, and for the chapter
    given either way; and so does the processing of the whole chapter. *)
Theorem number_or_its_text (limit : nat) (self : USXSplitter) (n k : Z)
    (chapter_num chunk : scalar) (chunk_list : list scalar) (content : list loc)
    (w : world) :
  scalar_is (YStr (PyStr.of_Z n)) "front" = scalar_is (YInt n) "front"
  /\ process_chunk limit self chapter_num content (YStr (PyStr.of_Z k)) w
     = process_chunk limit self chapter_num content (YInt k) w
  /\ process_chunk limit self (YStr (PyStr.of_Z n)) content chunk w
     = process_chunk limit self (YInt n) content chunk w
  /\ process_chapter limit self (TocEntry (YStr (PyStr.of_Z n)) chunk_list) w
     = process_chapter limit self (TocEntry (YInt n) chunk_list) w.
Proof.
  assert (Hint : forall m, scalar_int (YStr (PyStr.of_Z m)) = scalar_int (YInt m)).
  { intros m. cbn [scalar_int]. now rewrite to_Z_of_Z. }
  assert (Hchapter : forall cont c (w0 : world),
            process_chunk limit self (YStr (PyStr.of_Z n)) cont c w0
            = process_chunk limit self (YInt n) cont c w0).
  { intros cont c w0. unfold process_chunk. now rewrite Hint. }
  split; [|split; [|split]].
  - cbn [scalar_is]. apply of_Z_no_keyword. now right.
  - unfold process_chunk. cbn [scalar_is].
    rewrite (of_Z_no_keyword k "title") by now left.
    now rewrite Hint.
  - apply Hchapter.
  - unfold process_chapter. cbn [chapter chunks scalar_str].
    unfold bind. destruct (print _ w) as [[[]|x0] w1]; [|reflexivity].
    destruct (extract_chapter_content self (YStr (PyStr.of_Z n)) w1)
      as [[cc|x0] w2] eqn:Hex.
    + assert (Hex' : extract_chapter_content self (YInt n) w1 = (Ok cc, w2))
        by exact Hex.
      rewrite Hex'. destruct cc as [|first rest]; [reflexivity|].
      clear Hex Hex'. generalize w2. clear w2.
      induction chunk_list as [|c cs IH]; intros w2; cbn [for_each]; [reflexivity|].
      unfold bind. rewrite Hchapter.
      destruct (process_chunk limit self (YInt n) (first :: rest) c w2)
        as [[[]|x1] w3]; [apply IH | reflexivity].
    + assert (Hex' : extract_chapter_content self (YInt n) w1 = (Raise x0, w2))
        by exact Hex.
      now rewrite Hex'.
Qed.


(** ** Ranges without verses *)

Lemma chunk_model_no_hit (h : heap) (s e : Z) (content : list loc) :
  (forall x, In x content -> is_para h x = true -> para_hit h s e x = false) ->
  forall next,
    chunk_model h s e content next
    = (List.filter (is_start_marker h) content, []).
Proof.
  induction content as [|x rest IH]; intros Hno next;
    cbn [chunk_model List.filter]; [reflexivity|].
  assert (Hrest : forall y, In y rest -> is_para h y = true ->
                            para_hit h s e y = false)
    by (intros y Hy; apply Hno; now right).
  destruct (is_para h x) eqn:Tp.
  - rewrite (Hno x (or_introl eq_refl) Tp).
    unfold is_para in Tp. apply String.eqb_eq in Tp.
    unfold is_start_marker at 1, is_chapter. rewrite Tp. cbn [String.eqb andb].
    now apply IH.
  - destruct (is_start_marker h x); rewrite (IH Hrest); reflexivity.
Qed.

Lemma empty_range_no_hit (h : heap) (s e : Z) (p : loc) :
  e < s -> para_hit h s e p = false.
Proof.
  intros Hlt. unfold para_hit.
  induction (children (deref h p)) as [|k ks IH]; [reflexivity|].
  cbn [existsb]. rewrite IH, orb_false_r. unfold verse_hit.
  destruct (is_verse h k); [|reflexivity].
  destruct (verse_num h k) as [n|x]; [|reflexivity].
  unfold in_range. cbn [andb].
  destruct (Z.leb_spec s n), (Z.leb_spec n e); try reflexivity. lia.
Qed.

(** X12.  A range that holds no verse of the chapter, in particular every
    range whose end is below its start, gives a chunk made of the chapter
    start markers alone: no paragraph is copied and nothing changes.  (The
    verse numbers are still read: they must be numbers.) *)
Theorem range_without_verses (content : list loc) (start_verse end_verse : Z)
    (w : world) :
  Forall (deep_live (store w)) content ->
  all_parse (store w) content ->
  (end_verse < start_verse
   \/ forall x, In x content -> is_para (store w) x = true ->
                para_hit (store w) start_verse end_verse x = false) ->
  extract_verses_for_chunk content start_verse (Some end_verse) w
  = (Ok (List.filter (is_start_marker (store w)) content), w).
Proof.
  intros Hlive Hparse Hno. unfold extract_verses_for_chunk. cbn [default].
  rewrite (chunk_scan_parse _ _ _ _ _ Hlive Hparse).
  rewrite chunk_model_no_hit.
  - cbn [fst snd app]. now rewrite app_nil_r, set_store_id.
  - destruct Hno as [Hlt | Hno]; [|exact Hno].
    intros x _ _. now apply empty_range_no_hit.
Qed.

Lemma range_without_verses_witness :
  extract_verses_for_chunk [4; 5; 6]%nat 5 (Some 3) Sample.world0
  = (Ok (List.filter (is_start_marker Sample.doc) [4; 5; 6]%nat),
     Sample.world0).
Proof.
  apply (range_without_verses [4; 5; 6]%nat 5 3 Sample.world0).
  - repeat first [match goal with |- Forall _ _ => constructor end
                 | split | (vm_compute; lia)].
  - unfold all_parse, verses_parse. by_cases.
  - left. lia.
Defined.


(** ** Where a run writes *)

Lemma written_at_same (p : path) (w w' : world) :
  disk w' = disk w -> written_at p w w'.
Proof.
  intros E. unfold written_at. rewrite E. split; [reflexivity|].
  exists []. split; [reflexivity | constructor].
Qed.

Lemma written_at_refl (p : path) (w : world) : written_at p w w.
Proof. now apply written_at_same. Qed.

Lemma written_at_trans (p : path) (w1 w2 w3 : world) :
  written_at p w1 w2 -> written_at p w2 w3 -> written_at p w1 w3.
Proof.
  intros (D12 & n1 & F12 & P1) (D23 & n2 & F23 & P2).
  split; [congruence|]. exists (n2 ++ n1).
  split; [now rewrite F23, F12, app_assoc|].
  apply Forall_app. now split.
Qed.

Lemma disk_grows_same (out : path) (w w' : world) :
  disk w' = disk w -> disk_grows out w w'.
Proof.
  intros E. unfold disk_grows. rewrite E. split; [auto|].
  exists []. split; [reflexivity | constructor].
Qed.

Lemma disk_grows_refl (out : path) (w : world) : disk_grows out w w.
Proof. now apply disk_grows_same. Qed.

Lemma disk_grows_trans (out : path) (w1 w2 w3 : world) :
  disk_grows out w1 w2 -> disk_grows out w2 w3 -> disk_grows out w1 w3.
Proof.
  intros (D12 & n1 & F12 & P1) (D23 & n2 & F23 & P2).
  split; [auto|]. exists (n2 ++ n1).
  split; [now rewrite F23, F12, app_assoc|].
  apply Forall_app. split; [exact P2|].
  apply Forall_impl with (1 := P1).
  intros f (d & name & E & Hin). exists d, name. auto.
Qed.

Lemma preserves_weaken {A} (R1 R2 : world -> world -> Prop) (m : M A) :
  (forall w w', R1 w w' -> R2 w w') -> preserves R1 m -> preserves R2 m.
Proof. intros Himp Hm w w' r H. apply Himp. now apply (Hm w w' r). Qed.

(** Commands that work on the store. *)
Lemma update_keeps_disk (p : path) (l : loc) (f : Element -> Element) :
  preserves (written_at p) (update l f).
Proof. intros w w' r H. inversion H; subst. now apply written_at_same. Qed.

Lemma append_keeps_disk (p : path) (parent child : loc) :
  preserves (written_at p) (append parent child).
Proof. apply update_keeps_disk. Qed.

Lemma set_text_keeps_disk (p : path) (l : loc) (t : string) :
  preserves (written_at p) (set_text l t).
Proof. apply update_keeps_disk. Qed.

Lemma new_element_keeps_disk (p : path) (t : string)
    (a : list (string * string)) :
  preserves (written_at p) (new_element t a).
Proof. intros w w' r H. inversion H; subst. now apply written_at_same. Qed.

Lemma print_keeps_disk (p : path) (line : string) :
  preserves (written_at p) (print line).
Proof. intros w w' r H. inversion H; subst. now apply written_at_same. Qed.

Lemma sub_element_keeps_disk (p : path) (parent : loc) (t : string)
    (a : list (string * string)) :
  preserves (written_at p) (sub_element parent t a).
Proof.
  pose proof (written_at_refl p) as Rr. pose proof (written_at_trans p) as Rt.
  apply preserves_bind; auto using new_element_keeps_disk. intros l.
  apply preserves_bind; auto using append_keeps_disk. intros _.
  now apply preserves_ret.
Qed.

Lemma indent_keeps_disk (p : path) (fuel : nat) (elem : loc) (level : nat) :
  preserves (written_at p) (_indent_xml fuel elem level).
Proof.
  apply (preserves_weaken text_only); [|apply indent_text_only].
  intros w w' (Hs & Hd & Ho). now apply written_at_same.
Qed.

Lemma write_written_at (limit : nat) (root : loc) (p : path) :
  preserves (written_at p) (write limit root p).
Proof.
  intros w w' r. unfold write.
  destruct (serialize limit (store w) root) as [x|]; intros H;
    inversion H; subst; [|apply written_at_refl].
  split; [reflexivity|]. exists [(p, x)].
  split; [reflexivity | now repeat constructor].
Qed.

Lemma indent_write_print_written (limit : nat) (root : loc) (p : path)
    (line : string) :
  preserves (written_at p)
    (_indent_xml limit root 0 ;; write limit root p ;; print line).
Proof.
  pose proof (written_at_refl p) as Rr. pose proof (written_at_trans p) as Rt.
  apply preserves_bind; auto using indent_keeps_disk. intros _.
  apply preserves_bind; auto using write_written_at, print_keeps_disk.
Qed.

(** Directories. *)
Lemma add_dir_mono (ds : list path) (p d : path) :
  d ∈ ds -> d ∈ add_dir ds p.
Proof.
  intros Hd. unfold add_dir. destruct (bool_decide (p ∈ ds)); [exact Hd|].
  apply elem_of_app. now left.
Qed.

Lemma add_dir_in (ds : list path) (p : path) : p ∈ add_dir ds p.
Proof.
  unfold add_dir. destruct (bool_decide (p ∈ ds)) eqn:E.
  - now apply bool_decide_eq_true in E.
  - apply elem_of_app. right. now apply list_elem_of_singleton.
Qed.

Lemma foldl_add_dir_mono (l : list path) :
  forall (ds : list path) (d : path),
    d ∈ ds -> d ∈ foldl add_dir ds l.
Proof.
  induction l as [|a l IH]; intros ds d Hd; cbn [foldl]; [exact Hd|].
  apply IH. now apply add_dir_mono.
Qed.

Lemma foldl_add_dir_in (l : list path) :
  forall (ds : list path) (d : path),
    d ∈ l -> d ∈ foldl add_dir ds l.
Proof.
  induction l as [|a l IH]; intros ds d Hd; cbn [foldl].
  - now apply elem_of_nil in Hd.
  - apply elem_of_cons in Hd. destruct Hd as [-> | Hd]; [|now apply IH].
    apply foldl_add_dir_mono. apply add_dir_in.
Qed.

Lemma ancestors_self (p : path) : p <> [] -> p ∈ ancestors p.
Proof.
  induction p as [|c p IH]; intros Hp; [contradiction|].
  cbn [ancestors]. destruct p as [|c' p'].
  - apply elem_of_cons. now left.
  - apply elem_of_cons. right. apply list_elem_of_fmap.
    exists (c' :: p'). split; [reflexivity|]. now apply IH.
Qed.

Lemma mkdir_disk_grows (out p : path) : preserves (disk_grows out) (mkdir p).
Proof.
  intros w w' r H. inversion H; subst. split; cbn [disk dirs files].
  - intros d Hd. now apply foldl_add_dir_mono.
  - exists []. split; [reflexivity | constructor].
Qed.

(** A directory is made, then files are written into it. *)
Lemma mkdir_then_written (out : path) (d name : string) (w w' : world) :
  written_at (path_join (path_join out d) name)
    (with_dirs w (path_join out d)) w' ->
  disk_grows out w w'.
Proof.
  intros (Hd & new & Hf & Hnew). cbn [with_dirs disk dirs files] in Hd, Hf.
  split.
  - intros x Hx. rewrite Hd. now apply foldl_add_dir_mono.
  - exists new. split; [exact Hf|]. apply Forall_impl with (1 := Hnew).
    intros f Ef. exists d, name. split; [exact Ef|].
    rewrite Hd. apply foldl_add_dir_in. apply ancestors_self.
    unfold path_join. now destruct out.
Qed.

Lemma create_chunk_file_disk (limit : nat) (self : USXSplitter)
    (chapter_num chunk_num : Z) (content : list loc) (is_title : bool) :
  preserves (disk_grows (output_dir self))
    (create_chunk_file limit self chapter_num chunk_num content is_title).
Proof.
  intros w w' r. unfold create_chunk_file. rewrite bind_mkdir.
  set (name := if is_title then _ else _).
  set (p := path_join _ name). intros Hrun.
  apply (mkdir_then_written _ (PyStr.fmt_02d chapter_num) name). fold p.
  pose proof (written_at_refl p) as Rr. pose proof (written_at_trans p) as Rt.
  use_preserves (written_at p) Hrun.
  apply preserves_bind; auto using new_element_keeps_disk. intros usx_root.
  apply preserves_bind; auto.
  { destruct (negb is_title); [|now apply preserves_ret].
    apply preserves_bind;
      auto using sub_element_keeps_disk, set_text_keeps_disk. }
  intros _. apply preserves_bind; auto.
  { apply preserves_for_each; auto using append_keeps_disk. }
  intros _. apply preserves_bind; auto.
  { destruct (negb is_title); [|now apply preserves_ret].
    apply preserves_bind; auto using preserves_get_store. intros h.
    destruct (negb _); [|now apply preserves_ret].
    apply preserves_bind; auto using sub_element_keeps_disk. intros l.
    now apply preserves_ret. }
  intros _. apply indent_write_print_written.
Qed.

Lemma process_chunk_disk (limit : nat) (self : USXSplitter)
    (chapter_num chunk : scalar) (content : list loc) :
  preserves (disk_grows (output_dir self))
    (process_chunk limit self chapter_num content chunk).
Proof.
  pose proof (disk_grows_refl (output_dir self)) as Rr.
  pose proof (disk_grows_trans (output_dir self)) as Rt.
  unfold process_chunk. destruct (scalar_is chunk "title").
  - apply preserves_bind; auto using preserves_get_store. intros h.
    apply preserves_bind; auto using preserves_lift, create_chunk_file_disk.
  - apply preserves_bind; auto using preserves_lift. intros cn.
    apply preserves_bind; auto.
    { apply (preserves_weaken extends);
        [|apply extract_verses_for_chunk_extends].
      intros w w' (He & Hd & Ho). now apply disk_grows_same. }
    intros cc.
    apply preserves_bind; auto using preserves_lift, create_chunk_file_disk.
Qed.

Lemma process_chapter_disk (limit : nat) (self : USXSplitter)
    (chapter_info : toc_entry) :
  preserves (disk_grows (output_dir self))
    (process_chapter limit self chapter_info).
Proof.
  pose proof (disk_grows_refl (output_dir self)) as Rr.
  pose proof (disk_grows_trans (output_dir self)) as Rt.
  assert (Hprint : forall line, preserves (disk_grows (output_dir self))
                                  (print line)).
  { intros line w w' r H. inversion H; subst. now apply disk_grows_same. }
  unfold process_chapter. apply preserves_bind; auto. intros _.
  apply preserves_bind; auto.
  { intros w w' r H. apply extract_chapter_content_reads in H.
    apply disk_grows_same. apply H. }
  intros [|first rest]; [apply Hprint|].
  apply preserves_for_each; auto using process_chunk_disk.
Qed.

Lemma process_front_matter_disk (limit : nat) (self : USXSplitter)
    (front_info : toc_entry) :
  preserves (disk_grows (output_dir self))
    (process_front_matter limit self front_info).
Proof.
  intros w w' r. unfold process_front_matter.
  rewrite bind_print, bind_mkdir, bind_get_store.
  set (w1 := mkWorld (store w) (disk w) _).
  set (content := front_scan _ _ _). intros Hrun.
  apply (disk_grows_trans _ w w1); [now apply disk_grows_same|].
  apply (mkdir_then_written _ "front" "title.usx").
  set (p := path_join _ "title.usx") in *.
  pose proof (written_at_refl p) as Rr. pose proof (written_at_trans p) as Rt.
  use_preserves (written_at p) Hrun.
  destruct content as [|first rest]; [now apply preserves_ret|].
  apply preserves_bind; auto using new_element_keeps_disk. intros usx_root.
  apply preserves_bind; auto.
  { apply preserves_for_each; auto using append_keeps_disk. }
  intros _. apply indent_write_print_written.
Qed.

(** X13.  Where a run writes.  However a run ends, it removes no directory
    and no file; every file that it adds has a path of the form
    [output_dir/D/name], one directory below the output directory, and the
    directory [output_dir/D] exists when the run ends.  So nothing is written
    outside the output directory, and nothing into a directory that was not
    made before. *)
Theorem run_writes_below_output_dir (limit : nat) (out_dir : path)
    (src : sources) (w w' : world) (r : result unit) :
  run limit out_dir src w = (r, w') ->
  (forall d, d ∈ dirs (disk w) -> d ∈ dirs (disk w'))
  /\ exists new,
       files (disk w') = new ++ files (disk w)
       /\ Forall (fun f => exists d name,
                      fst f = path_join (path_join out_dir d) name
                      /\ path_join out_dir d ∈ dirs (disk w')) new.
Proof.
  intros Hrun. change (disk_grows out_dir w w').
  pose proof (disk_grows_refl out_dir) as Rr.
  pose proof (disk_grows_trans out_dir) as Rt.
  assert (Hprint : forall line, preserves (disk_grows out_dir) (print line)).
  { intros line w0 w1 r0 H. inversion H; subst. now apply disk_grows_same. }
  use_preserves (disk_grows out_dir) Hrun.
  unfold run, load_toc, load_usx.
  apply preserves_bind; auto. intros _.
  apply preserves_bind; auto.
  { apply preserves_bind; auto. intros _. now apply preserves_ret. }
  intros toc. apply preserves_bind; auto.
  { apply preserves_bind; auto using preserves_get_store. intros h.
    apply preserves_bind; auto. intros _. now apply preserves_ret. }
  intros root. apply preserves_bind; auto using mkdir_disk_grows. intros _.
  apply preserves_bind; auto. apply preserves_for_each; auto. intros x.
  destruct (scalar_is (chapter x) "front").
  - apply (process_front_matter_disk limit (mkSplitter out_dir toc root)).
  - apply (process_chapter_disk limit (mkSplitter out_dir toc root)).
Qed.

Lemma run_writes_below_output_dir_witness :
  (forall d, d ∈ dirs (disk Sample.world0) ->
             d ∈ dirs (disk (snd (run Sample.limit ["out"]
                                    (mkSources Sample.toc 0%nat)
                                    Sample.world0))))
  /\ exists new,
       files (disk (snd (run Sample.limit ["out"]
                           (mkSources Sample.toc 0%nat) Sample.world0)))
       = new ++ files (disk Sample.world0)
       /\ Forall (fun f => exists d name,
                      fst f = path_join (path_join ["out"] d) name
                      /\ path_join ["out"] d
                         ∈ dirs (disk (snd (run Sample.limit ["out"]
                                              (mkSources Sample.toc 0%nat)
                                              Sample.world0)))) new.
Proof.
  apply (run_writes_below_output_dir Sample.limit ["out"]
           (mkSources Sample.toc 0%nat) Sample.world0
           (snd (run Sample.limit ["out"] (mkSources Sample.toc 0%nat)
                   Sample.world0))
           (fst (run Sample.limit ["out"] (mkSources Sample.toc 0%nat)
                   Sample.world0))).
  vm_compute. reflexivity.
Defined.


(** ** The shape of the source tree *)

(** X14.  However a run ends, every object that was in the store is still
    there with the same tag, the same attributes and the same list of
    children: a run adds objects and rewrites [text] and [tail] fields, and
    does nothing else to the store.  The extraction steps do not even that:
    the chapter extractor leaves the store as it is, and the chunk extractor
    only adds objects (the paragraph copies) at its end. *)
Theorem source_tree_keeps_its_shape (limit : nat) (out_dir : path)
    (src : sources) (w w' : world) (r : result unit)
    (self : USXSplitter) (chapter_num : scalar) (w1 w1' : world)
    (r1 : result (list loc))
    (content : list loc) (start_verse : Z) (end_verse : option Z)
    (w2 w2' : world) (r2 : result (list loc)) :
  closed (store w) ->
  run limit out_dir src w = (r, w') ->
  extract_chapter_content self chapter_num w1 = (r1, w1') ->
  extract_verses_for_chunk content start_verse end_verse w2 = (r2, w2') ->
  shape_kept w w'
  /\ store w1' = store w1
  /\ extends w2 w2'.
Proof.
  intros Hc Hrun Hchapter Hchunk. split; [|split].
  - now apply (run_frame _ _ _ _ _ _ Hc Hrun).
  - now apply (extract_chapter_content_reads _ _ _ _ _ Hchapter).
  - now apply (extract_verses_for_chunk_extends _ _ _ _ _ _ Hchunk).
Qed.

Lemma source_tree_keeps_its_shape_witness :
  shape_kept Sample.world0
    (snd (run Sample.limit ["out"] (mkSources Sample.toc 0%nat) Sample.world0))
  /\ store (snd (extract_chapter_content Sample.splitter (YInt 1) Sample.world0))
     = store Sample.world0
  /\ extends Sample.world0
       (snd (extract_verses_for_chunk [4; 5; 6]%nat 3 None Sample.world0)).
Proof.
  apply (source_tree_keeps_its_shape Sample.limit ["out"]
           (mkSources Sample.toc 0%nat) Sample.world0 _ (Ok tt)
           Sample.splitter (YInt 1) Sample.world0 _ (Ok [4; 5; 6]%nat)
           [4; 5; 6]%nat 3 None Sample.world0 _ (Ok [4; 16]%nat)).
  - exact sample_closed.
  - vm_compute. reflexivity.
  - vm_compute. reflexivity.
  - vm_compute. reflexivity.
Defined.
